(** * Procrastination Alarm: the decision engine and the behavioural memory

    A shallow embedding of [screen-analyzer.ts] (class [ProductivityAgent])
    and of the memory system (class [MemorySystem]), with the properties
    of the specification stated over it.

    - [JS]: the JavaScript values the code handles, [JSON.parse] /
      [JSON.stringify] on text, and the conversions of a value to a string
      and to a number.
    - [ProductivityAgent]: [parseAgentDecision], [getDefaultDecision],
      [addToHistory], [decideIntervention],
      [recordInterventionEffectiveness].
    - [MemorySystem]: sessions, the user profile, the persisted document.
    - [ScreenAnalyzer], [ActivityMonitor], [ProcrastinationDetector],
      [AgentBasedDetector]: the analyzer of the screen, the monitor of
      keyboard and mouse, and the two detectors that use them
      ([activity-monitor.ts], [procrastination-detector.ts],
      [agent-detector.ts]). *)

From Stdlib Require Import ZArith NArith List Lia Ascii String.
From Stdlib Require Import PrimFloat FloatOps SpecFloat.
From stdpp Require Import gmap list sorting.

Open Scope N_scope.

(* ===================================================================== *)
(** * JavaScript values and JSON text *)
(* ===================================================================== *)

Module JS.

(** A JavaScript string is a sequence of UTF-16 code units. *)
Abbreviation jsstring := (list N) (only parsing).

(** The code units of an ASCII literal. *)
Definition js (s : string) : jsstring :=
  map N_of_ascii (list_ascii_of_string s).

(** The same, with the apostrophe standing for the double quote (code unit
    34), to write JSON text legibly. *)
Definition jsq (s : string) : jsstring :=
  map (fun c => if c =? 39 then 34 else c) (js s).

(** A JavaScript number as JSON text carries it: the decimal
    [(-1)^neg * mant * 10^exp].  [JSON.parse] reads a literal into such a
    decimal, and the double the runtime holds is [Number_value] of it;
    [JSON.stringify] writes the decimal [Number_digits] selects for a
    double. *)
Record jsnum := JsNum { num_neg : bool; num_mant : N; num_exp : Z }.

(** An integer-valued number. *)
Definition num_of_N (n : N) : jsnum := JsNum false n 0.

(** The double nearest to a decimal, ties to even (StringToNumber). *)
Definition Number_value (n : jsnum) : float :=
  match num_mant n with
  | N0 => if num_neg n then (-0)%float else 0%float
  | Npos m =>
      if (0 <=? num_exp n)%Z then
        let v := (Zpos m * 10 ^ num_exp n)%Z in
        SF2Prim (binary_normalize prec emax
                   (if num_neg n then (- v)%Z else v) 0 false)
      else
        let d := (10 ^ (- num_exp n))%Z in
        let s := Z.max 0 (Z.log2 d - Z.log2 (Zpos m) + 64) in
        let a := (Zpos m * 2 ^ s)%Z in
        let q := (a / d)%Z in
        let r := (a mod d)%Z in
        let loc := if (r =? 0)%Z then loc_Exact
                   else loc_Inexact (2 * r ?= d)%Z in
        SF2Prim (binary_round_aux prec emax (num_neg n) q (- s) loc)
  end.

(** [10^q <= num/den], for positive [num] and [den]. *)
Definition pow10_le (q num den : Z) : bool :=
  if (0 <=? q)%Z then (10 ^ q * den <=? num)%Z
  else (den <=? num * 10 ^ (- q))%Z.

Fixpoint raise_log10 (fuel : nat) (p num den : Z) : Z :=
  match fuel with
  | O => p
  | S fuel =>
      if pow10_le (p + 1) num den then raise_log10 fuel (p + 1)%Z num den
      else p
  end.

(** The largest [p] with [10^p <= num/den]. *)
Definition floor_log10 (num den : Z) : Z :=
  raise_log10 6 ((Z.log2 num - Z.log2 den - 1) * 30103 / 100000 - 1)%Z
              num den.

(** [floor (num/den / 10^q)] *)
Definition scaled_floor (num den q : Z) : Z :=
  if (0 <=? q)%Z then (num / (den * 10 ^ q))%Z
  else ((num * 10 ^ (- q)) / den)%Z.

(** How [num/den] compares with the midpoint of [lo * 10^q] and
    [(lo+1) * 10^q]. *)
Definition midpoint_cmp (num den q lo : Z) : comparison :=
  if (0 <=? q)%Z then (2 * num ?= (2 * lo + 1) * (den * 10 ^ q))%Z
  else (2 * num * 10 ^ (- q) ?= (2 * lo + 1) * den)%Z.

Fixpoint strip_zeros (fuel : nat) (m e : Z) : Z * Z :=
  match fuel with
  | O => (m, e)
  | S fuel =>
      if ((m mod 10 =? 0) && negb (m =? 0))%Z
      then strip_zeros fuel (m / 10)%Z (e + 1)%Z
      else (m, e)
  end.

(** The shortest digit string, of [k] digits or more, that reads back as
    [x = num/den]; of two of the same length the closer one, and of two
    equally close the even one. *)
Fixpoint shortest (fuel : nat) (k : Z) (x : float) (num den p : Z)
  : option (Z * Z) :=
  match fuel with
  | O => None
  | S fuel =>
      let q := (p + 1 - k)%Z in
      let lo := scaled_floor num den q in
      let hi := (lo + 1)%Z in
      let reads_back c :=
        PrimFloat.Leibniz.eqb (Number_value (JsNum false (Z.to_N c) q)) x in
      match reads_back lo, reads_back hi with
      | true, true =>
          match midpoint_cmp num den q lo with
          | Lt => Some (lo, q)
          | Gt => Some (hi, q)
          | Eq => Some (if Z.even lo then lo else hi, q)
          end
      | true, false => Some (lo, q)
      | false, true => Some (hi, q)
      | false, false => shortest fuel (k + 1)%Z x num den p
      end
  end.

(** The digits [Number::toString] selects for a finite double; [None] for
    NaN and the infinities. *)
Definition Number_digits (x : float) : option jsnum :=
  match Prim2SF x with
  | S754_zero _ => Some (JsNum false 0 0)
  | S754_finite s m e =>
      let num := if (0 <=? e)%Z then (Zpos m * 2 ^ e)%Z else Zpos m in
      let den := if (0 <=? e)%Z then 1%Z else (2 ^ (- e))%Z in
      match shortest 17 1 (abs x) num den (floor_log10 num den) with
      | Some (c, q) =>
          let (c', q') := strip_zeros 20 c q in Some (JsNum s (Z.to_N c') q')
      | None => None
      end
  | S754_infinity _ | S754_nan => None
  end.

#[local] Set Warnings "-register-all".

(** Values.  An object is its list of own properties in creation order; an
    array carries its elements and, as every JavaScript object may, named
    properties added to it later. *)
Inductive JSValue :=
| JSUndefined
| JSNull
| JSBool (b : bool)
| JSNumber (n : jsnum)
| JSString (s : jsstring)
| JSArray (elems : list JSValue) (named : list (jsstring * JSValue))
| JSObject (props : list (jsstring * JSValue)).

(** Exceptions. *)
Inductive exn :=
| Error (message : string)
| SyntaxError
| TypeError
| IOError.

(** The outcome of running a piece of code: a value, or a thrown exception. *)
Inductive result (A : Type) :=
| Ok (a : A)
| Throw (e : exn).
Arguments Ok {A} a.
Arguments Throw {A} e.

Definition bind {A B} (r : result A) (k : A -> result B) : result B :=
  match r with
  | Ok a => k a
  | Throw e => Throw e
  end.

(** [try { body } catch (e) { handler e }] *)
Definition try_catch {A} (body : result A) (handler : exn -> result A) : result A :=
  match body with
  | Ok a => Ok a
  | Throw e => handler e
  end.

#[global] Instance result_ret : MRet result := fun A a => Ok a.
#[global] Instance result_bind : MBind result := fun A B k r => bind r k.

(** ToBoolean: [undefined], [null], [false], zero and the empty string are
    falsy. *)
Definition truthy (v : JSValue) : bool :=
  match v with
  | JSUndefined | JSNull => false
  | JSBool b => b
  | JSNumber n => negb (Number_value n =? 0)%float
  | JSString s => match s with [] => false | _ => true end
  | JSArray _ _ | JSObject _ => true
  end.

(** [typeof v === "boolean"] *)
Definition is_boolean (v : JSValue) : bool :=
  match v with JSBool _ => true | _ => false end.

(** Own properties, in creation order. *)
Fixpoint lookup_prop (k : jsstring) (ps : list (jsstring * JSValue)) : option JSValue :=
  match ps with
  | [] => None
  | (k', v) :: ps' => if decide (k = k') then Some v else lookup_prop k ps'
  end.

(** Assignment to a property keeps the position of an existing key and
    appends a new one. *)
Fixpoint assign_prop (k : jsstring) (v : JSValue) (ps : list (jsstring * JSValue))
  : list (jsstring * JSValue) :=
  match ps with
  | [] => [(k, v)]
  | (k', v') :: ps' =>
      if decide (k = k') then (k, v) :: ps' else (k', v') :: assign_prop k v ps'
  end.

(** [v.k] for the property names this program reads ([shouldIntervene],
    [intervention], [reasoning], [type], [wasEffective], [sessions],
    [userProfile], ...): none of them is an array index, [length], or a
    member of a built-in prototype, so a primitive or an object without
    the own property yields [undefined]; reading from [null] or
    [undefined] throws. *)
Definition get (v : JSValue) (k : jsstring) : result JSValue :=
  match v with
  | JSUndefined | JSNull => Throw TypeError
  | JSObject ps | JSArray _ ps =>
      Ok (match lookup_prop k ps with Some x => x | None => JSUndefined end)
  | JSBool _ | JSNumber _ | JSString _ => Ok JSUndefined
  end.

(** [v.k = x] in strict mode (the sources are ES modules): creating a
    property on a primitive throws, as does any assignment on [null] or
    [undefined]. *)
Definition set (v : JSValue) (k : jsstring) (x : JSValue) : result JSValue :=
  match v with
  | JSObject ps => Ok (JSObject (assign_prop k x ps))
  | JSArray es ps => Ok (JSArray es (assign_prop k x ps))
  | _ => Throw TypeError
  end.

(** ** JSON.parse *)

Definition is_ws (c : N) : bool :=
  (c =? 32) || (c =? 9) || (c =? 10) || (c =? 13).

Fixpoint skip_ws (s : jsstring) : jsstring :=
  match s with
  | c :: s' => if is_ws c then skip_ws s' else s
  | [] => []
  end.

Definition is_digit (c : N) : bool := (48 <=? c) && (c <=? 57).

Definition hex_val (c : N) : option N :=
  if is_digit c then Some (c - 48)
  else if (97 <=? c) && (c <=? 102) then Some (c - 87)
  else if (65 <=? c) && (c <=? 70) then Some (c - 55)
  else None.

Definition hex4 (a b c d : N) : option N :=
  match hex_val a, hex_val b, hex_val c, hex_val d with
  | Some x, Some y, Some z, Some w => Some (((x * 16 + y) * 16 + z) * 16 + w)
  | _, _, _, _ => None
  end.

(** The character a single-letter escape stands for. *)
Definition unescape (e : N) : option N :=
  if e =? 34 then Some 34            (* quote *)
  else if e =? 92 then Some 92       (* backslash *)
  else if e =? 47 then Some 47       (* slash *)
  else if e =? 98 then Some 8        (* b: backspace *)
  else if e =? 102 then Some 12      (* f: form feed *)
  else if e =? 110 then Some 10      (* n: line feed *)
  else if e =? 114 then Some 13      (* r: carriage return *)
  else if e =? 116 then Some 9       (* t: tab *)
  else None.

Definition cons_fst {A B} (a : A) (r : option (list A * B)) : option (list A * B) :=
  match r with
  | Some (l, b) => Some (a :: l, b)
  | None => None
  end.

(** The characters of a string literal after its opening quote, up to and
    including the closing quote. *)
Fixpoint parse_chars (s : jsstring) : option (jsstring * jsstring) :=
  match s with
  | [] => None
  | c :: s1 =>
      if c =? 34 then Some ([], s1)
      else if c =? 92 then
        match s1 with
        | [] => None
        | e :: s2 =>
            if e =? 117 then
              match s2 with
              | h1 :: h2 :: h3 :: h4 :: s3 =>
                  match hex4 h1 h2 h3 h4 with
                  | Some u => cons_fst u (parse_chars s3)
                  | None => None
                  end
              | _ => None
              end
            else
              match unescape e with
              | Some u => cons_fst u (parse_chars s2)
              | None => None
              end
        end
      else if c <? 32 then None
      else cons_fst c (parse_chars s1)
  end.

(** The longest run of decimal digits at the head, as digit values. *)
Fixpoint span_digits (s : jsstring) : list N * jsstring :=
  match s with
  | c :: s' =>
      if is_digit c then let (ds, r) := span_digits s' in ((c - 48) :: ds, r)
      else ([], s)
  | [] => ([], [])
  end.

Definition digits_value (ds : list N) : N :=
  fold_left (fun acc d => acc * 10 + d) ds 0.

(** The optional fraction of a number: a point and at least one digit. *)
Definition parse_frac (s : jsstring) : option (list N * jsstring) :=
  match s with
  | c :: s' =>
      if c =? 46 then
        let (fp, r) := span_digits s' in
        match fp with [] => None | _ :: _ => Some (fp, r) end
      else Some ([], s)
  | [] => Some ([], s)
  end.

(** The optional exponent: e or E, an optional sign, at least one digit. *)
Definition parse_exp (s : jsstring) : option (Z * jsstring) :=
  match s with
  | c :: s' =>
      if (c =? 101) || (c =? 69) then
        let (eneg, s'') :=
          match s' with
          | g :: t =>
              if g =? 45 then (true, t)
              else if g =? 43 then (false, t)
              else (false, s')
          | [] => (false, s')
          end in
        let (ep, r) := span_digits s'' in
        match ep with
        | [] => None
        | _ :: _ =>
            let e := Z.of_N (digits_value ep) in
            Some (if eneg : bool then (- e)%Z else e, r)
        end
      else Some (0%Z, s)
  | [] => Some (0%Z, s)
  end.

(** A JSON number: an optional minus sign; an integer part that is 0 or a
    digit string without leading zero; an optional fraction; an optional
    exponent. *)
Definition parse_number (s : jsstring) : option (jsnum * jsstring) :=
  let (neg, s0) :=
    match s with
    | c :: s' => if c =? 45 then (true, s') else (false, s)
    | [] => (false, s)
    end in
  let (ip, s1) := span_digits s0 in
  match ip with
  | [] => None
  | d :: ip' =>
      if (d =? 0) && (match ip' with [] => false | _ :: _ => true end)
      then None
      else
        match parse_frac s1 with
        | None => None
        | Some (fp, s2) =>
            match parse_exp s2 with
            | None => None
            | Some (e, s3) =>
                Some (JsNum neg (digits_value (ip ++ fp))
                            (e - Z.of_nat (length fp))%Z, s3)
            end
        end
  end.

(** [expect w s]: [s] without its prefix [w]. *)
Fixpoint expect (w s : jsstring) : option jsstring :=
  match w, s with
  | [], _ => Some s
  | a :: w', b :: s' => if a =? b then expect w' s' else None
  | _ :: _, [] => None
  end.

(** One JSON value at the head of the text (leading white space allowed),
    and the text after it.  [fuel] bounds the nesting of recursive calls;
    [JSON_parse] supplies enough of it for the whole text. *)
Fixpoint parse_value (fuel : nat) (s : jsstring) : option (JSValue * jsstring) :=
  match fuel with
  | O => None
  | S fuel =>
      match skip_ws s with
      | [] => None
      | c :: s1 =>
          if c =? 123 then                          (* { *)
            match skip_ws s1 with
            | d :: s2 =>
                if d =? 125 then Some (JSObject [], s2)
                else
                  match parse_members fuel s1 [] with
                  | Some (ps, r) => Some (JSObject ps, r)
                  | None => None
                  end
            | [] => None
            end
          else if c =? 91 then                      (* [ *)
            match skip_ws s1 with
            | d :: s2 =>
                if d =? 93 then Some (JSArray [] [], s2)
                else
                  match parse_elements fuel s1 with
                  | Some (es, r) => Some (JSArray es [], r)
                  | None => None
                  end
            | [] => None
            end
          else if c =? 34 then                      (* quote *)
            match parse_chars s1 with
            | Some (str, r) => Some (JSString str, r)
            | None => None
            end
          else if c =? 116 then                     (* true *)
            match expect (js "rue") s1 with
            | Some r => Some (JSBool true, r)
            | None => None
            end
          else if c =? 102 then                     (* false *)
            match expect (js "alse") s1 with
            | Some r => Some (JSBool false, r)
            | None => None
            end
          else if c =? 110 then                     (* null *)
            match expect (js "ull") s1 with
            | Some r => Some (JSNull, r)
            | None => None
            end
          else
            match parse_number (c :: s1) with
            | Some (n, r) => Some (JSNumber n, r)
            | None => None
            end
      end
  end

(** The elements of a non-empty array after its opening bracket, through
    the closing bracket. *)
with parse_elements (fuel : nat) (s : jsstring) : option (list JSValue * jsstring) :=
  match fuel with
  | O => None
  | S fuel =>
      match parse_value fuel s with
      | None => None
      | Some (v, r) =>
          match skip_ws r with
          | c :: r1 =>
              if c =? 93 then Some ([v], r1)
              else if c =? 44 then cons_fst v (parse_elements fuel r1)
              else None
          | [] => None
          end
      end
  end

(** The members of a non-empty object after its opening brace, through the
    closing brace; [acc] holds the properties defined so far, and a repeated
    key overwrites the earlier value in place. *)
with parse_members (fuel : nat) (s : jsstring) (acc : list (jsstring * JSValue))
  : option (list (jsstring * JSValue) * jsstring) :=
  match fuel with
  | O => None
  | S fuel =>
      match skip_ws s with
      | q :: s1 =>
          if q =? 34 then
            match parse_chars s1 with
            | None => None
            | Some (k, s2) =>
                match skip_ws s2 with
                | colon :: s3 =>
                    if colon =? 58 then
                      match parse_value fuel s3 with
                      | None => None
                      | Some (v, r) =>
                          let acc' := assign_prop k v acc in
                          match skip_ws r with
                          | c :: r1 =>
                              if c =? 125 then Some (acc', r1)
                              else if c =? 44 then parse_members fuel r1 acc'
                              else None
                          | [] => None
                          end
                      end
                    else None
                | [] => None
                end
            end
          else None
      | [] => None
      end
  end.

(** [JSON.parse(text)]: [None] stands for the [SyntaxError] it throws. *)
Definition JSON_parse (text : jsstring) : option JSValue :=
  match parse_value (2 * length text + 2) text with
  | Some (v, rest) =>
      match skip_ws rest with
      | [] => Some v
      | _ :: _ => None
      end
  | None => None
  end.

(** ** JSON.stringify *)

(** The decimal digits of a natural number, most significant first. *)
Fixpoint digits_fuel (fuel : nat) (n : N) (acc : list N) : list N :=
  match fuel with
  | O => acc
  | S fuel =>
      if n <? 10 then n :: acc
      else digits_fuel fuel (n / 10) (n mod 10 :: acc)
  end.

Definition N_digits (n : N) : list N :=
  digits_fuel (S (N.to_nat (N.log2 n))) n [].

Definition digit_chars (ds : list N) : jsstring := map (N.add 48) ds.

Definition zeros (n : nat) : jsstring := replicate n 48.

(** [e+21], [e-7] *)
Definition exponent_chars (e : Z) : jsstring :=
  101 :: (if (e <? 0)%Z then 45 else 43) :: digit_chars (N_digits (Z.abs_N e)).

(** Number::toString, the layout of the digits: for a decimal whose
    mantissa has [k] digits and whose point sits after digit [n].  The
    mantissa is taken as the runtime selects it: without trailing zeros
    ([Number_digits]), or an integer below 10^21 ([num_of_N]). *)
Definition Number_toString (x : jsnum) : jsstring :=
  if num_mant x =? 0 then [48]
  else
    let ds := N_digits (num_mant x) in
    let k := Z.of_nat (length ds) in
    let n := (k + num_exp x)%Z in
    (if num_neg x then [45] else []) ++
    (if ((k <=? n) && (n <=? 21))%Z then
       digit_chars ds ++ zeros (Z.to_nat (n - k))
     else if ((0 <? n) && (n <=? 21))%Z then
       digit_chars (take (Z.to_nat n) ds) ++ [46] ++
       digit_chars (drop (Z.to_nat n) ds)
     else if ((-6 <? n) && (n <=? 0))%Z then
       [48; 46] ++ zeros (Z.to_nat (- n)) ++ digit_chars ds
     else
       match ds with
       | [] => []
       | [d] => digit_chars [d] ++ exponent_chars (n - 1)
       | d :: ds' =>
           digit_chars [d] ++ [46] ++ digit_chars ds' ++ exponent_chars (n - 1)
       end).

Definition hex_digit (d : N) : N := if d <? 10 then 48 + d else 87 + d.

(** A code unit as a u-escape with four lower-case hexadecimal digits. *)
Definition escape_u (c : N) : jsstring :=
  [92; 117; hex_digit (c / 4096 mod 16); hex_digit (c / 256 mod 16);
   hex_digit (c / 16 mod 16); hex_digit (c mod 16)].

Definition is_lead_surrogate (c : N) : bool := (55296 <=? c) && (c <=? 56319).
Definition is_trail_surrogate (c : N) : bool := (56320 <=? c) && (c <=? 57343).

(** QuoteJSONString, without the surrounding quotes: the quote, the
    backslash and the control characters are escaped, as is a surrogate
    that is not part of a pair. *)
Fixpoint quote_chars (s : jsstring) : jsstring :=
  match s with
  | [] => []
  | c :: s' =>
      if c =? 34 then 92 :: 34 :: quote_chars s'
      else if c =? 92 then 92 :: 92 :: quote_chars s'
      else if c =? 8 then 92 :: 98 :: quote_chars s'
      else if c =? 12 then 92 :: 102 :: quote_chars s'
      else if c =? 10 then 92 :: 110 :: quote_chars s'
      else if c =? 13 then 92 :: 114 :: quote_chars s'
      else if c =? 9 then 92 :: 116 :: quote_chars s'
      else if c <? 32 then escape_u c ++ quote_chars s'
      else if is_lead_surrogate c then
        match s' with
        | t :: s'' =>
            if is_trail_surrogate t then c :: t :: quote_chars s''
            else escape_u c ++ quote_chars s'
        | [] => escape_u c
        end
      else if is_trail_surrogate c then escape_u c ++ quote_chars s'
      else c :: quote_chars s'
  end.

Definition quote (s : jsstring) : jsstring := 34 :: quote_chars s ++ [34].

(** A line break and the indentation of nesting depth [depth], two spaces
    a level. *)
Definition newline (depth : nat) : jsstring := 10 :: replicate (2 * depth) 32.

(** The items of an array or object, one a line. *)
Fixpoint join_lines (depth : nat) (items : list jsstring) : jsstring :=
  match items with
  | [] => []
  | [item] => item
  | item :: items' => item ++ [44] ++ newline depth ++ join_lines depth items'
  end.

(** SerializeJSONProperty with a gap of two spaces: [None] is [undefined],
    for which an object omits the property and an array writes [null].
    The named properties of an array are not serialised. *)
Fixpoint serialize (depth : nat) (v : JSValue) {struct v} : option jsstring :=
  match v with
  | JSUndefined => None
  | JSNull => Some (js "null")
  | JSBool true => Some (js "true")
  | JSBool false => Some (js "false")
  | JSNumber n => Some (Number_toString n)
  | JSString str => Some (quote str)
  | JSArray elems _ =>
      let items :=
        (fix items (es : list JSValue) : list jsstring :=
           match es with
           | [] => []
           | e :: es' =>
               match serialize (S depth) e with
               | Some t => t
               | None => js "null"
               end :: items es'
           end) elems in
      match items with
      | [] => Some [91; 93]
      | _ :: _ =>
          Some ([91] ++ newline (S depth) ++ join_lines (S depth) items ++
                newline depth ++ [93])
      end
  | JSObject props =>
      let members :=
        (fix members (ps : list (jsstring * JSValue)) : list jsstring :=
           match ps with
           | [] => []
           | (k, x) :: ps' =>
               match serialize (S depth) x with
               | Some t => (quote k ++ [58; 32] ++ t) :: members ps'
               | None => members ps'
               end
           end) props in
      match members with
      | [] => Some [123; 125]
      | _ :: _ =>
          Some ([123] ++ newline (S depth) ++ join_lines (S depth) members ++
                newline depth ++ [125])
      end
  end.

(** [JSON.stringify(v, null, 2)]; [None] when the result is [undefined]. *)
Definition JSON_stringify (v : JSValue) : option jsstring := serialize 0 v.

(** ** Conversions

    What a template literal and the operator [>] do with a value.  The
    values here hold no function, so an own property named [toString],
    [valueOf] or [join] is never callable: it hides the method of the
    prototype and is skipped. *)

(** Number::toString of a double. *)
Definition Number_toString_double (x : float) : jsstring :=
  match Number_digits x with
  | Some d => Number_toString d
  | None =>
      if is_nan x then js "NaN"
      else if (x <? 0)%float then js "-Infinity"
      else js "Infinity"
  end.

Definition has_own (k : jsstring) (ps : list (jsstring * JSValue)) : bool :=
  match lookup_prop k ps with
  | Some _ => true
  | None => false
  end.

(** ToString.  An object converts through [Object.prototype.toString],
    an array through [Array.prototype.toString], which joins the elements
    with commas, [undefined] and [null] giving the empty string.  With an
    own property [toString] neither method is found and, [valueOf]
    returning no primitive, the conversion throws a [TypeError]; an array
    with an own property [join] converts as an object does. *)
Fixpoint ToString (v : JSValue) : result jsstring :=
  match v with
  | JSUndefined => Ok (js "undefined")
  | JSNull => Ok (js "null")
  | JSBool true => Ok (js "true")
  | JSBool false => Ok (js "false")
  | JSNumber n => Ok (Number_toString_double (Number_value n))
  | JSString s => Ok s
  | JSArray elems named =>
      if has_own (js "toString") named then Throw TypeError
      else if has_own (js "join") named then Ok (js "[object Array]")
      else
        (fix join (es : list JSValue) : result jsstring :=
           match es with
           | [] => Ok []
           | e :: es' =>
               match match e with
                     | JSUndefined | JSNull => Ok []
                     | _ => ToString e
                     end with
               | Ok s =>
                   match es' with
                   | [] => Ok s
                   | _ :: _ =>
                       match join es' with
                       | Ok r => Ok (s ++ 44 :: r)
                       | Throw x => Throw x
                       end
                   end
               | Throw x => Throw x
               end
           end) elems
  | JSObject props =>
      if has_own (js "toString") props then Throw TypeError
      else Ok (js "[object Object]")
  end.

(** White space and line terminators (StrWhiteSpaceChar): tab, line feed,
    vertical tab, form feed, carriage return, space, no-break space, the
    space separators of Unicode, the line and paragraph separators, and
    the byte order mark. *)
Definition is_str_ws (c : N) : bool :=
  ((9 <=? c) && (c <=? 13)) || (c =? 32) || (c =? 160) || (c =? 5760) ||
  ((8192 <=? c) && (c <=? 8202)) || (c =? 8232) || (c =? 8233) ||
  (c =? 8239) || (c =? 8287) || (c =? 12288) || (c =? 65279).

Fixpoint trim_start (s : jsstring) : jsstring :=
  match s with
  | c :: s' => if is_str_ws c then trim_start s' else s
  | [] => []
  end.

Definition trim (s : jsstring) : jsstring :=
  rev (trim_start (rev (trim_start s))).

(** The value of a string of digits in base [radix]; [None] when a
    character is no digit of that base. *)
Fixpoint radix_value (radix : N) (s : jsstring) (acc : N) : option N :=
  match s with
  | [] => Some acc
  | c :: s' =>
      match hex_val c with
      | Some d =>
          if d <? radix then radix_value radix s' (acc * radix + d) else None
      | None => None
      end
  end.

(** NonDecimalIntegerLiteral: [0x], [0o] or [0b], in either case, and at
    least one digit. *)
Definition non_decimal_literal (s : jsstring) : option N :=
  match s with
  | z :: p :: d :: ds =>
      if negb (z =? 48) then None
      else if (p =? 120) || (p =? 88) then radix_value 16 (d :: ds) 0
      else if (p =? 111) || (p =? 79) then radix_value 8 (d :: ds) 0
      else if (p =? 98) || (p =? 66) then radix_value 2 (d :: ds) 0
      else None
  | _ => None
  end.

(** StrUnsignedDecimalLiteral, with the sign read before it: [Infinity],
    or digits with an optional point and an optional exponent, of which
    the digits before or those after the point may be missing, not
    both. *)
Definition unsigned_decimal_literal (neg : bool) (s : jsstring) : option float :=
  if bool_decide (s = js "Infinity")
  then Some (if neg then neg_infinity else infinity)
  else
    let (ip, s1) := span_digits s in
    let (fp, s2) :=
      match s1 with
      | c :: r => if c =? 46 then span_digits r else ([], s1)
      | [] => ([], s1)
      end in
    match ip ++ fp with
    | [] => None
    | _ :: _ =>
        match parse_exp s2 with
        | Some (e, []) =>
            Some (Number_value (JsNum neg (digits_value (ip ++ fp))
                                      (e - Z.of_nat (length fp))%Z))
        | _ => None
        end
    end.

(** StringToNumber: the empty or blank string is 0, and a text that is no
    numeric literal is NaN. *)
Definition StringToNumber (s : jsstring) : float :=
  match trim s with
  | [] => 0%float
  | c :: t =>
      match non_decimal_literal (c :: t) with
      | Some n => Number_value (num_of_N n)
      | None =>
          match (if c =? 43 then unsigned_decimal_literal false t
                 else if c =? 45 then unsigned_decimal_literal true t
                 else unsigned_decimal_literal false (c :: t)) with
          | Some x => x
          | None => nan
          end
      end
  end.

(** ToNumber.  An object or an array is first made a primitive:
    [valueOf] returns the object itself, so the primitive is the string
    of [toString]. *)
Definition ToNumber (v : JSValue) : result float :=
  match v with
  | JSUndefined => Ok nan
  | JSNull => Ok 0%float
  | JSBool b => Ok (if b then 1%float else 0%float)
  | JSNumber n => Ok (Number_value n)
  | JSString s => Ok (StringToNumber s)
  | JSArray _ _ | JSObject _ =>
      match ToString v with
      | Ok s => Ok (StringToNumber s)
      | Throw x => Throw x
      end
  end.

(** [v > y] for a number [y]: false when [v] converts to NaN. *)
Definition greater_than (v : JSValue) (y : float) : result bool :=
  match ToNumber v with
  | Ok x => Ok (y <? x)%float
  | Throw e => Throw e
  end.

End JS.

Import JS.

(* ===================================================================== *)
(** * The decision engine: class ProductivityAgent *)
(* ===================================================================== *)

Module ProductivityAgent.

(** The property names the class reads and writes. *)
Definition k_shouldIntervene : jsstring := js "shouldIntervene".
Definition k_intervention : jsstring := js "intervention".
Definition k_reasoning : jsstring := js "reasoning".
Definition k_confidence : jsstring := js "confidence".
Definition k_type : jsstring := js "type".
Definition k_message : jsstring := js "message".
Definition k_timestamp : jsstring := js "timestamp".
Definition k_wasEffective : jsstring := js "wasEffective".

(** The four intervention types of interface [Intervention]. *)
Definition t_alarm : jsstring := js "alarm".
Definition t_notification : jsstring := js "notification".
Definition t_gentle_reminder : jsstring := js "gentle_reminder".
Definition t_none : jsstring := js "none".
Definition intervention_types : list jsstring :=
  [t_alarm; t_notification; t_gentle_reminder; t_none].

(** ** The state of an agent and its methods

    The only field the methods below touch is [interventionHistory].  A
    method is a function from the history before the call to its outcome
    and the history after it; what a method did to the history before it
    threw stays done. *)
Abbreviation History := (list JSValue) (only parsing).
Definition M (A : Type) : Type := History -> result A * History.

Definition retM {A} (a : A) : M A := fun h => (Ok a, h).
Definition bindM {A B} (m : M A) (k : A -> M B) : M B :=
  fun h => match m h with
           | (Ok a, h') => k a h'
           | (Throw e, h') => (Throw e, h')
           end.
Definition lift {A} (r : result A) : M A := fun h => (r, h).
Definition try_catchM {A} (body : M A) (handler : exn -> M A) : M A :=
  fun h => match body h with
           | (Ok a, h') => (Ok a, h')
           | (Throw e, h') => handler e h'
           end.

#[global] Instance M_ret : MRet M := @retM.
#[global] Instance M_bind : MBind M := fun A B k m => bindM m k.

Definition maxHistorySize : nat := 10.

(** ** The regular expression of [parseAgentDecision]

    [response.match(/\{[\s\S]*\}/)]: the leftmost opening brace that has
    a closing brace after it, and, the star being greedy, everything up
    to the last closing brace of the text. *)
Fixpoint from_first (c : N) (s : jsstring) : option jsstring :=
  match s with
  | [] => None
  | d :: s' => if d =? c then Some s else from_first c s'
  end.

Definition through_last (c : N) (s : jsstring) : option jsstring :=
  match from_first c (rev s) with
  | Some r => Some (rev r)
  | None => None
  end.

Definition match_braces (response : jsstring) : option jsstring :=
  match from_first 123 response with
  | Some s => through_last 125 s
  | None => None
  end.

(** ** getDefaultDecision *)
Definition getDefaultDecision (now : N) : JSValue :=
  JSObject
    [ (k_shouldIntervene, JSBool false);
      (k_intervention,
        JSObject [ (k_type, JSString t_none);
                   (k_message, JSString []);
                   (k_timestamp, JSNumber (num_of_N now)) ]);
      (k_reasoning,
        JSString (js "Failed to make decision, defaulting to no intervention"));
      (k_confidence, JSNumber (num_of_N 0)) ].

(** ** parseAgentDecision

    The body of the [try] block, then the [catch] that turns every
    exception into the default decision.  [now] is what [Date.now()]
    returns if the default decision is built. *)
Definition parseAgentDecision_try (response : jsstring) : result JSValue :=
  jsonMatch ← match match_braces response with
              | Some m => Ok m
              | None => Throw (Error "No JSON found in response")
              end;
  decision ← match JSON_parse jsonMatch with
             | Some v => Ok v
             | None => Throw SyntaxError
             end;
  shouldIntervene ← get decision k_shouldIntervene;
  invalid ←
    (if negb (is_boolean shouldIntervene) then Ok true
     else
       intervention ← get decision k_intervention;
       if negb (truthy intervention) then Ok true
       else
         reasoning ← get decision k_reasoning;
         Ok (negb (truthy reasoning)));
  if invalid : bool then Throw (Error "Invalid decision structure")
  else Ok decision.

Definition parseAgentDecision (now : N) (response : jsstring) : result JSValue :=
  try_catch (parseAgentDecision_try response)
            (fun _ => Ok (getDefaultDecision now)).

(** ** addToHistory *)
Definition addToHistory (intervention : JSValue) : M unit :=
  fun h =>
    let h1 := h ++ [intervention] in                   (* push *)
    (Ok tt, if Nat.ltb maxHistorySize (length h1) then tail h1   (* shift *)
            else h1).

(** ** decideIntervention

    The reasoning backend is outside the program: a call of
    [this.agent.runTask] and the draining of its event stream either
    complete with the events received, or fail at some point.  The prompt
    built from the context only feeds the backend; building it is the
    first step inside the [try], and an exception there ends the call as
    a failure of the backend does. *)
Inductive TaskEvent :=
| TextEvent (content : jsstring)
| OtherEvent.

Inductive BackendRun :=
| Completed (events : list TaskEvent)
| Failed (received : list TaskEvent) (e : exn).

(** [responseText += event.content] over the text events *)
Definition responseText (events : list TaskEvent) : jsstring :=
  fold_left (fun text ev => match ev with
                            | TextEvent c => text ++ c
                            | OtherEvent => text
                            end) events [].

Definition drain (run : BackendRun) : result jsstring :=
  match run with
  | Completed events => Ok (responseText events)
  | Failed _ e => Throw e
  end.

Definition decideIntervention (now : N) (run : BackendRun) : M JSValue :=
  try_catchM
    (text ← lift (drain run);
     decision ← lift (parseAgentDecision now text);
     shouldIntervene ← lift (get decision k_shouldIntervene);
     _ ← (if truthy shouldIntervene
          then intervention ← lift (get decision k_intervention);
               addToHistory intervention
          else retM tt);
     retM decision)
    (fun _ => retM (getDefaultDecision now)).

(** ** recordInterventionEffectiveness *)
Definition recordInterventionEffectiveness (wasEffective : bool) : M unit :=
  fun h =>
    if Nat.ltb 0 (length h) then
      match h !! (length h - 1)%nat with
      | Some lastIntervention =>
          match set lastIntervention k_wasEffective (JSBool wasEffective) with
          | Ok updated => (Ok tt, <[(length h - 1)%nat := updated]> h)
          | Throw e => (Throw e, h)
          end
      | None => (Ok tt, h)
      end
    else (Ok tt, h).

(** [getInterventionHistory] returns a copy of the list. *)
Definition getInterventionHistory : M History := fun h => (Ok h, h).

(** ** analyzeProductivityPatterns

    With fewer than three records it answers at once.  Otherwise it runs
    the backend on a prompt that holds the history and returns the text
    received; nothing catches a failure of the backend here. *)
Definition analyzeProductivityPatterns (run : BackendRun) : M jsstring :=
  fun h =>
    if Nat.ltb (length h) 3
    then (Ok (js "Not enough data yet to analyze patterns."), h)
    else (drain run, h).

End ProductivityAgent.

(* ===================================================================== *)
(** * The behavioural memory: class MemorySystem *)
(* ===================================================================== *)

Module MemorySystem.

(** ** The declared types

    Counters and timestamps are JavaScript numbers that hold integers;
    they are exact below 2^53, far beyond what a run reaches, and are
    modelled as naturals.  A histogram [Record<number, number>] maps an
    hour to a count.  The effectiveness rate is a double. *)
Record ProductivitySession := mkSession {
  startTime : N;
  endTime : option N;
  wasProductive : bool;
  interventionsCount : N;
  activitySummary : jsstring
}.

Record UserProfile := mkProfile {
  productiveHoursMap : gmap N N;
  unproductiveHoursMap : gmap N N;
  interventionEffectivenessRate : float;
  totalSessions : N;
  productiveSessions : N;
  totalInterventions : N;
  lastUpdated : N
}.

(** The fields of a [MemorySystem] object. *)
Record Memory := mkMemory {
  sessions : list ProductivitySession;
  currentSession : option ProductivitySession;
  userProfile : UserProfile
}.

(** The object and the file [./procrastination_memory.json]; [None] is a
    file that cannot be read. *)
Record World := mkWorld {
  mem : Memory;
  disk : option jsstring
}.

(** How a method call ends.  [Untyped]: the call completed, but stored in a
    field a value that its declared type does not have (a document that
    parses but is not of the persisted shape); the embedding does not
    follow such a run further. *)
Inductive Outcome :=
| Returns (w : World)
| Throws (e : exn) (w : World)
| Untyped.

(** The state a call leaves behind, also when it threw. *)
Definition after (o : Outcome) (w : World) : World :=
  match o with
  | Returns w' | Throws _ w' => w'
  | Untyped => w
  end.

(** ** constructor *)
Definition neutralProfile (now : N) : UserProfile :=
  mkProfile ∅ ∅ 0.5%float 0 0 0 now.

Definition constructor (now : N) : Memory :=
  mkMemory [] None (neutralProfile now).

(** ** The persisted document *)

Definition k_sessions : jsstring := js "sessions".
Definition k_userProfile : jsstring := js "userProfile".
Definition k_startTime : jsstring := js "startTime".
Definition k_endTime : jsstring := js "endTime".
Definition k_wasProductive : jsstring := js "wasProductive".
Definition k_interventionsCount : jsstring := js "interventionsCount".
Definition k_activitySummary : jsstring := js "activitySummary".
Definition k_productiveHoursMap : jsstring := js "productiveHoursMap".
Definition k_unproductiveHoursMap : jsstring := js "unproductiveHoursMap".
Definition k_interventionEffectivenessRate : jsstring :=
  js "interventionEffectivenessRate".
Definition k_totalSessions : jsstring := js "totalSessions".
Definition k_productiveSessions : jsstring := js "productiveSessions".
Definition k_totalInterventions : jsstring := js "totalInterventions".
Definition k_lastUpdated : jsstring := js "lastUpdated".

Definition key_le : relation (N * N) := fun a b => a.1 <= b.1.
#[global] Instance key_le_dec : RelDecision key_le :=
  fun a b => decide (a.1 <= b.1).

(** [Object.entries] of a histogram: its keys are array indices, which
    JavaScript enumerates in ascending numeric order. *)
Definition Object_entries (m : gmap N N) : list (N * N) :=
  merge_sort key_le (map_to_list m).

(** The property name of an hour: [String(hour)]. *)
Definition hour_key (h : N) : jsstring := Number_toString (num_of_N h).

(** The session object, with its properties in the order the code creates
    them: [startSession] builds the first four, [endSession] adds
    [endTime]. *)
Definition json_of_session (s : ProductivitySession) : JSValue :=
  JSObject
    ([ (k_startTime, JSNumber (num_of_N (startTime s)));
       (k_wasProductive, JSBool (wasProductive s));
       (k_interventionsCount, JSNumber (num_of_N (interventionsCount s)));
       (k_activitySummary, JSString (activitySummary s)) ] ++
     match endTime s with
     | Some t => [ (k_endTime, JSNumber (num_of_N t)) ]
     | None => []
     end).

Definition json_of_histogram (m : gmap N N) : JSValue :=
  JSObject (map (fun hc => (hour_key hc.1, JSNumber (num_of_N hc.2)))
                (Object_entries m)).

(** A double as a JSON value; NaN and the infinities are written [null]. *)
Definition json_of_double (x : float) : JSValue :=
  match Number_digits x with
  | Some d => JSNumber d
  | None => JSNull
  end.

Definition json_of_profile (p : UserProfile) : JSValue :=
  JSObject
    [ (k_productiveHoursMap, json_of_histogram (productiveHoursMap p));
      (k_unproductiveHoursMap, json_of_histogram (unproductiveHoursMap p));
      (k_interventionEffectivenessRate,
        json_of_double (interventionEffectivenessRate p));
      (k_totalSessions, JSNumber (num_of_N (totalSessions p)));
      (k_productiveSessions, JSNumber (num_of_N (productiveSessions p)));
      (k_totalInterventions, JSNumber (num_of_N (totalInterventions p)));
      (k_lastUpdated, JSNumber (num_of_N (lastUpdated p))) ].

(** [{ sessions: this.sessions, userProfile: this.userProfile }] *)
Definition document (m : Memory) : JSValue :=
  JSObject
    [ (k_sessions, JSArray (map json_of_session (sessions m)) []);
      (k_userProfile, json_of_profile (userProfile m)) ].

(** ** Reading a parsed document at the declared types *)

(** A number that holds a natural below 2^53. *)
Definition as_count (v : JSValue) : option N :=
  match v with
  | JSNumber (JsNum neg m e) =>
      let value :=
        if (0 <=? e)%Z then Some (m * 10 ^ Z.to_N e)
        else if m mod 10 ^ Z.to_N (- e) =? 0
             then Some (m / 10 ^ Z.to_N (- e)) else None in
      match value with
      | Some n =>
          if (negb neg || (n =? 0)) && (n <? 2 ^ 53) then Some n else None
      | None => None
      end
  | _ => None
  end.

Definition as_double (v : JSValue) : option float :=
  match v with
  | JSNumber n => Some (Number_value n)
  | _ => None
  end.

(** The hour a property name denotes: a digit string without leading
    zero. *)
Definition as_hour (k : jsstring) : option N :=
  match span_digits k with
  | (d :: ds, []) =>
      if (d =? 0) && (match ds with [] => false | _ => true end) then None
      else if forallb is_digit k then Some (digits_value (d :: ds)) else None
  | _ => None
  end.

Fixpoint as_entries (ps : list (jsstring * JSValue)) : option (list (N * N)) :=
  match ps with
  | [] => Some []
  | (k, v) :: ps' =>
      match as_hour k, as_count v, as_entries ps' with
      | Some h, Some c, Some l => Some ((h, c) :: l)
      | _, _, _ => None
      end
  end.

Definition as_histogram (v : JSValue) : option (gmap N N) :=
  match v with
  | JSObject ps =>
      match as_entries ps with
      | Some l => Some (list_to_map l)
      | None => None
      end
  | _ => None
  end.

Definition as_session (v : JSValue) : option ProductivitySession :=
  match v with
  | JSObject [ (k1, v1); (k2, JSBool b); (k3, v3); (k4, JSString str);
               (k5, v5) ] =>
      if decide ([k1; k2; k3; k4; k5] =
                 [k_startTime; k_wasProductive; k_interventionsCount;
                  k_activitySummary; k_endTime])
      then match as_count v1, as_count v3, as_count v5 with
           | Some t, Some c, Some t' => Some (mkSession t (Some t') b c str)
           | _, _, _ => None
           end
      else None
  | JSObject [ (k1, v1); (k2, JSBool b); (k3, v3); (k4, JSString str) ] =>
      if decide ([k1; k2; k3; k4] =
                 [k_startTime; k_wasProductive; k_interventionsCount;
                  k_activitySummary])
      then match as_count v1, as_count v3 with
           | Some t, Some c => Some (mkSession t None b c str)
           | _, _ => None
           end
      else None
  | _ => None
  end.

Fixpoint as_session_list (vs : list JSValue) : option (list ProductivitySession) :=
  match vs with
  | [] => Some []
  | v :: vs' =>
      match as_session v, as_session_list vs' with
      | Some x, Some l => Some (x :: l)
      | _, _ => None
      end
  end.

Definition as_sessions (v : JSValue) : option (list ProductivitySession) :=
  match v with
  | JSArray elems [] => as_session_list elems
  | _ => None
  end.

Definition as_profile (v : JSValue) : option UserProfile :=
  match v with
  | JSObject [ (k1, v1); (k2, v2); (k3, v3); (k4, v4); (k5, v5); (k6, v6);
               (k7, v7) ] =>
      if decide ([k1; k2; k3; k4; k5; k6; k7] =
                 [k_productiveHoursMap; k_unproductiveHoursMap;
                  k_interventionEffectivenessRate; k_totalSessions;
                  k_productiveSessions; k_totalInterventions; k_lastUpdated])
      then match as_histogram v1, as_histogram v2, as_double v3,
                 as_count v4, as_count v5, as_count v6, as_count v7 with
           | Some pm, Some um, Some r, Some ts, Some ps, Some ti, Some lu =>
               Some (mkProfile pm um r ts ps ti lu)
           | _, _, _, _, _, _, _ => None
           end
      else None
  | _ => None
  end.

(** ** load

    The body of the [try] block, then the [catch] that only logs.  The two
    assignments take [memory.sessions || []] and
    [memory.userProfile || this.userProfile]. *)
Definition load_try (w : World) : result (JSValue * JSValue) :=
  data ← match disk w with
         | Some text => Ok text
         | None => Throw IOError
         end;
  memory ← match JSON_parse data with
           | Some v => Ok v
           | None => Throw SyntaxError
           end;
  stored_sessions ← get memory k_sessions;
  stored_profile ← get memory k_userProfile;
  Ok (stored_sessions, stored_profile).

Definition load (w : World) : Outcome :=
  match load_try w with
  | Throw _ => Returns w
  | Ok (stored_sessions, stored_profile) =>
      let new_sessions :=
        if truthy stored_sessions then as_sessions stored_sessions
        else Some [] in
      let new_profile :=
        if truthy stored_profile then as_profile stored_profile
        else Some (userProfile (mem w)) in
      match new_sessions, new_profile with
      | Some ss, Some p =>
          Returns (mkWorld (mkMemory ss (currentSession (mem w)) p) (disk w))
      | _, _ => Untyped
      end
  end.

(** ** save

    [write_ok] tells whether [Deno.writeTextFile] succeeds; when it does
    not, the error is logged and thrown again.  The file is written in
    place, without a temporary file.  The failure followed here is the
    one met before anything is written (the file cannot be opened for
    writing), which leaves the file as it was; what a write that fails
    later leaves of the file is not determined by the program. *)
Definition save (write_ok : bool) (w : World) : Outcome :=
  match JSON_stringify (document (mem w)) with
  | Some text =>
      if write_ok then Returns (mkWorld (mem w) (Some text))
      else Throws IOError w
  | None => Throws TypeError w
  end.

(** ** startSession *)
Definition startSession (now : N) (write_ok : bool) (w : World) : Outcome :=
  let m := mem w in
  save write_ok
       (mkWorld (mkMemory (sessions m)
                          (Some (mkSession now None true 0 []))
                          (userProfile m))
                (disk w)).

Section Host.

(** [new Date(t).getHours()]: the hour of the instant [t] in the time zone
    of the host. *)
Variable getHours : N -> N.

(** [(map[hour] || 0) + 1] *)
Definition bump (hour : N) (m : gmap N N) : gmap N N :=
  <[hour := default 0 (m !! hour) + 1]> m.

(** ** updateUserProfile; [now] is the [Date.now()] of [lastUpdated]. *)
Definition updateUserProfile (session : ProductivitySession) (now : N)
    (p : UserProfile) : UserProfile :=
  let hour := getHours (startTime session) in
  let p1 :=
    if wasProductive session then
      mkProfile (bump hour (productiveHoursMap p)) (unproductiveHoursMap p)
                (interventionEffectivenessRate p) (totalSessions p)
                (productiveSessions p + 1) (totalInterventions p)
                (lastUpdated p)
    else
      mkProfile (productiveHoursMap p) (bump hour (unproductiveHoursMap p))
                (interventionEffectivenessRate p) (totalSessions p)
                (productiveSessions p) (totalInterventions p)
                (lastUpdated p) in
  mkProfile (productiveHoursMap p1) (unproductiveHoursMap p1)
            (interventionEffectivenessRate p1) (totalSessions p1 + 1)
            (productiveSessions p1) (totalInterventions p1) now.

(** [list.slice(-100)] *)
Definition last_100 {A} (l : list A) : list A := drop (length l - 100) l.

(** ** endSession; [endNow] and [updNow] are its two readings of the
    clock. *)
Definition endSession (endNow updNow : N) (write_ok : bool)
    (productive : bool) (summary : jsstring) (w : World) : Outcome :=
  let m := mem w in
  match currentSession m with
  | None => Returns w
  | Some cur =>
      let closed :=
        mkSession (startTime cur) (Some endNow) productive
                  (interventionsCount cur) summary in
      let pushed := sessions m ++ [closed] in
      let profile := updateUserProfile closed updNow (userProfile m) in
      let kept := if Nat.ltb 100 (length pushed) then last_100 pushed
                  else pushed in
      save write_ok (mkWorld (mkMemory kept None profile) (disk w))
  end.

End Host.

(** ** recordIntervention *)
Definition recordIntervention (write_ok : bool) (w : World) : Outcome :=
  let m := mem w in
  match currentSession m with
  | Some cur =>
      let cur' :=
        mkSession (startTime cur) (endTime cur) (wasProductive cur)
                  (interventionsCount cur + 1) (activitySummary cur) in
      let p := userProfile m in
      let p' :=
        mkProfile (productiveHoursMap p) (unproductiveHoursMap p)
                  (interventionEffectivenessRate p) (totalSessions p)
                  (productiveSessions p) (totalInterventions p + 1)
                  (lastUpdated p) in
      save write_ok (mkWorld (mkMemory (sessions m) (Some cur') p') (disk w))
  | None => Returns w
  end.

(** ** getTopProductiveHours, getTopUnproductiveHours *)

(** [Array.prototype.sort] with the comparator [(a, b) => b - a] on the
    counts.  The sort is stable, so its result is determined: the entries
    by descending count, entries of equal count in their order in the
    input.  Inserting from the right, each entry before the first one
    that it does not have to follow, computes it. *)
Fixpoint insert_desc (x : N * N) (l : list (N * N)) : list (N * N) :=
  match l with
  | [] => [x]
  | y :: l' => if y.2 <=? x.2 then x :: y :: l' else y :: insert_desc x l'
  end.

Definition sort_desc (l : list (N * N)) : list (N * N) :=
  foldr insert_desc [] l.

(** [list.slice(0, n)]: a negative [n] counts from the end. *)
Definition slice_0 {A} (n : Z) (l : list A) : list A :=
  if (n <? 0)%Z then take (length l - Z.to_nat (- n)) l
  else take (Z.to_nat n) l.

(** [parseInt] of the property name of an hour gives the hour back. *)
Definition topHours (n : Z) (m : gmap N N) : list N :=
  (slice_0 n (sort_desc (Object_entries m))).*1.

Definition getTopProductiveHours (n : Z) (m : Memory) : list N :=
  topHours n (productiveHoursMap (userProfile m)).

Definition getTopUnproductiveHours (n : Z) (m : Memory) : list N :=
  topHours n (unproductiveHoursMap (userProfile m)).

(** ** updateInterventionEffectiveness *)
Definition alpha : float := 0x1.999999999999ap-3%float.   (* 0.2 *)

Definition ema (wasEffective : bool) (rate : float) : float :=
  let newValue := if wasEffective then 1%float else 0%float in
  (alpha * newValue + (1 - alpha) * rate)%float.

Definition updateInterventionEffectiveness (wasEffective : bool) (m : Memory)
  : Memory :=
  let p := userProfile m in
  mkMemory (sessions m) (currentSession m)
    (mkProfile (productiveHoursMap p) (unproductiveHoursMap p)
               (ema wasEffective (interventionEffectivenessRate p))
               (totalSessions p) (productiveSessions p)
               (totalInterventions p) (lastUpdated p)).

(** ** getUserProfile: a copy of the profile object. *)
Definition getUserProfile (m : Memory) : UserProfile := userProfile m.

(** ** getRecentSessions

    [now] is its reading of the clock and [days] a whole number of days;
    the cutoff [Date.now() - days * 24 * 60 * 60 * 1000] may be negative. *)
Definition getRecentSessions (now : N) (days : Z) (m : Memory)
  : list ProductivitySession :=
  let cutoffTime := (Z.of_N now - days * 24 * 60 * 60 * 1000)%Z in
  filter (fun s => (cutoffTime < Z.of_N (startTime s))%Z) (sessions m).

End MemorySystem.


(* ===================================================================== *)
(** * The screen analyzer: class ScreenAnalyzer *)
(* ===================================================================== *)

Module ScreenAnalyzer.
Import JS.

Definition k_isProcrastinating : jsstring := js "isProcrastinating".
Definition k_confidence : jsstring := js "confidence".
Definition k_reason : jsstring := js "reason".
Definition k_suggestedAction : jsstring := js "suggestedAction".

(** The two analyses the class falls back on. *)
Definition analysisFailed : JSValue :=
  JSObject [ (k_isProcrastinating, JSBool false);
             (k_confidence, JSNumber (num_of_N 0));
             (k_reason, JSString (js "Analysis failed"));
             (k_suggestedAction, JSString (js "Continue working")) ].

Definition parseFailed : JSValue :=
  JSObject [ (k_isProcrastinating, JSBool false);
             (k_confidence, JSNumber (num_of_N 0));
             (k_reason, JSString (js "Failed to parse AI response"));
             (k_suggestedAction, JSString (js "Continue working")) ].

(** ** parseResponse: [JSON.parse] of the whole response, unchecked. *)
Definition parseResponse (response : jsstring) : result JSValue :=
  try_catch (match JSON_parse response with
             | Some v => Ok v
             | None => Throw SyntaxError
             end)
            (fun _ => Ok parseFailed).

(** ** analyzeCurrentActivity

    The host and the model are outside the program.  A call finds that
    the host is not Windows; or one of the screenshot command, the read of
    its file and the request to the model throws; or the model replies
    with a list of content blocks, of which the first is looked at. *)
Inductive ContentBlock :=
| TextBlock (text : jsstring)
| OtherBlock.

Inductive Capture :=
| NotWindows
| CaptureFailed (e : exn)
| Replied (content : list ContentBlock).

Definition analyzeCurrentActivity (c : Capture) : result JSValue :=
  try_catch
    (match c with
     | NotWindows =>
         Throw (Error "Screenshot analysis only supported on Windows")
     | CaptureFailed e => Throw e
     | Replied content =>
         response ← match content with
                    | [] => Throw TypeError          (* content[0].type *)
                    | TextBlock text :: _ => Ok text
                    | OtherBlock :: _ => Ok []
                    end;
         parseResponse response
     end)
    (fun _ => Ok analysisFailed).

End ScreenAnalyzer.

(* ===================================================================== *)
(** * The activity monitor: class ActivityMonitor *)
(* ===================================================================== *)

Module ActivityMonitor.

(** The fields the methods touch.  Times are readings of [Date.now()], in
    milliseconds. *)
Record State := mkState {
  lastActivityTime : N;
  isIdle : bool
}.

(** The two callbacks of the configuration; a handler returns the ones it
    calls, in order. *)
Inductive Callback :=
| onIdleDetected
| onActivityDetected.

Definition constructor (now : N) : State := mkState now false.

(** [Math.floor((Date.now() - this.lastActivityTime) / 1000)]: the
    quotient rounded down, also when the clock was set back. *)
Definition getIdleTimeSeconds (now : N) (s : State) : Z :=
  ((Z.of_N now - Z.of_N (lastActivityTime s)) / 1000)%Z.

Definition recordActivity (now : N) (s : State) : State * list Callback :=
  (mkState now false, if isIdle s then [onActivityDetected] else []).

(** The body of the timer of [startIdleCheck];
    [idleThresholdSeconds] is a whole number of seconds. *)
Definition idleCheck (idleThresholdSeconds : Z) (now : N) (s : State)
  : State * list Callback :=
  let idleSeconds := getIdleTimeSeconds now s in
  if (idleThresholdSeconds <=? idleSeconds)%Z && negb (isIdle s)
  then (mkState (lastActivityTime s) true, [onIdleDetected])
  else (s, []).

Definition isUserIdle (s : State) : bool := isIdle s.

End ActivityMonitor.

(* ===================================================================== *)
(** * The classic detector: class ProcrastinationDetector *)
(* ===================================================================== *)

Module ProcrastinationDetector.
Import JS ScreenAnalyzer.

Record State := mkState {
  activityMonitor : ActivityMonitor.State;
  alarmActive : bool
}.

(** How a handler ends: with the alarms it triggered, each with its
    reason; or by throwing. *)
Inductive Outcome :=
| Returns (s : State) (alarms : list JSValue)
| Throws (e : exn) (s : State).

(** [triggerAlarm] raises the flag, then logs the reason, sounds the
    alarm and shows the popup.  Its callers pass a reason that is a string
    ([handleIdleDetected]) or that a template literal has converted before
    ([checkScreen]), so the line that logs it does not throw. *)
Definition triggerAlarm (reason : JSValue) (s : State) : State * list JSValue :=
  (mkState (activityMonitor s) true, [reason]).

Definition dismissAlarm (s : State) : State :=
  mkState (activityMonitor s) false.

Definition handleIdleDetected (s : State) : State * list JSValue :=
  if alarmActive s then (s, [])
  else triggerAlarm (JSString (js "No activity detected - you are idle")) s.

Definition handleActivityDetected (s : State) : State :=
  if alarmActive s then dismissAlarm s else s.

(** [confidence > 60] *)
Definition exceeds_60 (confidence : JSValue) : result bool :=
  greater_than confidence 60%float.

(** ** checkScreen; [analyzer] tells whether [this.screenAnalyzer] is
    set.  The four lines that log the analysis read its fields and
    convert [confidence], [reason] and [suggestedAction] to strings; then
    comes the test [isProcrastinating && confidence > 60].  The analysis
    is what [JSON.parse] made of the reply, of any shape. *)
Definition checkScreen (analyzer : bool) (c : Capture) (s : State) : Outcome :=
  if negb analyzer then Returns s []
  else
    let decided :=
      analysis ← analyzeCurrentActivity c;
      isProcrastinating ← get analysis k_isProcrastinating;
      confidence ← get analysis k_confidence;
      _ ← ToString confidence;
      reason ← get analysis k_reason;
      _ ← ToString reason;
      suggestedAction ← get analysis k_suggestedAction;
      _ ← ToString suggestedAction;
      if truthy isProcrastinating then
        above ← exceeds_60 confidence;
        Ok (if above : bool then Some reason else None)
      else Ok None in
    match decided with
    | Throw e => Throws e s
    | Ok (Some reason) =>
        let (s', alarms) := triggerAlarm reason s in Returns s' alarms
    | Ok None => Returns s []
    end.

(** ** The detector at work

    What reaches the detector: the timer of the idle check fires, a key
    or the mouse is used, or a screen check completes. *)
Inductive Event :=
| Tick (now : N)
| Input (now : N)
| ScreenCheck (c : Capture).

Definition handle (idleThresholdSeconds : Z) (analyzer : bool) (ev : Event)
    (s : State) : Outcome :=
  match ev with
  | Tick now =>
      let (m, called) :=
        ActivityMonitor.idleCheck idleThresholdSeconds now (activityMonitor s) in
      let s1 := mkState m (alarmActive s) in
      match called with
      | [] => Returns s1 []
      | _ :: _ => let (s2, alarms) := handleIdleDetected s1 in Returns s2 alarms
      end
  | Input now =>
      let (m, called) := ActivityMonitor.recordActivity now (activityMonitor s) in
      let s1 := mkState m (alarmActive s) in
      match called with
      | [] => Returns s1 []
      | _ :: _ => Returns (handleActivityDetected s1) []
      end
  | ScreenCheck c => checkScreen analyzer c s
  end.

End ProcrastinationDetector.

(* ===================================================================== *)
(** * The agent-based detector: class AgentBasedDetector *)
(* ===================================================================== *)

Module AgentBasedDetector.
Import JS ProductivityAgent MemorySystem.

(** The fields the handlers below touch: the history of the agent, the
    memory system and its file when memory is enabled, and the two fields
    of the detector itself. *)
Record State := mkState {
  interventionHistory : list JSValue;
  memorySystem : option World;
  alarmActive : bool;
  lastInterventionTime : N
}.

(** ** getRequiredEnv; [value] is what [Deno.env.get(name)] returns. *)
Definition getRequiredEnv (name : string) (value : option jsstring)
  : result jsstring :=
  match value with
  | Some (c :: v) => Ok (c :: v)
  | Some [] | None =>
      Throw (Error ("Environment variable " ++ name ++ " is not set"))
  end.

(** ** initialize, as far as the memory goes

    [key] is the value of the environment variable, [agentReady] how the
    set-up of the agent ends, [file] the memory file found and [write_ok]
    whether it can be written.  An exception is logged and thrown again;
    the memory system stays set if it was created before. *)
Inductive Initialized :=
| Ready (memory : option World)
| Fails (e : exn) (memory : option World)
| UntypedMemory.

Definition initialize (key : option jsstring) (agentReady : result unit)
    (enableMemory : bool) (constructNow startNow : N)
    (file : option jsstring) (write_ok : bool) : Initialized :=
  match (apiKey ← getRequiredEnv "ANTHROPIC_API_KEY" key; agentReady) with
  | Throw e => Fails e None
  | Ok _ =>
      if enableMemory then
        let w0 := mkWorld (constructor constructNow) file in
        match load w0 with
        | Returns w1 =>
            match startSession startNow write_ok w1 with
            | Returns w2 => Ready (Some w2)
            | Throws e w2 => Fails e (Some w2)
            | Untyped => UntypedMemory
            end
        | Throws e w1 => Fails e (Some w1)
        | Untyped => UntypedMemory
        end
      else Ready None
  end.

(** What an intervention shows to the user. *)
Inductive Alert :=
| StrongAlarm (message : JSValue)
| Notification (message : JSValue)
| GentleReminder (message : JSValue).

(** [v === "..."] *)
Definition is_string (t : jsstring) (v : JSValue) : bool :=
  match v with
  | JSString s => bool_decide (s = t)
  | _ => false
  end.

(** ** executeIntervention; [now] is its reading of the clock.

    The flag and the time are set first.  Each of [triggerStrongAlarm],
    [triggerNotification] and [triggerGentleReminder] logs the message in
    a template literal, which converts it to a string and throws when it
    cannot; the alert is shown after that. *)
Definition executeIntervention (now : N) (intervention : JSValue) (s : State)
  : result (list Alert) * State :=
  let s1 := mkState (interventionHistory s) (memorySystem s) true now in
  (type ← get intervention k_type;
   if is_string t_alarm type then
     message ← get intervention k_message;
     _ ← ToString message; Ok [StrongAlarm message]
   else if is_string t_notification type then
     message ← get intervention k_message;
     _ ← ToString message; Ok [Notification message]
   else if is_string t_gentle_reminder type then
     message ← get intervention k_message;
     _ ← ToString message; Ok [GentleReminder message]
   else Ok [],
   s1).

(** ** runAgentCheck

    [decideNow] and [execNow] are the readings of the clock of
    [decideIntervention] and of [executeIntervention], [run] what the
    backend does and [write_ok] whether the write of the memory file
    succeeds.  The context only feeds the prompt.  The decision is logged
    line by line, its type, confidence and reasoning converted to strings
    by template literals, before it is acted on.  Every exception is
    caught and logged; the steps after the reply of the backend are taken
    without another handler in between. *)
Definition runAgentCheck (decideNow execNow : N) (run : BackendRun)
    (write_ok : bool) (s : State) : State * list Alert :=
  let (r, h) := decideIntervention decideNow run (interventionHistory s) in
  let s1 := mkState h (memorySystem s) (alarmActive s) (lastInterventionTime s) in
  let reads :=
    decision ← r;
    shouldIntervene ← get decision k_shouldIntervene;
    intervention ← get decision k_intervention;
    type ← get intervention k_type;
    _ ← ToString type;
    confidence ← get decision k_confidence;
    _ ← ToString confidence;
    reasoning ← get decision k_reasoning;
    _ ← ToString reasoning;
    Ok (shouldIntervene, intervention, type) in
  match reads with
  | Throw _ => (s1, [])
  | Ok (shouldIntervene, intervention, type) =>
      if truthy shouldIntervene && negb (is_string t_none type) then
        let (shown, s2) := executeIntervention execNow intervention s1 in
        match shown with
        | Throw _ => (s2, [])
        | Ok alerts =>
            match memorySystem s2 with
            | Some w =>
                (mkState (interventionHistory s2)
                         (Some (after (recordIntervention write_ok w) w))
                         (alarmActive s2) (lastInterventionTime s2),
                 alerts)
            | None => (s2, alerts)
            end
        end
      else (s1, [])
  end.

(** ** handleIdleDetected only logs. *)
Definition handleIdleDetected (s : State) : State := s.

(** ** handleActivityDetected; [now] is its reading of the clock.

    [Math.floor((Date.now() - this.lastInterventionTime) / 1000) < 60]
    tells whether the intervention was effective.  When the agent throws
    while recording it, the memory is not updated and the alarm stays
    active. *)
Definition handleActivityDetected (now : N) (s : State) : result unit * State :=
  if alarmActive s then
    let timeToResume :=
      ((Z.of_N now - Z.of_N (lastInterventionTime s)) / 1000)%Z in
    let wasEffective := (timeToResume <? 60)%Z in
    match recordInterventionEffectiveness wasEffective (interventionHistory s) with
    | (Throw e, h) =>
        (Throw e, mkState h (memorySystem s) true (lastInterventionTime s))
    | (Ok _, h) =>
        let memory :=
          match memorySystem s with
          | Some w =>
              Some (mkWorld (updateInterventionEffectiveness wasEffective (mem w))
                            (disk w))
          | None => None
          end in
        (Ok tt, mkState h memory false (lastInterventionTime s))
    end
  else (Ok tt, s).

(** ** stop, as far as the memory goes: the session is ended as a
    productive one, then the agent is asked for its analysis.  A failed
    write of the memory file, or a failure of the backend, is thrown to
    the caller. *)
Definition stop (getHours : N -> N) (endNow updNow : N) (write_ok : bool)
    (run : BackendRun) (s : State) : result jsstring * State :=
  let ended :=
    match memorySystem s with
    | Some w =>
        Some (endSession getHours endNow updNow write_ok true
                         (js "Session ended by user") w, w)
    | None => None
    end in
  let s1 :=
    mkState (interventionHistory s)
            (match ended with
             | Some (o, w) => Some (after o w)
             | None => None
             end)
            (alarmActive s) (lastInterventionTime s) in
  match ended with
  | Some (Throws e _, _) => (Throw e, s1)
  | _ =>
      let (analysis, h) := analyzeProductivityPatterns run (interventionHistory s1) in
      (analysis,
       mkState h (memorySystem s1) (alarmActive s1) (lastInterventionTime s1))
  end.

End AgentBasedDetector.
Import ProductivityAgent.

(* ===================================================================== *)
(** * What the specification says of the decision engine *)
(* ===================================================================== *)

(** The structure [parseAgentDecision] validates: [shouldIntervene] is a
    boolean, [intervention] and [reasoning] are truthy. *)
Definition valid_structure (v : JSValue) : bool :=
  match get v k_shouldIntervene, get v k_intervention, get v k_reasoning with
  | Ok a, Ok b, Ok c => is_boolean a && truthy b && truthy c
  | _, _, _ => false
  end.

(** The decision payload extracted from a response: what the text between
    the first opening and the last closing brace parses to. *)
Definition extracted_payload (response : jsstring) : option JSValue :=
  match match_braces response with
  | Some m => JSON_parse m
  | None => None
  end.

(** The response carries a well-formed decision payload. *)
Definition well_formed_response (response : jsstring) : bool :=
  match extracted_payload response with
  | Some v => valid_structure v
  | None => false
  end.

(** The backend gave no decision: the call failed, or no well-formed
    payload can be extracted from the text it produced. *)
Definition no_decision (run : BackendRun) : Prop :=
  match run with
  | Failed _ _ => True
  | Completed events => well_formed_response (responseText events) = false
  end.

(** The fields the specification requires of a decision payload:
    [shouldIntervene] a boolean, [intervention] an object with a [type]
    drawn from the four, [reasoning] a string that is not empty. *)
Definition required_fields (v : JSValue) : bool :=
  match v with
  | JSObject ps =>
      match lookup_prop k_shouldIntervene ps, lookup_prop k_intervention ps,
            lookup_prop k_reasoning ps with
      | Some (JSBool _), Some (JSObject i), Some (JSString (_ :: _)) =>
          match lookup_prop k_type i with
          | Some (JSString t) => bool_decide (t ∈ intervention_types)
          | _ => false
          end
      | _, _, _ => false
      end
  | _ => false
  end.

(** A payload with the required fields can be extracted from the
    response, however the extraction goes about it: some part of the text
    is the JSON of one. *)
Definition carries_required_payload (response : jsstring) : Prop :=
  exists before payload rest v,
    response = before ++ payload ++ rest /\
    JSON_parse payload = Some v /\ required_fields v = true.

(** The backend gave no decision, as the specification has it: the call
    failed, or no payload with the required fields can be extracted. *)
Definition no_required_payload (run : BackendRun) : Prop :=
  match run with
  | Failed _ _ => True
  | Completed events => ~ carries_required_payload (responseText events)
  end.

(** The safe default: not to intervene, with type "none" and confidence
    0. *)
Definition safe_default (d : JSValue) : Prop :=
  get d k_shouldIntervene = Ok (JSBool false) /\
  match get d k_intervention with
  | Ok i => get i k_type = Ok (JSString t_none)
  | Throw _ => False
  end /\
  get d k_confidence = Ok (JSNumber (num_of_N 0)).

(** The parts of a text: its prefixes, and the prefixes of every
    suffix. *)
Fixpoint prefixes {A} (l : list A) : list (list A) :=
  [] :: match l with
        | [] => []
        | a :: l' => map (cons a) (prefixes l')
        end.

Fixpoint segments {A} (l : list A) : list (list A) :=
  prefixes l ++ match l with
                | [] => []
                | _ :: l' => segments l'
                end.

(** The text is the JSON of a payload with the required fields. *)
Definition is_required_payload (text : jsstring) : bool :=
  match JSON_parse text with
  | Some v => required_fields v
  | None => false
  end.

(** Responses that pass the check of [parseAgentDecision] with an
    intervention that is a string, that has no type, and that has a type
    outside the four. *)
Definition intervention_as_string : jsstring :=
  jsq "{'shouldIntervene': true, 'intervention': 'alarm', 'reasoning': 'idle'}".

Definition intervention_without_type : jsstring :=
  jsq "{'shouldIntervene': true, 'intervention': {}, 'reasoning': 'idle'}".

Definition intervention_of_other_type : jsstring :=
  jsq "{'shouldIntervene': true, 'intervention': {'type': 'popup'}, 'reasoning': 'idle'}".

(** The decision a response leads to. *)
Definition decision_of (now : N) (response : jsstring) : JSValue :=
  match extracted_payload response with
  | Some v => if valid_structure v then v else getDefaultDecision now
  | None => getDefaultDecision now
  end.

(** [d.intervention.type], when the two reads succeed. *)
Definition intervention_type (d : JSValue) : option JSValue :=
  match get d k_intervention with
  | Ok i => match get i k_type with
            | Ok t => Some t
            | Throw _ => None
            end
  | Throw _ => None
  end.

(** The invariants the specification states of every decision. *)
Definition type_in_enum (d : JSValue) : Prop :=
  exists t, intervention_type d = Some (JSString t) /\ t ∈ intervention_types.

Definition reasoning_nonempty (d : JSValue) : Prop :=
  exists r, get d k_reasoning = Ok (JSString r) /\ r <> [].

Definition kind_invariant (d : JSValue) : Prop :=
  get d k_shouldIntervene = Ok (JSBool false) ->
  intervention_type d = Some (JSString t_none).

Definition decision_invariants (d : JSValue) : Prop :=
  type_in_enum d /\ reasoning_nonempty d /\ kind_invariant d.

(** What the validation gives of a decision taken from the response. *)
Definition validated (d : JSValue) : Prop :=
  (exists b, get d k_shouldIntervene = Ok (JSBool b)) /\
  (exists i, get d k_intervention = Ok i /\ truthy i = true) /\
  (exists r, get d k_reasoning = Ok r /\ truthy r = true /\
             forall str, r = JSString str -> str <> []).

(** A response that passes the validation although it marks an alarm as
    not to be issued. *)
Definition idle_but_alarm : jsstring :=
  jsq "{'shouldIntervene': false, 'intervention': {'type': 'alarm', 'message': 'Back to work', 'timestamp': 1700000000000}, 'reasoning': 'User is idle', 'confidence': 80}".

(** A response that passes the validation with a type outside the
    enumeration. *)
Definition unlisted_type : jsstring :=
  jsq "prose {'shouldIntervene': true, 'intervention': {'type': 'popup', 'message': 'Hi'}, 'reasoning': 'x'} prose".

(** The history after a series of calls of [decideIntervention], each with
    its reading of the clock and the run of the backend it met. *)
Fixpoint history_after (runs : list (N * BackendRun)) (h : History) : History :=
  match runs with
  | [] => h
  | (now, run) :: runs' => history_after runs' (decideIntervention now run h).2
  end.

(** The record a decision appends to the history: its [intervention], when
    it intervenes. *)
Definition appended_record (nr : N * BackendRun) : option JSValue :=
  match nr.2 with
  | Failed _ _ => None
  | Completed events =>
      let d := decision_of nr.1 (responseText events) in
      match get d k_shouldIntervene, get d k_intervention with
      | Ok s, Ok i => if truthy s then Some i else None
      | _, _ => None
      end
  end.

Definition appended_records (runs : list (N * BackendRun)) : list JSValue :=
  omap appended_record runs.

(** The last [n] elements of a list. *)
Definition last_n {A} (n : nat) (l : list A) : list A :=
  drop (length l - n) l.

(** An intervening decision with message number [i], as the backend
    phrases it. *)
Definition alarm_response (i : N) : jsstring :=
  jsq "Decision: {'shouldIntervene': true, 'intervention': {'type': 'alarm', 'message': 'm', 'timestamp': "
  ++ Number_toString (num_of_N i) ++ jsq "}, 'reasoning': 'idle', 'confidence': 90}".

Definition alarm_runs (n : nat) : list (N * BackendRun) :=
  map (fun i => (N.of_nat i, Completed [TextEvent (alarm_response (N.of_nat i))]))
      (seq 0 n).

(** A record carries an effectiveness score. *)
Definition scored (v : JSValue) : Prop :=
  exists x, get v k_wasEffective = Ok x /\ x <> JSUndefined.

(** A value that can carry properties: an object or an array. *)
Definition is_record (v : JSValue) : bool :=
  match v with
  | JSObject _ | JSArray _ _ => true
  | _ => false
  end.

(** [v'] is [v] up to the property [wasEffective]. *)
Definition same_but_wasEffective (v v' : JSValue) : Prop :=
  match v, v' with
  | JSObject ps, JSObject ps' =>
      forall k, k <> k_wasEffective -> lookup_prop k ps' = lookup_prop k ps
  | JSArray es ps, JSArray es' ps' =>
      es' = es /\
      forall k, k <> k_wasEffective -> lookup_prop k ps' = lookup_prop k ps
  | _, _ => v' = v
  end.

(** A call of [recordInterventionEffectiveness] touches nothing but the
    [wasEffective] of the last record. *)
Definition touches_last_score_only (b : bool) (h : History) : Prop :=
  forall r h',
    recordInterventionEffectiveness b h = (r, h') ->
    length h' = length h /\
    (forall i, (i + 1 < length h)%nat -> h' !! i = h !! i) /\
    (forall x, last h = Some x ->
       exists x', last h' = Some x' /\ same_but_wasEffective x x').

(** The three parts of the specification's statement. *)
Definition effectiveness_recorded_once : Prop :=
  forall b h,
    touches_last_score_only b h /\
    (h = [] -> recordInterventionEffectiveness b h = (Ok tt, [])) /\
    (forall x, last h = Some x -> scored x ->
       recordInterventionEffectiveness b h = (Ok tt, h)).

(** An alarm that has been scored as effective. *)
Definition scored_alarm : JSValue :=
  JSObject [ (k_type, JSString t_alarm);
             (k_message, JSString (js "Back to work"));
             (k_timestamp, JSNumber (num_of_N 1700000000000));
             (k_wasEffective, JSBool true) ].

(* ===================================================================== *)
(** * What is needed of JSON text *)
(* ===================================================================== *)

(** Text that may follow a number: it starts with nothing that would
    continue the number. *)
Definition delimited (rest : jsstring) : Prop :=
  match rest with
  | [] => True
  | c :: _ => is_digit c = false /\ c <> 46 /\ c <> 101 /\ c <> 69
  end.

(** Text that does not start with a digit. *)
Definition not_digit_head (rest : jsstring) : Prop :=
  match rest with
  | [] => True
  | c :: _ => is_digit c = false
  end.

(** A number that [JSON.parse] reads back from its [Number::toString]. *)
Definition number_prints (n : jsnum) : Prop :=
  parse_number (Number_toString n) = Some (n, []).

(** The values that [JSON.parse] reads back from [JSON.stringify]: no
    [undefined] inside, numbers that print, arrays without named
    properties, objects without a repeated key. *)
Fixpoint printable (v : JSValue) : Prop :=
  match v with
  | JSUndefined => False
  | JSNull | JSBool _ | JSString _ => True
  | JSNumber n => number_prints n
  | JSArray elems named =>
      named = [] /\
      (fix all (es : list JSValue) : Prop :=
         match es with
         | [] => True
         | e :: es' => printable e /\ all es'
         end) elems
  | JSObject props =>
      NoDup props.*1 /\
      (fix all (ps : list (jsstring * JSValue)) : Prop :=
         match ps with
         | [] => True
         | (_, x) :: ps' => printable x /\ all ps'
         end) props
  end.

(** The nesting of calls [parse_value] needs for a value. *)
Fixpoint cost (v : JSValue) : nat :=
  match v with
  | JSArray elems _ =>
      S ((fix sum (es : list JSValue) : nat :=
            match es with
            | [] => O
            | e :: es' => S (cost e + sum es')
            end) elems)
  | JSObject props =>
      S ((fix sum (ps : list (jsstring * JSValue)) : nat :=
            match ps with
            | [] => O
            | (_, x) :: ps' => S (cost x + sum ps')
            end) props)
  | _ => 1%nat
  end.

(** The lines of an array and of an object at nesting depth [depth]. *)
Definition items_of (depth : nat) (es : list JSValue) : list jsstring :=
  map (fun e => default (js "null") (serialize (S depth) e)) es.

Fixpoint members_of (depth : nat) (ps : list (jsstring * JSValue)) : list jsstring :=
  match ps with
  | [] => []
  | (k, x) :: ps' =>
      match serialize (S depth) x with
      | Some t => (quote k ++ [58; 32] ++ t) :: members_of depth ps'
      | None => members_of depth ps'
      end
  end.

Definition elems_cost (es : list JSValue) : nat :=
  foldr (fun e acc => S (cost e + acc)) O es.

Definition props_cost (ps : list (jsstring * JSValue)) : nat :=
  foldr (fun kx acc => S (cost kx.2 + acc)) O ps.

(** The first character of the text of a value. *)
Definition starts_value (text : jsstring) : Prop :=
  exists c t, text = c :: t /\ is_ws c = false /\ c <> 93 /\ c <> 125 /\ c <> 44.

(** [parse_value] reads the value back from its text, whatever follows
    it. *)
Definition reads_back (v : JSValue) : Prop :=
  forall depth text rest fuel,
    serialize depth v = Some text -> delimited rest -> (cost v <= fuel)%nat ->
    parse_value fuel (text ++ rest) = Some (v, rest).
Import MemorySystem.

(* ===================================================================== *)
(** * What the specification says of the behavioural memory *)
(* ===================================================================== *)

(** ** The effectiveness rate *)

Definition rate (m : Memory) : float :=
  interventionEffectivenessRate (userProfile m).

(** The memory after a series of effectiveness samples. *)
Definition feed (samples : list bool) (m : Memory) : Memory :=
  fold_left (fun m b => updateInterventionEffectiveness b m) samples m.

(** The step of the moving average as the specification writes it,
    [0.2 * (b ? 1 : 0) + 0.8 * r], evaluated in binary64. *)
Definition ema_step (b : bool) (r : float) : float :=
  (0x1.999999999999ap-3 * (if b then 1 else 0) + 0x1.999999999999ap-1 * r)%float.

(** The doubles nearest to 0.6 and to 0.48, which is what these decimals
    denote in a JavaScript test, and the doubles that JavaScript prints as
    0.6000000000000001 and 0.4800000000000001. *)
Definition six_tenths : float := 0x1.3333333333333p-1%float.
Definition forty_eight_hundredths : float := 0x1.eb851eb851eb8p-2%float.
Definition six_tenths_and_an_ulp : float := 0x1.3333333333334p-1%float.
Definition forty_eight_hundredths_and_two_ulps : float :=
  0x1.eb851eb851ebap-2%float.

(** ** Sessions *)

Inductive Call :=
| StartSession (now : N) (write_ok : bool)
| EndSession (endNow updNow : N) (write_ok productive : bool)
             (summary : jsstring).

Definition call (getHours : N -> N) (c : Call) (w : World) : Outcome :=
  match c with
  | StartSession now write_ok => startSession now write_ok w
  | EndSession endNow updNow write_ok productive summary =>
      endSession getHours endNow updNow write_ok productive summary w
  end.

(** The object and the file after a series of calls; a call that throws
    leaves them as they were when it threw. *)
Definition run_calls (getHours : N -> N) (calls : list Call) (w : World) : World :=
  fold_left (fun w c => after (call getHours c w) w) calls w.

(** The count of an hour in a histogram. *)
Definition count (m : gmap N N) (hour : N) : N := default 0 (m !! hour).

(** The histogram a session of the given productivity is counted in, and
    the other one. *)
Definition histogram (productive : bool) (p : UserProfile) : gmap N N :=
  if productive then productiveHoursMap p else unproductiveHoursMap p.

(** From profile [p] to [p'], the bucket of [hour] in the histogram of
    [productive] went up by one and no other bucket changed. *)
Definition one_bucket_up (productive : bool) (hour : N) (p p' : UserProfile)
  : Prop :=
  count (histogram productive p') hour = count (histogram productive p) hour + 1 /\
  (forall h, h <> hour ->
     histogram productive p' !! h = histogram productive p !! h) /\
  histogram (negb productive) p' = histogram (negb productive) p.

(** The hour of the host's clock in UTC. *)
Definition utcHours (t : N) : N := (t / 3600000) mod 24.

(** ** The most productive hours *)

(** [h1] ranks before [h2]: a greater count, or the same count and a lower
    hour. *)
Definition ranks_before (m : gmap N N) (h1 h2 : N) : Prop :=
  count m h2 < count m h1 \/ (count m h1 = count m h2 /\ h1 < h2).

Definition top_hours_ranked (n : Z) (m : gmap N N) (hours : list N) : Prop :=
  ((0 <= n)%Z -> length hours = Nat.min (Z.to_nat n) (size m)) /\
  StronglySorted (ranks_before m) hours /\
  (forall h, h ∈ hours -> is_Some (m !! h)).

(** ** Persistence *)

(** A file from which [load] gets no document. *)
Definition unreadable (file : option jsstring) : Prop :=
  match file with
  | None => True
  | Some text => JSON_parse text = None
  end.

(** The order of the sorted entries: by descending count, and by ascending
    hour among equal counts. *)
Definition entry_before (a b : N * N) : Prop :=
  b.2 < a.2 \/ (a.2 = b.2 /\ a.1 < b.1).

Definition key_lt : relation (N * N) := fun a b => a.1 < b.1.

(** A profile with ties: hours 9 and 14 with three sessions each, hour 11
    with five, hour 20 with one. *)
Definition tied_hours : gmap N N :=
  <[14 := 3]> (<[9 := 3]> (<[20 := 1]> (<[11 := 5]> ∅))).

(** An integer that a JavaScript number holds exactly. *)
Definition safe (n : N) : bool := n <? 2 ^ 53.

Definition safe_session (s : ProductivitySession) : bool :=
  safe (startTime s) && safe (interventionsCount s) &&
  match endTime s with
  | Some t => safe t
  | None => true
  end.

Definition safe_histogram (m : gmap N N) : bool :=
  forallb (fun hc => safe hc.1 && safe hc.2) (Object_entries m).

Definition safe_profile (p : UserProfile) : bool :=
  safe_histogram (productiveHoursMap p) &&
  safe_histogram (unproductiveHoursMap p) &&
  safe (totalSessions p) && safe (productiveSessions p) &&
  safe (totalInterventions p) && safe (lastUpdated p).

(** The counters, timestamps and hours of the state are integers that
    JavaScript numbers hold exactly. *)
Definition safe_integers (m : Memory) : bool :=
  forallb safe_session (sessions m) && safe_profile (userProfile m).

(** A double that survives being written and read: it is finite, so that
    [Number::toString] gives it digits, [JSON.parse] reads the text of
    those digits as the same decimal, and their value rounds to the double
    again.  Not every finite double is one: -0 is written as 0, and a
    multiple of ten such as 10 or 100 is written without the exponent
    that its shortest digits carry. *)
Definition survives_text (x : float) : Prop :=
  exists d, Number_digits x = Some d /\ number_prints d /\ Number_value d = x.

(** Every series of at most [n] samples. *)
Fixpoint sample_series (n : nat) : list (list bool) :=
  match n with
  | O => [[]]
  | S n' =>
      [] :: map (cons true) (sample_series n')
         ++ map (cons false) (sample_series n')
  end.

(** The state of the run [StartSession; EndSession (unproductive);
    StartSession; an effective intervention; EndSession (productive)]. *)
Definition two_sessions : Memory :=
  let w0 := mkWorld (constructor 1700000000000) None in
  let w1 := after (startSession 1700000000000 true w0) w0 in
  let w2 := after (recordIntervention true w1) w1 in
  let w3 := after (endSession utcHours 1700000100000 1700000100001 true false
                              (jsq "Session 'one'") w2) w2 in
  let w4 := after (startSession 1700000200000 true w3) w3 in
  let w5 := mkWorld (updateInterventionEffectiveness true (mem w4)) (disk w4) in
  mem (after (endSession utcHours 1700000300000 1700000300001 true true
                         (js "two") w5) w5).
(* ===================================================================== *)
(** * Further properties of the behavioural memory: what they speak of *)
(* ===================================================================== *)

(** The calls that change a [MemorySystem] after it is set up. *)
Inductive Op :=
| OpStartSession (now : N) (write_ok : bool)
| OpEndSession (endNow updNow : N) (write_ok productive : bool)
               (summary : jsstring)
| OpRecordIntervention (write_ok : bool)
| OpUpdateEffectiveness (wasEffective : bool).

(** The object and the file after a call; a call that throws leaves them
    as they were when it threw. *)
Definition op (getHours : N -> N) (o : Op) (w : World) : World :=
  match o with
  | OpStartSession now write_ok => after (startSession now write_ok w) w
  | OpEndSession endNow updNow write_ok productive summary =>
      after (endSession getHours endNow updNow write_ok productive summary w) w
  | OpRecordIntervention write_ok => after (recordIntervention write_ok w) w
  | OpUpdateEffectiveness b =>
      mkWorld (updateInterventionEffectiveness b (mem w)) (disk w)
  end.

Definition run_ops (getHours : N -> N) (ops : list Op) (w : World) : World :=
  fold_left (fun w o => op getHours o w) ops w.

(** The sessions a histogram counts. *)
Definition total_count (m : gmap N N) : N :=
  map_fold (fun _ c acc => c + acc) 0 m.

(** The histograms account for every session counted: the productive
    ones in one, the others in the other. *)
Definition histograms_account (p : UserProfile) : Prop :=
  total_count (productiveHoursMap p) = productiveSessions p /\
  total_count (unproductiveHoursMap p) + productiveSessions p = totalSessions p.

(** The interventions recorded in a list of sessions, and in the open
    session. *)
Definition interventions_in (ss : list ProductivitySession) : N :=
  foldr (fun s acc => interventionsCount s + acc) 0 ss.

Definition open_interventions (m : Memory) : N :=
  match currentSession m with
  | Some cur => interventionsCount cur
  | None => 0
  end.

(** The sessions kept are no more than the sessions counted, and their
    interventions no more than the interventions counted. *)
Definition counters_cover_sessions (m : Memory) : Prop :=
  N.of_nat (length (sessions m)) <= totalSessions (userProfile m) /\
  interventions_in (sessions m) + open_interventions m
    <= totalInterventions (userProfile m).

(** A store as [initialize] leaves it when there was no file: fresh, with
    a session open. *)
Definition fresh_store (now : N) : World :=
  after (startSession now true (mkWorld (constructor now) None))
        (mkWorld (constructor now) None).

(** A call that writes the file: [startSession] always saves,
    [endSession] and [recordIntervention] when a session is open, and
    [updateInterventionEffectiveness] never; [write_ok] tells whether the
    write succeeds. *)
Definition saves (o : Op) (w : World) : bool :=
  let open := match currentSession (mem w) with
              | Some _ => true
              | None => false
              end in
  match o with
  | OpStartSession _ write_ok => write_ok
  | OpEndSession _ _ write_ok _ _ => write_ok && open
  | OpRecordIntervention write_ok => write_ok && open
  | OpUpdateEffectiveness _ => false
  end.
(* ===================================================================== *)
(** * Further properties of the decision engine: what they speak of *)
(* ===================================================================== *)

(** The text the regular expression matches in [response]: it starts at
    an opening brace with none before it, and ends at a closing brace
    with none after it. *)
Definition braces_span (response m : jsstring) : Prop :=
  exists pre mid suf,
    response = pre ++ m ++ suf /\
    m = 123 :: mid ++ [125] /\
    (123 ∉ pre) /\ (125 ∉ suf).

(** The contents of the text events, in order. *)
Definition text_chunks (events : list TaskEvent) : list jsstring :=
  omap (fun ev => match ev with
                  | TextEvent c => Some c
                  | OtherEvent => None
                  end) events.

(** The calls that touch the history of an agent. *)
Inductive AgentOp :=
| Decide (now : N) (run : BackendRun)
| Score (wasEffective : bool).

(** The history after a call; a call that throws leaves the history as it
    was when it threw. *)
Definition agent_op (o : AgentOp) (h : History) : History :=
  match o with
  | Decide now run => (decideIntervention now run h).2
  | Score b => (recordInterventionEffectiveness b h).2
  end.

Definition agent_ops (ops : list AgentOp) (h : History) : History :=
  fold_left (fun h o => agent_op o h) ops h.

(** A value that is not an object: assigning a property to it throws. *)
Definition is_primitive (v : JSValue) : bool := negb (is_record v).

(** A response whose [intervention] is a string. *)
Definition string_intervention : jsstring :=
  jsq "{'shouldIntervene': true, 'intervention': 'alarm', 'reasoning': 'idle'}".

(** The record that the response [alarm_response i] puts in the history. *)
Definition alarm_record (i : N) : JSValue :=
  JSObject [ (k_type, JSString t_alarm);
             (k_message, JSString (js "m"));
             (k_timestamp, JSNumber (num_of_N i)) ].

(** A value that is not a number: its text cannot go on into the text
    that follows it. *)
Definition not_a_number (v : JSValue) : Prop :=
  match v with JSNumber _ => False | _ => True end.
(* ===================================================================== *)
(** * The analyzer, the monitor and the detectors: what is said of them *)
(* ===================================================================== *)

(** ** The screen analyzer *)

(** The model replied with a text that [JSON.parse] accepts. *)
Definition parsed_reply (c : ScreenAnalyzer.Capture) : option JSValue :=
  match c with
  | ScreenAnalyzer.Replied (ScreenAnalyzer.TextBlock text :: _) => JSON_parse text
  | _ => None
  end.

(** The analysis a call ends with. *)
Definition analysis_after (c : ScreenAnalyzer.Capture) : JSValue :=
  match c with
  | ScreenAnalyzer.NotWindows | ScreenAnalyzer.CaptureFailed _
  | ScreenAnalyzer.Replied [] => ScreenAnalyzer.analysisFailed
  | ScreenAnalyzer.Replied (ScreenAnalyzer.TextBlock text :: _) =>
      match JSON_parse text with
      | Some v => v
      | None => ScreenAnalyzer.parseFailed
      end
  | ScreenAnalyzer.Replied (ScreenAnalyzer.OtherBlock :: _) =>
      ScreenAnalyzer.parseFailed
  end.

(** An analysis that reports no procrastination, with confidence 0. *)
Definition reports_nothing (a : JSValue) : Prop :=
  get a ScreenAnalyzer.k_isProcrastinating = Ok (JSBool false) /\
  get a ScreenAnalyzer.k_confidence = Ok (JSNumber (num_of_N 0)).

(** A value that a template literal can convert to a string. *)
Definition converts (v : JSValue) : bool :=
  match ToString v with
  | Ok _ => true
  | Throw _ => false
  end.

(** The number that the operator [>] compares, NaN for a value that
    cannot be converted. *)
Definition number_of (v : JSValue) : float :=
  match ToNumber v with
  | Ok x => x
  | Throw _ => nan
  end.

(** The string of an element of an array that is joined. *)
Definition element_string (e : JSValue) : result jsstring :=
  match e with
  | JSUndefined | JSNull => Ok []
  | _ => ToString e
  end.

(** The elements of an array joined with commas. *)
Fixpoint joined (es : list JSValue) : result jsstring :=
  match es with
  | [] => Ok []
  | e :: es' =>
      match element_string e with
      | Ok s =>
          match es' with
          | [] => Ok s
          | _ :: _ =>
              match joined es' with
              | Ok r => Ok (s ++ 44 :: r)
              | Throw x => Throw x
              end
          end
      | Throw x => Throw x
      end
  end.

(** A character of a JSON number: a digit, a sign, the point or the
    letter of the exponent. *)
Definition number_char (c : N) : Prop :=
  is_digit c = true \/ c = 45 \/ c = 43 \/ c = 46 \/ c = 101 \/ c = 69.

(** A JSON number after its sign. *)
Definition unsigned_number (neg : bool) (s0 : jsstring) : option (jsnum * jsstring) :=
  let (ip, s1) := span_digits s0 in
  match ip with
  | [] => None
  | d :: ip' =>
      if (d =? 0) && (match ip' with [] => false | _ :: _ => true end)
      then None
      else
        match parse_frac s1 with
        | None => None
        | Some (fp, s2) =>
            match parse_exp s2 with
            | None => None
            | Some (e, s3) =>
                Some (JsNum neg (digits_value (ip ++ fp))
                            (e - Z.of_nat (length fp))%Z, s3)
            end
        end
  end.

(** An analysis of the declared shape. *)
Definition analysis_of (procrastinating : bool) (confidence : jsnum)
    (reason : jsstring) : JSValue :=
  JSObject [ (ScreenAnalyzer.k_isProcrastinating, JSBool procrastinating);
             (ScreenAnalyzer.k_confidence, JSNumber confidence);
             (ScreenAnalyzer.k_reason, JSString reason);
             (ScreenAnalyzer.k_suggestedAction, JSString (js "Close the tab")) ].

(** ** The activity monitor *)

Inductive MonitorEvent :=
| TimerFires (now : N)
| InputSeen (now : N).

Definition monitor_step (idleThresholdSeconds : Z) (ev : MonitorEvent)
    (s : ActivityMonitor.State) : ActivityMonitor.State * list ActivityMonitor.Callback :=
  match ev with
  | TimerFires now => ActivityMonitor.idleCheck idleThresholdSeconds now s
  | InputSeen now => ActivityMonitor.recordActivity now s
  end.

(** The state after a series of events, and the callbacks called, in
    order. *)
Fixpoint monitor_run (idleThresholdSeconds : Z) (evs : list MonitorEvent)
    (s : ActivityMonitor.State) : ActivityMonitor.State * list ActivityMonitor.Callback :=
  match evs with
  | [] => (s, [])
  | ev :: evs' =>
      let (s1, called) := monitor_step idleThresholdSeconds ev s in
      let (s2, called') := monitor_run idleThresholdSeconds evs' s1 in
      (s2, called ++ called')
  end.

(** The callbacks alternate; [idle_next] tells which one is due. *)
Fixpoint alternate (idle_next : bool) (called : list ActivityMonitor.Callback) : Prop :=
  match called with
  | [] => True
  | ActivityMonitor.onIdleDetected :: called' =>
      idle_next = true /\ alternate false called'
  | ActivityMonitor.onActivityDetected :: called' =>
      idle_next = false /\ alternate true called'
  end.

(** ** The classic detector *)

(** The detector after a series of events that all return, and the
    alarms triggered. *)
Fixpoint detector_run (idleThresholdSeconds : Z) (analyzer : bool)
    (evs : list ProcrastinationDetector.Event) (s : ProcrastinationDetector.State)
  : option (ProcrastinationDetector.State * list JSValue) :=
  match evs with
  | [] => Some (s, [])
  | ev :: evs' =>
      match ProcrastinationDetector.handle idleThresholdSeconds analyzer ev s with
      | ProcrastinationDetector.Returns s1 alarms =>
          match detector_run idleThresholdSeconds analyzer evs' s1 with
          | Some (s2, alarms') => Some (s2, alarms ++ alarms')
          | None => None
          end
      | _ => None
      end
  end.

Definition is_tick (ev : ProcrastinationDetector.Event) : bool :=
  match ev with
  | ProcrastinationDetector.Tick _ => true
  | _ => false
  end.

(** ** The agent-based detector *)



(** The user resumed within a minute of the last intervention. *)
Definition resumed_within_a_minute (now : N) (s : AgentBasedDetector.State) : bool :=
  (Z.of_N now - Z.of_N (AgentBasedDetector.lastInterventionTime s) <? 60000)%Z.

(** The handlers of the detector, as they are called while it runs. *)
Inductive DetectorOp :=
| AgentCheck (decideNow execNow : N) (run : BackendRun) (write_ok : bool)
| ActivityResumed (now : N)
| Stop (endNow updNow : N) (write_ok : bool) (run : BackendRun).

Definition detector_op (getHours : N -> N) (o : DetectorOp)
    (s : AgentBasedDetector.State) : AgentBasedDetector.State :=
  match o with
  | AgentCheck decideNow execNow run write_ok =>
      (AgentBasedDetector.runAgentCheck decideNow execNow run write_ok s).1
  | ActivityResumed now => (AgentBasedDetector.handleActivityDetected now s).2
  | Stop endNow updNow write_ok run =>
      (AgentBasedDetector.stop getHours endNow updNow write_ok run s).2
  end.

Definition detector_ops (getHours : N -> N) (ops : list DetectorOp)
    (s : AgentBasedDetector.State) : AgentBasedDetector.State :=
  fold_left (fun s o => detector_op getHours o s) ops s.

(** The part of the profile that tells the unproductive sessions. *)
Definition unproductive_part (s : AgentBasedDetector.State)
  : option (gmap N N * Z) :=
  match AgentBasedDetector.memorySystem s with
  | Some w =>
      Some (unproductiveHoursMap (userProfile (mem w)),
            (Z.of_N (totalSessions (userProfile (mem w)))
             - Z.of_N (productiveSessions (userProfile (mem w))))%Z)
  | None => None
  end.





(** A character with which no JSON value starts. *)
Definition starts_no_value (c : N) : Prop :=
  is_ws c = false /\ is_digit c = false /\
  c ∉ [123; 91; 34; 116; 102; 110; 45].

(** A reply in a Markdown code fence. *)
Definition fenced_reply : jsstring :=
  js "```json" ++ [10] ++
  jsq "{'isProcrastinating': true, 'confidence': 90, 'reason': 'video', 'suggestedAction': 'close'}"
  ++ [10] ++ js "```".

(* ===================================================================== *)
(** * Proof steps used throughout *)
(* ===================================================================== *)

(** Unfold the sequencing of the two monads. *)
Ltac unfold_monad :=
  unfold mbind, mret, M_bind, M_ret, result_bind, result_ret, bindM, retM,
    lift, bind, try_catchM, try_catch in *.

(** The keys of a literal object are distinct. *)
Ltac closed_NoDup := apply (bool_decide_eq_true_1 _); vm_compute; reflexivity.
(* ===================================================================== *)
(** * The embedding on concrete inputs *)
(* ===================================================================== *)

Section Examples.
Import JS ProductivityAgent MemorySystem.

(** What the JavaScript runtime prints for these numbers. *)
Example Number_toString_sum :
  option_map Number_toString
    (Number_digits (0x1.999999999999ap-4 + 0x1.999999999999ap-3)%float)
  = Some (js "0.30000000000000004").
Proof. vm_compute. reflexivity. Qed.

Example Number_toString_large :
  option_map Number_toString (Number_digits (Number_value (JsNum false 1 21)))
  = Some (js "1e+21") /\
  option_map Number_toString
    (Number_digits (Number_value (JsNum false 123456789012345678901 0)))
  = Some (js "123456789012345680000").
Proof. split; vm_compute; reflexivity. Qed.

Example Number_toString_small :
  option_map Number_toString (Number_digits (Number_value (JsNum false 1 (-7))))
  = Some (js "1e-7") /\
  option_map Number_toString (Number_digits (Number_value (JsNum false 1 (-6))))
  = Some (js "0.000001") /\
  option_map Number_toString (Number_digits (Number_value (JsNum true 25 (-1))))
  = Some (js "-2.5").
Proof. repeat split; vm_compute; reflexivity. Qed.

(** [JSON.parse]: white space, escapes, a repeated key, and what it
    rejects. *)
Example JSON_parse_object :
  JSON_parse (jsq " {'a': [1, 2.5e1, 'x\nA'], 'b': true, 'a': null} ")
  = Some (JSObject [(js "a", JSNull); (js "b", JSBool true)]).
Proof. vm_compute. reflexivity. Qed.

Example JSON_parse_array :
  JSON_parse (jsq "[1, 2.5e1, 'x\nA', {}, []]")
  = Some (JSArray [JSNumber (JsNum false 1 0); JSNumber (JsNum false 25 0);
                   JSString [120; 10; 65]; JSObject []; JSArray [] []] []).
Proof. vm_compute. reflexivity. Qed.

Example JSON_parse_rejects :
  JSON_parse (jsq "[1,]") = None /\
  JSON_parse (jsq "{'a': 1,}") = None /\
  JSON_parse (jsq "01") = None /\
  JSON_parse (jsq "1.") = None /\
  JSON_parse (jsq "{a: 1}") = None /\
  JSON_parse (jsq "{'a': 1} x") = None /\
  JSON_parse (jsq "") = None.
Proof. repeat split; vm_compute; reflexivity. Qed.

(** [JSON.stringify(value, null, 2)] *)
Example JSON_stringify_indents :
  JSON_stringify
    (JSObject [(js "a", JSArray [JSNumber (num_of_N 1); JSObject []] []);
               (js "b", JSString (jsq "q'"));
               (js "c", JSArray [] [])])
  = Some (jsq "{" ++ [10] ++
          jsq "  'a': [" ++ [10] ++
          jsq "    1," ++ [10] ++
          jsq "    {}" ++ [10] ++
          jsq "  ]," ++ [10] ++
          jsq "  'b': 'q\''," ++ [10] ++
          jsq "  'c': []" ++ [10] ++
          jsq "}").
Proof. vm_compute. reflexivity. Qed.

(** The regular expression takes from the first opening brace through the
    last closing brace. *)
Example match_braces_greedy :
  match_braces (js "say {a} and {b} end") = Some (js "{a} and {b}") /\
  match_braces (js "} {") = None /\
  match_braces (js "no braces") = None.
Proof. repeat split; vm_compute; reflexivity. Qed.

(** The most productive hours of a histogram with ties. *)
Example topHours_ties :
  topHours 3 (<[14 := 3]> (<[9 := 3]> (<[20 := 1]> (<[11 := 5]> ∅))))
  = [11; 9; 14].
Proof. vm_compute. reflexivity. Qed.

End Examples.

(* ===================================================================== *)
(** * JSON text: proofs *)
(* ===================================================================== *)

#[local] Arguments is_digit : simpl never.
#[local] Arguments N.eqb : simpl never.
#[local] Arguments N.ltb : simpl never.
#[local] Arguments N.leb : simpl never.

(** ** Decimal digits *)

Lemma digits_fuel_acc fuel n acc :
  digits_fuel fuel n acc = digits_fuel fuel n [] ++ acc.
Proof.
  revert n acc. induction fuel as [|fuel IH]; intros n acc; simpl; [reflexivity|].
  destruct (n <? 10); [reflexivity|].
  rewrite (IH _ (_ :: acc)), (IH _ [_]), <- app_assoc. reflexivity.
Qed.

Lemma log2_div10 n : 10 <= n -> N.log2 (n / 10) < N.log2 n.
Proof.
  intros H.
  assert (H1 : 0 < n / 10) by (apply N.div_str_pos; lia).
  assert (H2 : 2 * (n / 10) <= n).
  { pose proof (N.Div0.mul_div_le n 10). lia. }
  apply N.log2_le_mono in H2. rewrite N.log2_double in H2 by assumption. lia.
Qed.

Lemma digits_fuel_enough f1 f2 n acc :
  N.log2 n < N.of_nat f1 -> N.log2 n < N.of_nat f2 ->
  digits_fuel f1 n acc = digits_fuel f2 n acc.
Proof.
  revert f2 n acc. induction f1 as [|f1 IH]; intros f2 n acc H1 H2; [lia|].
  destruct f2 as [|f2]; [lia|]. simpl.
  destruct (N.ltb_spec n 10) as [|Hge]; [reflexivity|].
  pose proof (log2_div10 n Hge). apply IH; lia.
Qed.

Lemma N_digits_small n : n < 10 -> N_digits n = [n].
Proof.
  intros H. unfold N_digits. simpl.
  destruct (N.ltb_spec n 10); [reflexivity|lia].
Qed.

Lemma N_digits_step n :
  10 <= n -> N_digits n = N_digits (n / 10) ++ [n mod 10].
Proof.
  intros H. unfold N_digits at 1. simpl.
  destruct (N.ltb_spec n 10); [lia|].
  rewrite digits_fuel_acc. f_equal.
  pose proof (log2_div10 n H).
  apply digits_fuel_enough; lia.
Qed.

(** Induction on a number through its decimal prefix. *)
Lemma decimal_ind (P : N -> Prop) :
  (forall n, n < 10 -> P n) ->
  (forall n, 10 <= n -> P (n / 10) -> P n) ->
  forall n, P n.
Proof.
  intros Hsmall Hstep n.
  induction n as [n IH] using (well_founded_induction N.lt_wf_0).
  destruct (N.ltb_spec n 10) as [Hlt|Hge]; [auto|].
  apply Hstep; [assumption|]. apply IH.
  apply N.div_lt; lia.
Qed.

Lemma N_digits_lt_10 n : Forall (fun d => d < 10) (N_digits n).
Proof.
  induction n as [n H|n H IH] using decimal_ind.
  - rewrite N_digits_small by assumption. repeat constructor. assumption.
  - rewrite N_digits_step by assumption. apply Forall_app. split; [exact IH|].
    repeat constructor. apply N.mod_lt. lia.
Qed.

Lemma digits_value_snoc ds d : digits_value (ds ++ [d]) = digits_value ds * 10 + d.
Proof. unfold digits_value. rewrite fold_left_app. reflexivity. Qed.

Lemma digits_value_N_digits n : digits_value (N_digits n) = n.
Proof.
  induction n as [n H|n H IH] using decimal_ind.
  - rewrite N_digits_small by assumption. unfold digits_value. simpl. lia.
  - rewrite N_digits_step, digits_value_snoc, IH by assumption.
    pose proof (N.div_mod n 10). lia.
Qed.

(** The digits of a number start with a zero only for the number 0. *)
Lemma N_digits_head n :
  exists d ds, N_digits n = d :: ds /\ (d = 0 -> n = 0 /\ ds = []).
Proof.
  induction n as [n H|n H IH] using decimal_ind.
  - rewrite N_digits_small by assumption. exists n, []. auto.
  - rewrite N_digits_step by assumption.
    destruct IH as (d & ds & -> & Hd). exists d, (ds ++ [n mod 10]).
    split; [reflexivity|]. intros ->. destruct Hd as [Hz _]; [reflexivity|].
    exfalso. apply N.div_small_iff in Hz; lia.
Qed.

Lemma length_N_digits n k :
  n < 10 ^ N.of_nat (S k) -> (length (N_digits n) <= S k)%nat.
Proof.
  revert k. induction n as [n H|n H IH] using decimal_ind; intros k Hk.
  - rewrite N_digits_small by assumption. simpl. lia.
  - rewrite N_digits_step, length_app by assumption. simpl.
    destruct k as [|k].
    + simpl in Hk. lia.
    + specialize (IH k). rewrite Nat2N.inj_succ, N.pow_succ_r' in Hk.
      assert (n / 10 < 10 ^ N.of_nat (S k)).
      { apply N.Div0.div_lt_upper_bound. lia. }
      specialize (IH ltac:(assumption)). lia.
Qed.

(** ** Reading digits *)

Lemma is_digit_char d : d < 10 -> is_digit (48 + d) = true.
Proof. intros H. unfold is_digit. apply andb_true_intro. split; apply N.leb_le; lia. Qed.

Lemma span_digits_chars ds rest :
  Forall (fun d => d < 10) ds -> not_digit_head rest ->
  span_digits (digit_chars ds ++ rest) = (ds, rest).
Proof.
  intros Hds Hrest. induction Hds as [|d ds Hd _ IH]; simpl.
  - destruct rest as [|c rest]; [reflexivity|]. simpl in *. rewrite Hrest.
    reflexivity.
  - rewrite is_digit_char by assumption. rewrite IH.
    f_equal. f_equal. lia.
Qed.

(** Appending text after the digits read does not change them, when the
    run of digits stopped before its end or the text does not start with
    a digit. *)
Lemma span_digits_app s ds r rest :
  span_digits s = (ds, r) ->
  r <> [] \/ not_digit_head rest ->
  span_digits (s ++ rest) = (ds, r ++ rest).
Proof.
  revert ds r. induction s as [|c s IH]; intros ds r E Hr; simpl in *.
  - injection E as <- <-. simpl.
    destruct Hr as [Hr|Hr]; [congruence|].
    destruct rest as [|c rest]; [reflexivity|]. simpl in *. rewrite Hr.
    reflexivity.
  - destruct (is_digit c).
    + destruct (span_digits s) as [ds' r'] eqn:Es. injection E as <- <-.
      rewrite (IH ds' r' eq_refl Hr). reflexivity.
    + injection E as <- <-. reflexivity.
Qed.

Lemma delimited_not_digit rest : delimited rest -> not_digit_head rest.
Proof. destruct rest; simpl; tauto. Qed.

Lemma parse_frac_app s fp r rest :
  parse_frac s = Some (fp, r) -> delimited rest ->
  parse_frac (s ++ rest) = Some (fp, r ++ rest).
Proof.
  intros E Hrest. destruct s as [|c s]; simpl in *.
  - injection E as <- <-. destruct rest as [|c rest]; [reflexivity|].
    simpl in *. destruct (N.eqb_spec c 46); [tauto|reflexivity].
  - destruct (c =? 46).
    + destruct (span_digits s) as [ds r'] eqn:Es.
      destruct ds as [|d ds]; [discriminate|]. injection E as <- <-.
      rewrite (span_digits_app s (d :: ds) r' rest Es)
        by (right; apply delimited_not_digit; assumption).
      reflexivity.
    + injection E as <- <-. reflexivity.
Qed.

Lemma parse_exp_app s e r rest :
  parse_exp s = Some (e, r) -> delimited rest ->
  parse_exp (s ++ rest) = Some (e, r ++ rest).
Proof.
  intros E Hrest. destruct s as [|c s]; simpl in *.
  - injection E as <- <-. destruct rest as [|c rest]; [reflexivity|].
    simpl in *. destruct (N.eqb_spec c 101); [tauto|].
    destruct (N.eqb_spec c 69); [tauto|reflexivity].
  - destruct ((c =? 101) || (c =? 69)); [|injection E as <- <-; reflexivity].
    assert (Hspan : forall s' ds r', span_digits s' = (ds, r') ->
                     ds <> [] -> span_digits (s' ++ rest) = (ds, r' ++ rest)).
    { intros s' ds r' Es _. apply span_digits_app; [assumption|].
      right. apply delimited_not_digit. assumption. }
    destruct s as [|g t]; simpl in *; [discriminate|].
    destruct (g =? 45); [|destruct (g =? 43)].
    + destruct (span_digits t) as [ds r'] eqn:Es.
      destruct ds as [|d ds]; [discriminate|]. injection E as <- <-.
      rewrite (Hspan t (d :: ds) r' Es) by discriminate. reflexivity.
    + destruct (span_digits t) as [ds r'] eqn:Es.
      destruct ds as [|d ds]; [discriminate|]. injection E as <- <-.
      rewrite (Hspan t (d :: ds) r' Es) by discriminate. reflexivity.
    + destruct (span_digits (g :: t)) as [ds r'] eqn:Es.
      destruct ds as [|d ds]; [discriminate|]. injection E as <- <-.
      change (g :: t ++ rest) with ((g :: t) ++ rest).
      rewrite (Hspan (g :: t) (d :: ds) r' Es) by discriminate. reflexivity.
Qed.

(** A number read from a text is read the same when delimited text
    follows. *)
Lemma parse_number_app s n r rest :
  parse_number s = Some (n, r) -> delimited rest ->
  parse_number (s ++ rest) = Some (n, r ++ rest).
Proof.
  intros E Hrest. unfold parse_number in *.
  assert (Hcore : forall neg s0,
    match span_digits s0 with
    | (ip, s1) =>
        match ip with
        | [] => None
        | d :: ip' =>
            if (d =? 0) && (match ip' with [] => false | _ :: _ => true end)
            then None
            else
              match parse_frac s1 with
              | None => None
              | Some (fp, s2) =>
                  match parse_exp s2 with
                  | None => None
                  | Some (e, s3) =>
                      Some (JsNum neg (digits_value (ip ++ fp))
                                  (e - Z.of_nat (length fp))%Z, s3)
                  end
              end
        end
    end = Some (n, r) ->
    match span_digits (s0 ++ rest) with
    | (ip, s1) =>
        match ip with
        | [] => None
        | d :: ip' =>
            if (d =? 0) && (match ip' with [] => false | _ :: _ => true end)
            then None
            else
              match parse_frac s1 with
              | None => None
              | Some (fp, s2) =>
                  match parse_exp s2 with
                  | None => None
                  | Some (e, s3) =>
                      Some (JsNum neg (digits_value (ip ++ fp))
                                  (e - Z.of_nat (length fp))%Z, s3)
                  end
              end
        end
    end = Some (n, r ++ rest)).
  { intros neg s0 E0.
    destruct (span_digits s0) as [ip s1] eqn:Es.
    rewrite (span_digits_app s0 ip s1 rest Es)
      by (right; apply delimited_not_digit; assumption).
    destruct ip as [|d ip']; [discriminate|].
    destruct ((d =? 0) && _); [discriminate|].
    destruct (parse_frac s1) as [[fp s2]|] eqn:Ef; [|discriminate].
    rewrite (parse_frac_app s1 fp s2 rest Ef Hrest).
    destruct (parse_exp s2) as [[e s3]|] eqn:Ee; [|discriminate].
    rewrite (parse_exp_app s2 e s3 rest Ee Hrest).
    injection E0 as <- <-. reflexivity. }
  destruct s as [|c s]; [discriminate|]. simpl app. cbv beta iota in *.
  revert E. destruct (c =? 45); intros E.
  - exact (Hcore true s E).
  - exact (Hcore false (c :: s) E).
Qed.

(** ** Integers as text *)

Lemma Number_toString_N n :
  n < 10 ^ 21 -> Number_toString (num_of_N n) = digit_chars (N_digits n).
Proof.
  intros Hn. unfold Number_toString, num_of_N. simpl.
  destruct (N.eqb_spec n 0) as [->|Hnz]; [reflexivity|].
  pose proof (length_N_digits n 20 Hn) as Hlen.
  rewrite Z.add_0_r, Z.leb_refl, Z.sub_diag. simpl.
  destruct (Z.leb_spec (Z.of_nat (length (N_digits n))) 21) as [_|H]; [|lia].
  unfold zeros. simpl. rewrite app_nil_r. reflexivity.
Qed.

Lemma parse_number_digits n rest :
  delimited rest ->
  parse_number (digit_chars (N_digits n) ++ rest) = Some (num_of_N n, rest).
Proof.
  intros Hrest.
  assert (E : parse_number (digit_chars (N_digits n)) = Some (num_of_N n, [])).
  { destruct (N_digits_head n) as (d & ds & E & Hd).
    pose proof (N_digits_lt_10 n) as Hlt.
    pose proof (digits_value_N_digits n) as Hval.
    rewrite E in *. unfold parse_number. simpl digit_chars.
    assert (Hd10 : d < 10) by (inversion Hlt; assumption).
    cbv beta iota.
    destruct (N.eqb_spec (48 + d) 45) as [|_]; [lia|]. cbv beta iota.
    change (48 + d :: digit_chars ds) with (digit_chars (d :: ds)).
    rewrite <- (app_nil_r (digit_chars (d :: ds))).
    rewrite span_digits_chars by (auto; exact I).
    assert (Hz : (d =? 0) && (match ds with [] => false | _ :: _ => true end) = false).
    { destruct (N.eqb_spec d 0) as [Hd0|]; [|reflexivity].
      destruct (Hd Hd0) as [_ ->]. reflexivity. }
    rewrite Hz. simpl. rewrite app_nil_r, Hval. reflexivity. }
  apply (parse_number_app _ _ [] rest E Hrest).
Qed.

Lemma number_prints_N n : n < 10 ^ 21 -> number_prints (num_of_N n).
Proof.
  intros Hn. unfold number_prints. rewrite Number_toString_N by assumption.
  rewrite <- (app_nil_r (digit_chars _)). apply parse_number_digits. exact I.
Qed.

(** ** Strings as text *)

Lemma hex_val_hex_digit d : d < 16 -> hex_val (hex_digit d) = Some d.
Proof.
  intros H.
  assert (Hc : d = 0 \/ d = 1 \/ d = 2 \/ d = 3 \/ d = 4 \/ d = 5 \/ d = 6 \/
               d = 7 \/ d = 8 \/ d = 9 \/ d = 10 \/ d = 11 \/ d = 12 \/
               d = 13 \/ d = 14 \/ d = 15) by lia.
  repeat (destruct Hc as [->|Hc]; [reflexivity|]). subst. reflexivity.
Qed.

Lemma hex4_escape c :
  c < 65536 ->
  hex4 (hex_digit (c / 4096 mod 16)) (hex_digit (c / 256 mod 16))
       (hex_digit (c / 16 mod 16)) (hex_digit (c mod 16)) = Some c.
Proof.
  intros H. unfold hex4.
  rewrite !hex_val_hex_digit by (apply N.mod_lt; lia).
  f_equal. zify. Z.to_euclidean_division_equations. lia.
Qed.

(** What [parse_chars] reads after an escape of a code unit. *)
Lemma parse_chars_escape_u c s :
  c < 65536 ->
  parse_chars (escape_u c ++ s) = cons_fst c (parse_chars s).
Proof.
  intros H. unfold escape_u. simpl. rewrite hex4_escape by assumption.
  reflexivity.
Qed.

Lemma parse_chars_plain c t :
  32 <= c -> c <> 34 -> c <> 92 ->
  parse_chars (c :: t) = cons_fst c (parse_chars t).
Proof.
  intros Hc H34 H92. cbn [parse_chars].
  destruct (N.eqb_spec c 34); [congruence|].
  destruct (N.eqb_spec c 92); [congruence|].
  destruct (N.ltb_spec c 32); [lia|]. reflexivity.
Qed.

Lemma parse_chars_quote_chars s rest :
  parse_chars (quote_chars s ++ 34 :: rest) = Some (s, rest).
Proof.
  remember (length s) as n eqn:Hn. revert s Hn.
  induction n as [n IH] using lt_wf_ind. intros s Hn.
  destruct s as [|c s]; [reflexivity|].
  assert (IH1 : parse_chars (quote_chars s ++ 34 :: rest) = Some (s, rest)).
  { apply (IH (length s)); simpl in Hn; [lia|reflexivity]. }
  cbn [quote_chars].
  destruct (N.eqb_spec c 34) as [->|H34]; [simpl; rewrite IH1; reflexivity|].
  destruct (N.eqb_spec c 92) as [->|H92]; [simpl; rewrite IH1; reflexivity|].
  destruct (N.eqb_spec c 8) as [->|H8]; [simpl; rewrite IH1; reflexivity|].
  destruct (N.eqb_spec c 12) as [->|H12]; [simpl; rewrite IH1; reflexivity|].
  destruct (N.eqb_spec c 10) as [->|H10]; [simpl; rewrite IH1; reflexivity|].
  destruct (N.eqb_spec c 13) as [->|H13]; [simpl; rewrite IH1; reflexivity|].
  destruct (N.eqb_spec c 9) as [->|H9]; [simpl; rewrite IH1; reflexivity|].
  destruct (N.ltb_spec c 32) as [Hlt|Hge].
  { rewrite <- app_assoc, parse_chars_escape_u, IH1 by lia. reflexivity. }
  unfold is_lead_surrogate, is_trail_surrogate.
  destruct (N.leb_spec 55296 c) as [Hl1|Hl1]; cbn [andb].
  - destruct (N.leb_spec c 56319) as [Hl2|Hl2].
    + destruct s as [|t s].
      * rewrite parse_chars_escape_u by lia. reflexivity.
      * destruct (N.leb_spec 56320 t) as [Ht1|Ht1]; cbn [andb].
        -- destruct (N.leb_spec t 57343) as [Ht2|Ht2].
           ++ cbn [app]. rewrite !parse_chars_plain by lia.
              rewrite (IH (length s) ltac:(simpl in Hn; lia) s eq_refl).
              reflexivity.
           ++ rewrite <- app_assoc, parse_chars_escape_u, IH1 by lia.
              reflexivity.
        -- rewrite <- app_assoc, parse_chars_escape_u, IH1 by lia.
           reflexivity.
    + destruct (N.leb_spec 56320 c) as [Ht1|Ht1]; cbn [andb].
      * destruct (N.leb_spec c 57343) as [Ht2|Ht2].
        -- rewrite <- app_assoc, parse_chars_escape_u, IH1 by lia.
           reflexivity.
        -- cbn [app]. rewrite parse_chars_plain, IH1 by lia. reflexivity.
      * lia.
  - destruct (N.leb_spec 56320 c) as [Ht1|Ht1]; cbn [andb]; [lia|].
    cbn [app]. rewrite parse_chars_plain, IH1 by lia. reflexivity.
Qed.

(** ** Values as text *)

(** Induction on a value through its elements and properties. *)
Lemma JSValue_nested_ind (P : JSValue -> Prop) :
  P JSUndefined -> P JSNull -> (forall b, P (JSBool b)) ->
  (forall n, P (JSNumber n)) -> (forall s, P (JSString s)) ->
  (forall es named, Forall P es -> P (JSArray es named)) ->
  (forall ps, Forall (fun kx => P kx.2) ps -> P (JSObject ps)) ->
  forall v, P v.
Proof.
  intros Hu Hn Hb Hnum Hs Ha Ho.
  fix IH 1. intros [| |b|n|s|es named|ps].
  - exact Hu.
  - exact Hn.
  - apply Hb.
  - apply Hnum.
  - apply Hs.
  - apply Ha. induction es as [|e es IHes]; constructor;
      [apply IH|exact IHes].
  - apply Ho. induction ps as [|[k x] ps IHps]; constructor;
      [apply IH|exact IHps].
Qed.

Lemma serialize_array depth es named :
  serialize depth (JSArray es named) =
    match items_of depth es with
    | [] => Some [91; 93]
    | _ :: _ =>
        Some ([91] ++ newline (S depth) ++ join_lines (S depth) (items_of depth es)
              ++ newline depth ++ [93])
    end.
Proof.
  cbn [serialize].
  match goal with |- match ?a with _ => _ end = _ =>
    replace a with (items_of depth es); [reflexivity|] end.
  induction es as [|e es IH]; [reflexivity|]. cbn [items_of map].
  f_equal; auto.
Qed.

Lemma serialize_object_members depth ps :
  serialize depth (JSObject ps) =
    match members_of depth ps with
    | [] => Some [123; 125]
    | _ :: _ =>
        Some ([123] ++ newline (S depth) ++ join_lines (S depth) (members_of depth ps)
              ++ newline depth ++ [125])
    end.
Proof.
  cbn [serialize].
  match goal with |- match ?a with _ => _ end = _ =>
    replace a with (members_of depth ps); [reflexivity|] end.
  induction ps as [|[k x] ps IH]; [reflexivity|]. cbn [members_of].
  destruct (serialize (S depth) x); [f_equal|]; auto.
Qed.

Lemma printable_array es named :
  printable (JSArray es named) <-> named = [] /\ Forall printable es.
Proof.
  cbn [printable]. apply and_iff_compat_l.
  induction es as [|e es IH]; [split; auto|].
  rewrite Forall_cons, IH. reflexivity.
Qed.

Lemma printable_object ps :
  printable (JSObject ps) <->
  NoDup ps.*1 /\ Forall (fun kx => printable kx.2) ps.
Proof.
  cbn [printable]. apply and_iff_compat_l.
  induction ps as [|[k x] ps IH]; [split; auto|].
  rewrite Forall_cons, IH. reflexivity.
Qed.

Lemma cost_array es named : cost (JSArray es named) = S (elems_cost es).
Proof.
  reflexivity.
Qed.

Lemma cost_object ps : cost (JSObject ps) = S (props_cost ps).
Proof.
  cbn [cost]. f_equal. induction ps as [|[k x] ps IH]; [reflexivity|].
  cbn [props_cost foldr snd]. f_equal. f_equal. exact IH.
Qed.

(** *** White space *)

Lemma skip_ws_spaces n s : skip_ws (replicate n 32 ++ s) = skip_ws s.
Proof. induction n as [|n IH]; [reflexivity|exact IH]. Qed.

Lemma skip_ws_newline depth s : skip_ws (newline depth ++ s) = skip_ws s.
Proof. unfold newline. cbn [app skip_ws]. apply skip_ws_spaces. Qed.

Lemma skip_ws_idem s : skip_ws (skip_ws s) = skip_ws s.
Proof.
  induction s as [|c s IH]; [reflexivity|]. cbn [skip_ws].
  destruct (is_ws c) eqn:E; [exact IH|]. cbn [skip_ws]. rewrite E. reflexivity.
Qed.

Lemma skip_ws_head c s : is_ws c = false -> skip_ws (c :: s) = c :: s.
Proof. intros E. cbn [skip_ws]. rewrite E. reflexivity. Qed.

Lemma parse_value_skip_ws fuel s :
  parse_value fuel (skip_ws s) = parse_value fuel s.
Proof. destruct fuel; [reflexivity|]. cbn [parse_value]. rewrite skip_ws_idem. reflexivity. Qed.

Lemma parse_value_newline fuel depth s :
  parse_value fuel (newline depth ++ s) = parse_value fuel s.
Proof.
  rewrite <- parse_value_skip_ws, skip_ws_newline, parse_value_skip_ws.
  reflexivity.
Qed.

Lemma parse_members_skip_ws fuel s acc :
  parse_members fuel (skip_ws s) acc = parse_members fuel s acc.
Proof. destruct fuel; [reflexivity|]. cbn [parse_members]. rewrite skip_ws_idem. reflexivity. Qed.

Lemma parse_members_newline fuel depth s acc :
  parse_members fuel (newline depth ++ s) acc = parse_members fuel s acc.
Proof.
  rewrite <- parse_members_skip_ws, skip_ws_newline, parse_members_skip_ws.
  reflexivity.
Qed.

Lemma delimited_newline depth s : delimited (newline depth ++ s).
Proof. unfold newline. cbn. repeat split; discriminate. Qed.

Lemma delimited_comma s : delimited (44 :: s).
Proof. cbn. repeat split; discriminate. Qed.

(** *** The first character decides what [parse_value] reads *)

Lemma parse_value_null fuel rest :
  parse_value (S fuel) (js "null" ++ rest) = Some (JSNull, rest).
Proof. reflexivity. Qed.

Lemma parse_value_true fuel rest :
  parse_value (S fuel) (js "true" ++ rest) = Some (JSBool true, rest).
Proof. reflexivity. Qed.

Lemma parse_value_false fuel rest :
  parse_value (S fuel) (js "false" ++ rest) = Some (JSBool false, rest).
Proof. reflexivity. Qed.

Lemma parse_value_string fuel s :
  parse_value (S fuel) (34 :: s) =
    match parse_chars s with
    | Some (str, r) => Some (JSString str, r)
    | None => None
    end.
Proof. reflexivity. Qed.

Lemma parse_value_array fuel s :
  parse_value (S fuel) (91 :: s) =
    match skip_ws s with
    | d :: s2 =>
        if d =? 93 then Some (JSArray [] [], s2)
        else match parse_elements fuel s with
             | Some (es, r) => Some (JSArray es [], r)
             | None => None
             end
    | [] => None
    end.
Proof. reflexivity. Qed.

Lemma parse_value_object fuel s :
  parse_value (S fuel) (123 :: s) =
    match skip_ws s with
    | d :: s2 =>
        if d =? 125 then Some (JSObject [], s2)
        else match parse_members fuel s [] with
             | Some (ps, r) => Some (JSObject ps, r)
             | None => None
             end
    | [] => None
    end.
Proof. reflexivity. Qed.

Lemma parse_value_number fuel c t :
  c = 45 \/ is_digit c = true ->
  parse_value (S fuel) (c :: t) =
    match parse_number (c :: t) with
    | Some (n, r) => Some (JSNumber n, r)
    | None => None
    end.
Proof.
  intros Hc.
  assert (H : c = 45 \/ (48 <= c /\ c <= 57)).
  { destruct Hc as [|Hd]; [auto|]. right. unfold is_digit in Hd.
    apply andb_prop in Hd as [H1 H2]. apply N.leb_le in H1, H2. auto. }
  clear Hc. cbn [parse_value skip_ws].
  assert (Hws : is_ws c = false).
  { unfold is_ws.
    destruct (N.eqb_spec c 32), (N.eqb_spec c 9), (N.eqb_spec c 10),
      (N.eqb_spec c 13); try reflexivity; lia. }
  rewrite Hws.
  destruct (N.eqb_spec c 123); [lia|].
  destruct (N.eqb_spec c 91); [lia|].
  destruct (N.eqb_spec c 34); [lia|].
  destruct (N.eqb_spec c 116); [lia|].
  destruct (N.eqb_spec c 102); [lia|].
  destruct (N.eqb_spec c 110); [lia|].
  reflexivity.
Qed.

Lemma parse_number_head s n r :
  parse_number s = Some (n, r) ->
  exists c t, s = c :: t /\ (c = 45 \/ is_digit c = true).
Proof.
  destruct s as [|c t]; [discriminate|]. intros H. exists c, t.
  split; [reflexivity|]. unfold parse_number in H.
  destruct (N.eqb_spec c 45) as [|_]; [auto|]. right.
  cbn [span_digits] in H. destruct (is_digit c); [reflexivity|discriminate].
Qed.

Lemma head_starts_value c t :
  c = 45 \/ is_digit c = true \/ c = 34 \/ c = 91 \/ c = 123 \/
  c = 110 \/ c = 116 \/ c = 102 ->
  starts_value (c :: t).
Proof.
  intros H. exists c, t. split; [reflexivity|].
  assert (H' : c = 45 \/ (48 <= c /\ c <= 57) \/ c = 34 \/ c = 91 \/ c = 123 \/
               c = 110 \/ c = 116 \/ c = 102).
  { destruct H as [|[Hd|H]]; [auto| |auto]. right. left. unfold is_digit in Hd.
    apply andb_prop in Hd as [H1 H2]. apply N.leb_le in H1, H2. auto. }
  clear H. unfold is_ws.
  destruct (N.eqb_spec c 32), (N.eqb_spec c 9), (N.eqb_spec c 10),
    (N.eqb_spec c 13); cbn [orb]; repeat split; try lia.
Qed.

(** A printable value serialises, to a text that starts as a value
    does. *)
Lemma serialize_printable depth v :
  printable v ->
  exists text, serialize depth v = Some text /\ starts_value text.
Proof.
  destruct v as [| |b|n|s|es named|ps]; intros Hp.
  - destruct Hp.
  - eexists. split; [reflexivity|]. apply head_starts_value. tauto.
  - destruct b; (eexists; split; [reflexivity|]); apply head_starts_value; tauto.
  - exists (Number_toString n). split; [reflexivity|].
    destruct (parse_number_head _ _ _ Hp) as (c & t & -> & Hc).
    apply head_starts_value. tauto.
  - eexists. split; [reflexivity|]. apply head_starts_value. tauto.
  - rewrite serialize_array. destruct (items_of depth es);
      (eexists; split; [reflexivity|]); apply head_starts_value; tauto.
  - rewrite serialize_object_members. destruct (members_of depth ps);
      (eexists; split; [reflexivity|]); apply head_starts_value; tauto.
Qed.

Lemma assign_prop_fresh k x acc :
  k ∉ acc.*1 -> assign_prop k x acc = acc ++ [(k, x)].
Proof.
  induction acc as [|[k' x'] acc IH]; intros Hk; [reflexivity|].
  cbn [assign_prop]. rewrite fmap_cons, not_elem_of_cons in Hk.
  destruct Hk as [Hne Hk]. cbn [fst] in Hne.
  rewrite decide_False by assumption. rewrite IH by assumption. reflexivity.
Qed.

(** *** Arrays and objects *)

Lemma join_lines_cons depth a b items :
  join_lines depth (a :: b :: items) =
    a ++ 44 :: newline depth ++ join_lines depth (b :: items).
Proof. reflexivity. Qed.

Lemma parse_elements_items es depth d rest fuel :
  es <> [] -> Forall printable es -> Forall reads_back es ->
  (elems_cost es <= fuel)%nat ->
  parse_elements fuel
    (newline (S depth) ++ join_lines (S depth) (items_of depth es) ++
     newline d ++ 93 :: rest) = Some (es, rest).
Proof.
  revert fuel. induction es as [|e es IH]; [congruence|].
  intros fuel _ Hp Hr Hf.
  apply Forall_cons in Hp as [Hpe Hp]. apply Forall_cons in Hr as [Hre Hr].
  destruct (serialize_printable (S depth) e Hpe) as (text & Et & _).
  cbn [elems_cost foldr] in Hf. destruct fuel as [|f]; [lia|].
  cbn [parse_elements]. rewrite parse_value_newline.
  cbn [items_of map]. rewrite Et. cbn [default from_option id].
  destruct es as [|e2 es'].
  - cbn [map join_lines].
    rewrite (Hre (S depth) text (newline d ++ 93 :: rest) f Et
               (delimited_newline _ _) ltac:(lia)).
    rewrite skip_ws_newline. reflexivity.
  - assert (Hj : join_lines (S depth) (text :: items_of depth (e2 :: es')) =
                 text ++ 44 :: newline (S depth) ++
                 join_lines (S depth) (items_of depth (e2 :: es'))).
    { reflexivity. }
    change (map _ (e2 :: es')) with (items_of depth (e2 :: es')).
    rewrite Hj. rewrite <- app_assoc. cbn [app].
    rewrite <- app_assoc.
    rewrite (Hre (S depth) text _ f Et (delimited_comma _) ltac:(lia)).
    rewrite skip_ws_head by reflexivity.
    change (44 =? 93) with false. change (44 =? 44) with true. cbv beta iota.
    rewrite IH; [reflexivity|discriminate|assumption|assumption|].
    fold (elems_cost (e2 :: es')) in Hf. lia.
Qed.

Lemma members_of_cons depth k x ps text :
  serialize (S depth) x = Some text ->
  members_of depth ((k, x) :: ps) =
    (quote k ++ [58; 32] ++ text) :: members_of depth ps.
Proof. intros E. cbn [members_of]. rewrite E. reflexivity. Qed.

Lemma members_of_nonempty depth k x ps :
  printable x -> members_of depth ((k, x) :: ps) <> [].
Proof.
  intros Hp. destruct (serialize_printable (S depth) x Hp) as (text & Et & _).
  rewrite (members_of_cons _ _ _ _ _ Et). discriminate.
Qed.

Lemma parse_members_key fuel k s acc :
  parse_members (S fuel) (quote k ++ 58 :: 32 :: s) acc =
    match parse_value fuel s with
    | None => None
    | Some (v, r) =>
        match skip_ws r with
        | c :: r1 =>
            if c =? 125 then Some (assign_prop k v acc, r1)
            else if c =? 44 then parse_members fuel r1 (assign_prop k v acc)
            else None
        | [] => None
        end
    end.
Proof.
  unfold quote. cbn [parse_members app skip_ws].
  change (is_ws 34) with false. cbv beta iota.
  change (34 =? 34) with true. cbv beta iota.
  rewrite <- app_assoc. cbn [app]. rewrite parse_chars_quote_chars.
  cbn [skip_ws]. change (is_ws 58) with false. cbv beta iota.
  change (58 =? 58) with true. cbv beta iota.
  rewrite <- (parse_value_skip_ws fuel (32 :: s)).
  cbn [skip_ws]. change (is_ws 32) with true. cbv beta iota.
  rewrite parse_value_skip_ws. reflexivity.
Qed.

Lemma parse_members_members ps depth d rest fuel acc :
  ps <> [] -> NoDup (acc ++ ps).*1 ->
  Forall (fun kx => printable kx.2) ps ->
  Forall (fun kx => reads_back kx.2) ps ->
  (props_cost ps <= fuel)%nat ->
  parse_members fuel
    (newline (S depth) ++ join_lines (S depth) (members_of depth ps) ++
     newline d ++ 125 :: rest) acc = Some (acc ++ ps, rest).
Proof.
  revert fuel acc. induction ps as [|[k x] ps IH]; [congruence|].
  intros fuel acc _ Hnd Hp Hr Hf.
  apply Forall_cons in Hp as [Hpx Hp]. apply Forall_cons in Hr as [Hrx Hr].
  cbn [snd] in Hpx, Hrx.
  destruct (serialize_printable (S depth) x Hpx) as (text & Et & _).
  cbn [props_cost foldr snd] in Hf. destruct fuel as [|f]; [lia|].
  rewrite parse_members_newline.
  rewrite (members_of_cons _ _ _ _ _ Et).
  assert (Hfresh : assign_prop k x acc = acc ++ [(k, x)]).
  { apply assign_prop_fresh. rewrite fmap_app, fmap_cons in Hnd.
    apply NoDup_app in Hnd as (_ & Hdis & _). intros Hin.
    apply (Hdis k Hin). left. }
  destruct ps as [|[k2 x2] ps'].
  - cbn [members_of join_lines]. rewrite <- !app_assoc. cbn [app].
    rewrite parse_members_key.
    rewrite (Hrx (S depth) text (newline d ++ 125 :: rest) f Et
               (delimited_newline _ _) ltac:(lia)).
    rewrite skip_ws_newline. cbn [skip_ws]. change (is_ws 125) with false.
    cbv beta iota. change (125 =? 125) with true. cbv beta iota.
    rewrite Hfresh. reflexivity.
  - pose proof (members_of_nonempty depth k2 x2 ps'
                  ltac:(apply Forall_cons in Hp as [H _]; exact H)) as Hne.
    destruct (members_of depth ((k2, x2) :: ps')) as [|m ms] eqn:Em;
      [congruence|].
    rewrite (join_lines_cons (S depth) _ m ms).
    rewrite <- !app_assoc. cbn [app].
    rewrite parse_members_key.
    rewrite (Hrx (S depth) text _ f Et (delimited_comma _) ltac:(lia)).
    cbn [skip_ws]. change (is_ws 44) with false. cbv beta iota.
    change (44 =? 125) with false. change (44 =? 44) with true. cbv beta iota.
    rewrite Hfresh.
    specialize (IH f (acc ++ [(k, x)]) ltac:(discriminate)).
    rewrite <- ?app_assoc. rewrite IH.
    + rewrite <- app_assoc. reflexivity.
    + rewrite <- app_assoc. exact Hnd.
    + assumption.
    + assumption.
    + fold (props_cost ((k2, x2) :: ps')) in Hf. lia.
Qed.

(** [parse_value] reads every printable value back from its text. *)
Lemma printable_reads_back v : printable v -> reads_back v.
Proof.
  induction v as [| |b|n|s|es named IH|ps IH] using JSValue_nested_ind;
    intros Hp depth text rest fuel Hs Hrest Hfuel.
  - destruct Hp.
  - injection Hs as <-. destruct fuel; [simpl in Hfuel; lia|].
    apply parse_value_null.
  - destruct fuel; [simpl in Hfuel; lia|].
    destruct b; injection Hs as <-;
      [apply parse_value_true|apply parse_value_false].
  - cbn [printable] in Hp. unfold number_prints in Hp.
    injection Hs as <-. destruct fuel; [simpl in Hfuel; lia|].
    destruct (parse_number_head _ _ _ Hp) as (c & t & E & Hc).
    rewrite E in *. cbn [app]. rewrite parse_value_number by assumption.
    change (c :: t ++ rest) with ((c :: t) ++ rest).
    rewrite (parse_number_app _ _ _ rest Hp Hrest). reflexivity.
  - injection Hs as <-. destruct fuel; [simpl in Hfuel; lia|].
    unfold quote. cbn [app]. rewrite parse_value_string.
    rewrite <- app_assoc. cbn [app]. rewrite parse_chars_quote_chars.
    reflexivity.
  - apply printable_array in Hp as [-> Hp].
    rewrite cost_array in Hfuel. destruct fuel as [|f]; [lia|].
    rewrite serialize_array in Hs.
    destruct es as [|e es].
    + injection Hs as <-. reflexivity.
    + assert (Hall : Forall reads_back (e :: es)).
      { rewrite Forall_forall in *. intros y Hy. apply IH; auto. }
      pose proof (Forall_inv Hp) as Hpe.
      destruct (serialize_printable (S depth) e Hpe) as (te & Ete & Hst).
      destruct Hst as (c & t & -> & Hws & H93 & _).
      assert (Hitems : exists i is', items_of depth (e :: es) = i :: is').
      { cbn [items_of map]. eauto. }
      destruct Hitems as (i & is' & Ei). rewrite Ei in Hs.
      apply (inj Some) in Hs. subst text.
      assert (Ht : ([91] ++ newline (S depth) ++ join_lines (S depth) (i :: is')
                    ++ newline depth ++ [93]) ++ rest
                   = 91 :: (newline (S depth) ++ join_lines (S depth) (i :: is')
                            ++ newline depth ++ 93 :: rest)).
      { rewrite <- !app_assoc. reflexivity. }
      rewrite Ht, parse_value_array.
      assert (Hsk : exists t', skip_ws (newline (S depth) ++
                      join_lines (S depth) (i :: is')
                      ++ newline depth ++ 93 :: rest) = c :: t').
      { rewrite skip_ws_newline. cbn [items_of map] in Ei. rewrite Ete in Ei.
        cbn [default from_option id] in Ei. injection Ei as <- <-.
        destruct (map _ es); cbn [join_lines app];
          rewrite skip_ws_head by assumption; eauto. }
      destruct Hsk as [t' Hsk]. rewrite Hsk.
      destruct (N.eqb_spec c 93); [congruence|].
      rewrite <- Ei.
      rewrite (parse_elements_items (e :: es) depth depth rest f)
        by (first [discriminate | assumption | lia]).
      reflexivity.
  - apply printable_object in Hp as [Hnd Hp].
    rewrite cost_object in Hfuel. destruct fuel as [|f]; [lia|].
    rewrite serialize_object_members in Hs.
    destruct ps as [|[k x] ps].
    + injection Hs as <-. reflexivity.
    + assert (Hall : Forall (fun kx => reads_back kx.2) ((k, x) :: ps)).
      { rewrite Forall_forall in *. intros y Hy. apply IH; auto. }
      pose proof (Forall_inv Hp) as Hpx. cbn [snd] in Hpx.
      destruct (serialize_printable (S depth) x Hpx) as (tx & Etx & _).
      pose proof (members_of_cons depth k x ps tx Etx) as Em.
      rewrite Em in Hs. apply (inj Some) in Hs. subst text.
      assert (Ht : ([123] ++ newline (S depth) ++
                    join_lines (S depth)
                      ((quote k ++ [58; 32] ++ tx) :: members_of depth ps)
                    ++ newline depth ++ [125]) ++ rest
                   = 123 :: (newline (S depth) ++
                       join_lines (S depth)
                         ((quote k ++ [58; 32] ++ tx) :: members_of depth ps)
                       ++ newline depth ++ 125 :: rest)).
      { rewrite <- !app_assoc. reflexivity. }
      rewrite Ht, parse_value_object.
      assert (Hsk : exists t, skip_ws (newline (S depth) ++
                      join_lines (S depth)
                        ((quote k ++ [58; 32] ++ tx) :: members_of depth ps)
                      ++ newline depth ++ 125 :: rest) = 34 :: t).
      { rewrite skip_ws_newline. unfold quote.
        destruct (members_of depth ps); cbn [join_lines app];
          rewrite skip_ws_head by reflexivity; eauto. }
      destruct Hsk as [t Hsk]. rewrite Hsk.
      change (34 =? 125) with false. cbv beta iota.
      rewrite <- Em.
      rewrite (parse_members_members ((k, x) :: ps) depth depth rest f [])
        by (first [discriminate | assumption | exact Hnd | lia]).
      reflexivity.
Qed.

(** *** The fuel of [JSON_parse] suffices *)

Lemma length_join_lines_elems depth es :
  Forall (fun e => forall d text, serialize d e = Some text ->
                     (cost e <= length text)%nat) es ->
  Forall printable es ->
  (elems_cost es <= length (join_lines (S depth) (items_of depth es)) + 1)%nat.
Proof.
  induction es as [|e es IH]; intros Hc Hp; [cbn; lia|].
  apply Forall_cons in Hc as [Hce Hc]. apply Forall_cons in Hp as [Hpe Hp].
  specialize (IH Hc Hp).
  destruct (serialize_printable (S depth) e Hpe) as (text & Et & _).
  specialize (Hce _ _ Et).
  cbn [elems_cost foldr items_of map]. rewrite Et. cbn [default from_option id].
  fold (elems_cost es). fold (items_of depth es).
  destruct (items_of depth es) as [|i is'] eqn:Ei.
  - destruct es; [|discriminate]. cbn. lia.
  - rewrite join_lines_cons. rewrite length_app. cbn [length].
    rewrite length_app. lia.
Qed.

Lemma length_join_lines_props depth ps :
  Forall (fun kx => forall d text, serialize d kx.2 = Some text ->
                      (cost kx.2 <= length text)%nat) ps ->
  Forall (fun kx => printable kx.2) ps ->
  (props_cost ps <= length (join_lines (S depth) (members_of depth ps)) + 1)%nat.
Proof.
  induction ps as [|[k x] ps IH]; intros Hc Hp; [cbn; lia|].
  apply Forall_cons in Hc as [Hcx Hc]. apply Forall_cons in Hp as [Hpx Hp].
  specialize (IH Hc Hp). cbn [snd] in *.
  destruct (serialize_printable (S depth) x Hpx) as (text & Et & _).
  specialize (Hcx _ _ Et).
  rewrite (members_of_cons _ _ _ _ _ Et).
  cbn [props_cost foldr snd]. fold (props_cost ps).
  destruct (members_of depth ps) as [|m ms] eqn:Em.
  - destruct ps as [|[k2 x2] ps'].
    + cbn [props_cost foldr join_lines]. rewrite !length_app. lia.
    + exfalso. apply (members_of_nonempty depth k2 x2 ps'); [|exact Em].
      apply Forall_cons in Hp as [H _]. exact H.
  - rewrite join_lines_cons. rewrite !length_app. cbn [length].
    rewrite !length_app. lia.
Qed.

Lemma cost_le_length v :
  printable v ->
  forall depth text, serialize depth v = Some text -> (cost v <= length text)%nat.
Proof.
  induction v as [| |b|n|s|es named IH|ps IH] using JSValue_nested_ind;
    intros Hp depth text Hs.
  - destruct Hp.
  - apply (inj Some) in Hs. subst text. cbn. lia.
  - destruct b; apply (inj Some) in Hs; subst text; cbn; lia.
  - destruct (serialize_printable depth (JSNumber n) Hp)
      as (text' & Et & (c & t & -> & _)).
    rewrite Hs in Et. apply (inj Some) in Et. subst text. cbn. lia.
  - apply (inj Some) in Hs. subst text. unfold quote. cbn. lia.
  - apply printable_array in Hp as [-> Hp].
    rewrite cost_array. rewrite serialize_array in Hs.
    assert (Hc : Forall (fun e => forall d text, serialize d e = Some text ->
                           (cost e <= length text)%nat) es).
    { rewrite Forall_forall in *. intros e He d t. apply IH; auto. }
    pose proof (length_join_lines_elems depth es Hc Hp) as Hlen.
    destruct (items_of depth es) as [|i is'] eqn:Ei.
    + destruct es; [|discriminate]. apply (inj Some) in Hs. subst text.
      cbn. lia.
    + apply (inj Some) in Hs. subst text. rewrite !length_app. cbn [length].
      lia.
  - apply printable_object in Hp as [Hnd Hp].
    rewrite cost_object. rewrite serialize_object_members in Hs.
    assert (Hc : Forall (fun kx => forall d text, serialize d kx.2 = Some text ->
                           (cost kx.2 <= length text)%nat) ps).
    { rewrite Forall_forall in *. intros e He d t. apply IH; auto. }
    pose proof (length_join_lines_props depth ps Hc Hp) as Hlen.
    destruct (members_of depth ps) as [|m ms] eqn:Em.
    + apply (inj Some) in Hs. subst text.
      destruct ps as [|[k x] ps']; [cbn; lia|].
      exfalso. apply (members_of_nonempty depth k x ps'); [|exact Em].
      apply Forall_cons in Hp as [H _]. exact H.
    + apply (inj Some) in Hs. subst text. rewrite !length_app. cbn [length].
      lia.
Qed.

(** [JSON.parse(JSON.stringify(v, null, 2))] is [v], for every printable
    value. *)
Theorem JSON_parse_stringify v :
  printable v ->
  exists text, JSON_stringify v = Some text /\ JSON_parse text = Some v.
Proof.
  intros Hp. unfold JSON_stringify.
  destruct (serialize_printable 0%nat v Hp) as (text & Et & _).
  exists text. split; [exact Et|]. unfold JSON_parse.
  pose proof (cost_le_length v Hp 0%nat text Et) as Hc.
  pose proof (printable_reads_back v Hp 0%nat text []
                (2 * length text + 2)%nat Et I ltac:(lia)) as Hr.
  rewrite app_nil_r in Hr. rewrite Hr. reflexivity.
Qed.

(** ** The fuel of [JSON_parse] suffices for every text

    What is read leaves a suffix of the text, and beyond twice the length
    of the text more fuel changes nothing: a text that [JSON_parse]
    rejects is rejected with any fuel. *)

Lemma length_skip_ws s : (length (skip_ws s) <= length s)%nat.
Proof.
  induction s as [|c s IH]; [reflexivity|]. cbn [skip_ws].
  destruct (is_ws c); cbn [length]; lia.
Qed.

Lemma skip_ws_cons_length s c s1 :
  skip_ws s = c :: s1 -> (length s1 < length s)%nat.
Proof.
  intros E. pose proof (length_skip_ws s) as H. rewrite E in H.
  cbn [length] in H. lia.
Qed.

Lemma length_cons_fst {A B} (a : A) (r : option (list A * list B)) l b n :
  cons_fst a r = Some (l, b) ->
  (forall l' b', r = Some (l', b') -> (length b' <= n)%nat) ->
  (length b <= n)%nat.
Proof.
  destruct r as [[l' b']|]; [|discriminate]. cbn. intros [= <- <-] H.
  eapply H. reflexivity.
Qed.

Lemma length_parse_chars s k r :
  parse_chars s = Some (k, r) -> (length r < length s)%nat.
Proof.
  remember (length s) as n eqn:Hn. revert s k r Hn.
  induction n as [n IH] using lt_wf_ind. intros s k r Hn E.
  destruct s as [|c s1]; [discriminate|]. cbn [parse_chars] in E.
  cbn [length] in Hn. subst n.
  assert (Hrec : forall t k' r', (length t <= length s1)%nat ->
            parse_chars t = Some (k', r') -> (length r' < S (length s1))%nat).
  { intros t k' r' Ht Et.
    pose proof (IH (length t) ltac:(lia) t k' r' eq_refl Et). lia. }
  destruct (c =? 34); [injection E as <- <-; lia|].
  destruct (c =? 92).
  - destruct s1 as [|e s2]; [discriminate|].
    destruct (e =? 117).
    + destruct s2 as [|h1 [|h2 [|h3 [|h4 s3]]]]; try discriminate.
      destruct (hex4 h1 h2 h3 h4); [|discriminate].
      destruct (parse_chars s3) as [[k' r']|] eqn:E3; [|discriminate].
      injection E as <- <-.
      apply (Hrec s3 k' r'); [cbn [length]; lia|exact E3].
    + destruct (unescape e); [|discriminate].
      destruct (parse_chars s2) as [[k' r']|] eqn:E2; [|discriminate].
      injection E as <- <-.
      apply (Hrec s2 k' r'); [cbn [length]; lia|exact E2].
  - destruct (c <? 32); [discriminate|].
    destruct (parse_chars s1) as [[k' r']|] eqn:E1; [|discriminate].
    injection E as <- <-. apply (Hrec s1 k' r'); [lia|exact E1].
Qed.

Lemma length_span_digits s ds r :
  span_digits s = (ds, r) -> (length r <= length s)%nat.
Proof.
  revert ds r. induction s as [|c s IH]; intros ds r E; cbn [span_digits] in E.
  - injection E as <- <-. reflexivity.
  - destruct (is_digit c).
    + destruct (span_digits s) as [ds' r'] eqn:Es. injection E as <- <-.
      specialize (IH ds' r' eq_refl). cbn [length]. lia.
    + injection E as <- <-. reflexivity.
Qed.

Lemma length_parse_frac s fp r :
  parse_frac s = Some (fp, r) -> (length r <= length s)%nat.
Proof.
  destruct s as [|c s]; cbn [parse_frac]; [intros [= <- <-]; reflexivity|].
  destruct (c =? 46).
  - destruct (span_digits s) as [ds r'] eqn:Es.
    destruct ds; [discriminate|]. intros [= <- <-].
    apply length_span_digits in Es. cbn [length]. lia.
  - intros [= <- <-]. reflexivity.
Qed.

Lemma length_parse_exp s e r :
  parse_exp s = Some (e, r) -> (length r <= length s)%nat.
Proof.
  destruct s as [|c s]; cbn [parse_exp]; [intros [= <- <-]; reflexivity|].
  destruct ((c =? 101) || (c =? 69)); [|intros [= <- <-]; reflexivity].
  assert (H : forall t, (length t <= length s)%nat ->
            match span_digits t with
            | (ep, r0) =>
                match ep with
                | [] => None
                | _ :: _ => Some (e, r0)
                end
            end = Some (e, r) -> (length r <= length (c :: s))%nat).
  { intros t Ht. destruct (span_digits t) as [ep r0] eqn:Et.
    destruct ep; [discriminate|]. intros [= <-].
    apply length_span_digits in Et. cbn [length]. lia. }
  destruct s as [|g t].
  - cbn. discriminate.
  - destruct (g =? 45); [|destruct (g =? 43)].
    + destruct (span_digits t) as [ep r0] eqn:Et.
      destruct ep; [discriminate|]. intros [= _ <-].
      apply length_span_digits in Et. cbn [length]. lia.
    + destruct (span_digits t) as [ep r0] eqn:Et.
      destruct ep; [discriminate|]. intros [= _ <-].
      apply length_span_digits in Et. cbn [length]. lia.
    + destruct (span_digits (g :: t)) as [ep r0] eqn:Et.
      destruct ep; [discriminate|]. intros [= _ <-].
      apply length_span_digits in Et. cbn [length] in *. lia.
Qed.

Lemma length_parse_number s n r :
  parse_number s = Some (n, r) -> (length r <= length s)%nat.
Proof.
  unfold parse_number.
  assert (H : forall neg s0, (length s0 <= length s)%nat ->
    match span_digits s0 with
    | (ip, s1) =>
        match ip with
        | [] => None
        | d :: ip' =>
            if (d =? 0) && (match ip' with [] => false | _ :: _ => true end)
            then None
            else
              match parse_frac s1 with
              | None => None
              | Some (fp, s2) =>
                  match parse_exp s2 with
                  | None => None
                  | Some (e, s3) =>
                      Some (JsNum neg (digits_value (ip ++ fp))
                                  (e - Z.of_nat (length fp))%Z, s3)
                  end
              end
        end
    end = Some (n, r) -> (length r <= length s)%nat).
  { intros neg s0 Hs0.
    destruct (span_digits s0) as [ip s1] eqn:E0.
    destruct ip as [|d ip']; [discriminate|].
    destruct ((d =? 0) && _); [discriminate|].
    destruct (parse_frac s1) as [[fp s2]|] eqn:Ef; [|discriminate].
    destruct (parse_exp s2) as [[e s3]|] eqn:Ee; [|discriminate].
    intros [= _ <-].
    apply length_span_digits in E0. apply length_parse_frac in Ef.
    apply length_parse_exp in Ee. lia. }
  destruct s as [|c s']; [discriminate|].
  destruct (c =? 45).
  - apply H. cbn [length]. lia.
  - apply H. lia.
Qed.

Lemma length_expect w s r : expect w s = Some r -> (length r <= length s)%nat.
Proof.
  revert s. induction w as [|a w IH]; intros s; cbn [expect].
  - intros [= <-]. reflexivity.
  - destruct s as [|b s]; [discriminate|]. destruct (a =? b); [|discriminate].
    intros E. apply IH in E. cbn [length]. lia.
Qed.

Lemma length_parsed fuel :
  (forall s v r, parse_value fuel s = Some (v, r) -> (length r <= length s)%nat) /\
  (forall s es r, parse_elements fuel s = Some (es, r) ->
                  (length r <= length s)%nat) /\
  (forall s acc ps r, parse_members fuel s acc = Some (ps, r) ->
                      (length r <= length s)%nat).
Proof.
  induction fuel as [|fuel (IHv & IHe & IHm)];
    [split; [|split]; intros; discriminate|].
  split; [|split].
  - intros s v r E. cbn [parse_value] in E.
    destruct (skip_ws s) as [|c s1] eqn:Es; [discriminate|].
    apply skip_ws_cons_length in Es.
    destruct (c =? 123).
    { destruct (skip_ws s1) as [|d s2] eqn:Es1; [discriminate|].
      apply skip_ws_cons_length in Es1.
      destruct (d =? 125); [injection E as <- <-; lia|].
      destruct (parse_members fuel s1 []) as [[ps r']|] eqn:Em; [|discriminate].
      injection E as <- <-. apply IHm in Em. lia. }
    destruct (c =? 91).
    { destruct (skip_ws s1) as [|d s2] eqn:Es1; [discriminate|].
      apply skip_ws_cons_length in Es1.
      destruct (d =? 93); [injection E as <- <-; lia|].
      destruct (parse_elements fuel s1) as [[es r']|] eqn:Ee; [|discriminate].
      injection E as <- <-. apply IHe in Ee. lia. }
    destruct (c =? 34).
    { destruct (parse_chars s1) as [[str r']|] eqn:Ec; [|discriminate].
      injection E as <- <-. apply length_parse_chars in Ec. lia. }
    destruct (c =? 116).
    { destruct (expect (js "rue") s1) as [r'|] eqn:Ex; [|discriminate].
      injection E as <- <-. apply length_expect in Ex. lia. }
    destruct (c =? 102).
    { destruct (expect (js "alse") s1) as [r'|] eqn:Ex; [|discriminate].
      injection E as <- <-. apply length_expect in Ex. lia. }
    destruct (c =? 110).
    { destruct (expect (js "ull") s1) as [r'|] eqn:Ex; [|discriminate].
      injection E as <- <-. apply length_expect in Ex. lia. }
    destruct (parse_number (c :: s1)) as [[n r']|] eqn:En; [|discriminate].
    injection E as <- <-. apply length_parse_number in En.
    cbn [length] in En. lia.
  - intros s es r E. cbn [parse_elements] in E.
    destruct (parse_value fuel s) as [[v r0]|] eqn:Ev; [|discriminate].
    apply IHv in Ev.
    destruct (skip_ws r0) as [|c r1] eqn:Er; [discriminate|].
    apply skip_ws_cons_length in Er.
    destruct (c =? 93); [injection E as <- <-; lia|].
    destruct (c =? 44); [|discriminate].
    destruct (parse_elements fuel r1) as [[es' r']|] eqn:Ee; [|discriminate].
    injection E as <- <-. apply IHe in Ee. lia.
  - intros s acc ps r E. cbn [parse_members] in E.
    destruct (skip_ws s) as [|q s1] eqn:Es; [discriminate|].
    apply skip_ws_cons_length in Es.
    destruct (q =? 34); [|discriminate].
    destruct (parse_chars s1) as [[k s2]|] eqn:Ec; [|discriminate].
    apply length_parse_chars in Ec.
    destruct (skip_ws s2) as [|colon s3] eqn:Es2; [discriminate|].
    apply skip_ws_cons_length in Es2.
    destruct (colon =? 58); [|discriminate].
    destruct (parse_value fuel s3) as [[v r0]|] eqn:Ev; [|discriminate].
    apply IHv in Ev.
    destruct (skip_ws r0) as [|c r1] eqn:Er; [discriminate|].
    apply skip_ws_cons_length in Er.
    destruct (c =? 125); [injection E as <- <-; lia|].
    destruct (c =? 44); [|discriminate].
    apply IHm in E. lia.
Qed.

Lemma parse_elements_S fuel s :
  parse_elements (S fuel) s =
  match parse_value fuel s with
  | None => None
  | Some (v, r) =>
      match skip_ws r with
      | c :: r1 =>
          if c =? 93 then Some ([v], r1)
          else if c =? 44 then cons_fst v (parse_elements fuel r1)
          else None
      | [] => None
      end
  end.
Proof. reflexivity. Qed.

Lemma parse_members_S fuel s acc :
  parse_members (S fuel) s acc =
  match skip_ws s with
  | q :: s1 =>
      if q =? 34 then
        match parse_chars s1 with
        | None => None
        | Some (k, s2) =>
            match skip_ws s2 with
            | colon :: s3 =>
                if colon =? 58 then
                  match parse_value fuel s3 with
                  | None => None
                  | Some (v, r) =>
                      match skip_ws r with
                      | c :: r1 =>
                          if c =? 125 then Some (assign_prop k v acc, r1)
                          else if c =? 44
                               then parse_members fuel r1 (assign_prop k v acc)
                               else None
                      | [] => None
                      end
                  end
                else None
            | [] => None
            end
        end
      else None
  | [] => None
  end.
Proof. reflexivity. Qed.

Lemma fuel_step fuel :
  (forall s, (2 * length s + 1 <= fuel)%nat ->
             parse_value (S fuel) s = parse_value fuel s) /\
  (forall s, (2 * length s + 2 <= fuel)%nat ->
             parse_elements (S fuel) s = parse_elements fuel s) /\
  (forall s acc, (2 * length s + 2 <= fuel)%nat ->
                 parse_members (S fuel) s acc = parse_members fuel s acc).
Proof.
  induction fuel as [|fuel (IHv & IHe & IHm)];
    [split; [|split]; intros; lia|].
  split; [|split].
  - intros s Hs. cbn [parse_value].
    destruct (skip_ws s) as [|c s1] eqn:Es; [reflexivity|].
    apply skip_ws_cons_length in Es.
    rewrite (IHm s1 []) by lia. rewrite (IHe s1) by lia. reflexivity.
  - intros s Hs. rewrite (parse_elements_S (S fuel)), (parse_elements_S fuel).
    rewrite (IHv s) by lia.
    destruct (parse_value fuel s) as [[v r]|] eqn:Ev; [|reflexivity].
    apply (proj1 (length_parsed fuel)) in Ev.
    destruct (skip_ws r) as [|c r1] eqn:Er; [reflexivity|].
    apply skip_ws_cons_length in Er.
    rewrite (IHe r1) by lia. reflexivity.
  - intros s acc Hs.
    rewrite (parse_members_S (S fuel)), (parse_members_S fuel).
    destruct (skip_ws s) as [|q s1] eqn:Es; [reflexivity|].
    apply skip_ws_cons_length in Es.
    destruct (q =? 34); [|reflexivity].
    destruct (parse_chars s1) as [[k s2]|] eqn:Ec; [|reflexivity].
    apply length_parse_chars in Ec.
    destruct (skip_ws s2) as [|colon s3] eqn:Es2; [reflexivity|].
    apply skip_ws_cons_length in Es2.
    destruct (colon =? 58); [|reflexivity].
    rewrite (IHv s3) by lia.
    destruct (parse_value fuel s3) as [[v r]|] eqn:Ev; [|reflexivity].
    apply (proj1 (length_parsed fuel)) in Ev.
    destruct (skip_ws r) as [|c r1] eqn:Er; [reflexivity|].
    apply skip_ws_cons_length in Er.
    rewrite (IHm r1) by lia. reflexivity.
Qed.

(** More fuel than [JSON_parse] supplies reads the same value: what
    [JSON_parse] rejects is a syntax error of the text, never a lack of
    fuel. *)
Lemma JSON_parse_fuel text fuel :
  (2 * length text + 2 <= fuel)%nat ->
  parse_value fuel text = parse_value (2 * length text + 2) text.
Proof.
  intros H. induction H as [|fuel H IH]; [reflexivity|].
  rewrite <- IH. apply (proj1 (fuel_step fuel)). lia.
Qed.
(* ===================================================================== *)
(** * The decision engine: proofs *)
(* ===================================================================== *)

Lemma parseAgentDecision_decision_of now response :
  parseAgentDecision now response = Ok (decision_of now response).
Proof.
  unfold parseAgentDecision, parseAgentDecision_try, decision_of,
    extracted_payload, valid_structure.
  unfold_monad.
  destruct (match_braces response) as [m|]; [|reflexivity].
  destruct (JSON_parse m) as [v|]; [|reflexivity].
  destruct (get v k_shouldIntervene) as [a|e]; [|reflexivity].
  destruct (get v k_intervention) as [b|e], (get v k_reasoning) as [c|e'];
    destruct (is_boolean a); simpl; try reflexivity;
    try (destruct (truthy b); simpl; try reflexivity);
    try (destruct (truthy c); reflexivity).
Qed.

Lemma decision_of_no_payload now response :
  well_formed_response response = false ->
  decision_of now response = getDefaultDecision now.
Proof.
  unfold well_formed_response, decision_of.
  destruct (extracted_payload response) as [v|]; [|reflexivity].
  intros ->. reflexivity.
Qed.

Lemma default_shouldIntervene now :
  get (getDefaultDecision now) k_shouldIntervene = Ok (JSBool false).
Proof. reflexivity. Qed.

Lemma default_intervention_type now :
  intervention_type (getDefaultDecision now) = Some (JSString t_none).
Proof. reflexivity. Qed.

Lemma default_confidence now :
  get (getDefaultDecision now) k_confidence = Ok (JSNumber (num_of_N 0)).
Proof. reflexivity. Qed.

(** C1, amended.  When the backend call fails, or [parseAgentDecision]
    extracts from the response no payload that passes its own check (no
    text from a first opening to a last closing brace, a text there that
    [JSON.parse] rejects, or a value whose [shouldIntervene] is no
    boolean or whose [intervention] or [reasoning] is falsy),
    [decideIntervention] returns normally (it does not throw), its result
    is the default decision, in which [shouldIntervene] is false, the
    intervention type is "none" and the confidence is 0, and the history
    is left as it was. *)
Theorem decideIntervention_fails_closed now run h :
  no_decision run ->
  decideIntervention now run h = (Ok (getDefaultDecision now), h) /\
  get (getDefaultDecision now) k_shouldIntervene = Ok (JSBool false) /\
  intervention_type (getDefaultDecision now) = Some (JSString t_none) /\
  get (getDefaultDecision now) k_confidence = Ok (JSNumber (num_of_N 0)).
Proof.
  intros Hno. split; [|auto using default_shouldIntervene,
    default_intervention_type, default_confidence].
  unfold decideIntervention. unfold_monad.
  destruct run as [events|received e]; simpl in *; [|reflexivity].
  rewrite parseAgentDecision_decision_of.
  rewrite (decision_of_no_payload _ _ Hno). reflexivity.
Qed.

Lemma decideIntervention_fails_closed_witness :
  decideIntervention 1700000000000 (Failed [TextEvent (jsq "{'shouldInt")] IOError) []
    = (Ok (getDefaultDecision 1700000000000), []) /\
  decideIntervention 1700000000000
    (Completed [TextEvent (jsq "You should take a break. {'shouldIntervene': 'yes', ");
                OtherEvent;
                TextEvent (jsq "'intervention': {'type': 'alarm'}, 'reasoning': 'idle'}")]) []
    = (Ok (getDefaultDecision 1700000000000), []).
Proof.
  split.
  - apply (decideIntervention_fails_closed 1700000000000
             (Failed [TextEvent (jsq "{'shouldInt")] IOError) []). exact I.
  - apply (decideIntervention_fails_closed 1700000000000
             (Completed [TextEvent (jsq "You should take a break. {'shouldIntervene': 'yes', ");
                OtherEvent;
                TextEvent (jsq "'intervention': {'type': 'alarm'}, 'reasoning': 'idle'}")]) []).
    vm_compute. reflexivity.
Defined.

(** ** Payloads that the specification calls malformed *)

Lemma prefixes_app {A} (t rest : list A) : In t (prefixes (t ++ rest)).
Proof.
  induction t as [|a t IH]; [destruct rest; left; reflexivity|].
  cbn [app prefixes]. right. apply in_map, IH.
Qed.

Lemma segments_prefixes {A} (t l : list A) :
  In t (prefixes l) -> In t (segments l).
Proof.
  intros H. destruct l; unfold segments; fold (@segments A);
    apply in_or_app; left; exact H.
Qed.

Lemma segments_app {A} (before t rest : list A) :
  In t (segments (before ++ t ++ rest)).
Proof.
  induction before as [|a before IH].
  - change ([] ++ t ++ rest) with (t ++ rest).
    apply segments_prefixes, prefixes_app.
  - change ((a :: before) ++ t ++ rest) with (a :: (before ++ t ++ rest)).
    unfold segments; fold (@segments A). apply in_or_app. right. exact IH.
Qed.

(** No part of the text is a payload with the required fields, when the
    search through its parts finds none. *)
Lemma no_payload_found response :
  existsb is_required_payload (segments response) = false ->
  ~ carries_required_payload response.
Proof.
  intros Hnone (before & payload & rest & v & -> & Hp & Hv).
  assert (H : existsb is_required_payload
                (segments (before ++ payload ++ rest)) = true).
  { apply existsb_exists. exists payload. split; [apply segments_app|].
    unfold is_required_payload. rewrite Hp. exact Hv. }
  congruence.
Qed.

(** C1, as the specification states it, fails: from the response
    [intervention_as_string] no payload with the required fields can be
    extracted, its [intervention] being a string, and yet
    [decideIntervention] does not return the safe default: it returns the
    payload, in which [shouldIntervene] is true. *)
Lemma malformed_payload_is_not_defaulted :
  ~ (forall now run h d h',
        no_required_payload run ->
        decideIntervention now run h = (Ok d, h') -> safe_default d).
Proof.
  intros H.
  assert (Hno : no_required_payload (Completed [TextEvent intervention_as_string])).
  { apply no_payload_found. vm_compute. reflexivity. }
  destruct (H 0 (Completed [TextEvent intervention_as_string]) [] _ [JSString (js "alarm")] Hno
              ltac:(vm_compute; reflexivity)) as (Hs & _).
  vm_compute in Hs. discriminate Hs.
Qed.

(** The same holds of an intervention without a type and of one with a
    type outside the four: the decision intervenes, and the intervention
    enters the history. *)
Lemma malformed_payloads_intervene :
  Forall (fun response =>
            no_required_payload (Completed [TextEvent response]) /\
            exists d i,
              decideIntervention 0 (Completed [TextEvent response]) []
                = (Ok d, [i]) /\
              get d k_shouldIntervene = Ok (JSBool true) /\
              get d k_intervention = Ok i)
         [intervention_as_string; intervention_without_type;
          intervention_of_other_type].
Proof.
  repeat (apply Forall_cons_2;
          [split; [apply no_payload_found; vm_compute; reflexivity|];
           do 2 eexists; split; [vm_compute; reflexivity|];
           split; reflexivity|]).
  apply Forall_nil_2.
Qed.

Lemma valid_structure_validated v :
  valid_structure v = true -> validated v.
Proof.
  unfold valid_structure, validated.
  destruct (get v k_shouldIntervene) as [a|]; [|discriminate].
  destruct (get v k_intervention) as [b|]; [|discriminate].
  destruct (get v k_reasoning) as [c|]; [|discriminate].
  intros H. apply andb_prop in H as [H Hc]. apply andb_prop in H as [Ha Hb].
  split; [|split].
  - destruct a; try discriminate. eauto.
  - eauto.
  - exists c. repeat split; auto. intros str -> ->. discriminate.
Qed.

Lemma default_invariants now : decision_invariants (getDefaultDecision now).
Proof.
  split; [|split].
  - exists t_none. split; [reflexivity|]. unfold intervention_types.
    repeat constructor.
  - eexists. split; [reflexivity|]. vm_compute. discriminate.
  - intros _. reflexivity.
Qed.

(** A completed run returns the decision its response leads to, and appends
    the intervention of an intervening one. *)
Lemma decideIntervention_completed now events h :
  let d := decision_of now (responseText events) in
  decideIntervention now (Completed events) h =
    (Ok d, match appended_record (now, Completed events) with
           | Some i => (addToHistory i h).2
           | None => h
           end).
Proof.
  intros d. unfold decideIntervention, appended_record. unfold_monad. simpl.
  rewrite parseAgentDecision_decision_of. fold d.
  assert (Hd : d = getDefaultDecision now \/ valid_structure d = true).
  { unfold d, decision_of. destruct (extracted_payload _) as [v|]; auto.
    destruct (valid_structure v) eqn:E; auto. }
  destruct Hd as [-> | Hv]; [reflexivity|].
  unfold valid_structure in Hv.
  destruct (get d k_shouldIntervene) as [a|]; [|discriminate].
  destruct (get d k_intervention) as [b|]; [|discriminate].
  destruct (truthy a); reflexivity.
Qed.

Lemma decideIntervention_failed now received e h :
  decideIntervention now (Failed received e) h = (Ok (getDefaultDecision now), h).
Proof. reflexivity. Qed.

(** [decideIntervention] never throws. *)
Lemma decideIntervention_returns now run h :
  exists d h', decideIntervention now run h = (Ok d, h').
Proof.
  destruct run.
  - rewrite decideIntervention_completed. eauto.
  - rewrite decideIntervention_failed. eauto.
Qed.

(** C2, as the specification states it, fails: the response
    [idle_but_alarm] passes the validation and is returned as it is, with
    [shouldIntervene] false and the intervention type "alarm". *)
Lemma parsed_decision_breaks_kind_invariant :
  ~ (forall now run h d h',
        decideIntervention now run h = (Ok d, h') -> decision_invariants d).
Proof.
  intros H.
  destruct (H 0 (Completed [TextEvent idle_but_alarm]) [] _ []
              ltac:(vm_compute; reflexivity)) as (_ & _ & Hk).
  specialize (Hk ltac:(vm_compute; reflexivity)).
  vm_compute in Hk. discriminate Hk.
Qed.

(** Nor is the type checked against the enumeration: the response
    [unlisted_type] is returned as it is, and it goes into the history. *)
Lemma parsed_decision_with_unlisted_type :
  exists d,
    decideIntervention 0 (Completed [TextEvent unlisted_type]) [] =
      (Ok d, [JSObject [(k_type, JSString (js "popup"));
                        (k_message, JSString (js "Hi"))]]) /\
    get d k_shouldIntervene = Ok (JSBool true) /\
    intervention_type d = Some (JSString (js "popup")) /\
    ~ type_in_enum d.
Proof.
  eexists. split; [vm_compute; reflexivity|].
  split; [reflexivity|]. split; [reflexivity|].
  intros (t & Ht & Hin). vm_compute in Ht. injection Ht as <-.
  unfold intervention_types in Hin.
  repeat (apply elem_of_cons in Hin as [Hin|Hin];
          [vm_compute in Hin; discriminate Hin|]).
  apply elem_of_nil in Hin. exact Hin.
Qed.

(** C2, amended.  For every run of the backend, [decideIntervention]
    returns normally, and its decision is either the default decision,
    which has a type of the enumeration, a non-empty reasoning, and type
    "none" with [shouldIntervene] false, or the payload extracted from the
    response, unchanged, in which [shouldIntervene] is a boolean and
    [intervention] and [reasoning] are truthy (so a reasoning that is a
    string is not empty). *)
Theorem decideIntervention_default_or_validated now run h :
  exists d h',
    decideIntervention now run h = (Ok d, h') /\
    ((d = getDefaultDecision now /\ decision_invariants d) \/
     (exists events, run = Completed events /\
        extracted_payload (responseText events) = Some d /\ validated d)).
Proof.
  destruct run as [events|received e].
  - rewrite decideIntervention_completed. do 2 eexists. split; [reflexivity|].
    unfold decision_of.
    destruct (extracted_payload (responseText events)) as [v|] eqn:E.
    + destruct (valid_structure v) eqn:Hv.
      * right. exists events. auto using valid_structure_validated.
      * left. auto using default_invariants.
    + left. auto using default_invariants.
  - rewrite decideIntervention_failed. do 2 eexists. split; [reflexivity|].
    left. auto using default_invariants.
Qed.

(** ** The bounded history *)

Lemma last_n_short {A} n (l : list A) : (length l <= n)%nat -> last_n n l = l.
Proof.
  intros H. unfold last_n. replace (length l - n)%nat with 0%nat by lia.
  reflexivity.
Qed.

Lemma last_n_length {A} n (l : list A) :
  (n <= length l)%nat -> length (last_n n l) = n.
Proof. intros H. unfold last_n. rewrite length_drop. lia. Qed.

Lemma last_n_app_last_n {A} n (a b : list A) :
  last_n n (last_n n a ++ b) = last_n n (a ++ b).
Proof.
  destruct (decide (length a <= n)%nat) as [Hle|Hgt].
  - rewrite (last_n_short n a) by lia. reflexivity.
  - unfold last_n at 1 3. rewrite !length_app, last_n_length by lia.
    replace (n + length b - n)%nat with (length b) by lia.
    replace (length a + length b - n)%nat with ((length a - n) + length b)%nat
      by lia.
    rewrite <- drop_drop. rewrite (drop_app_le a b (length a - n)) by lia.
    reflexivity.
Qed.

Lemma addToHistory_last_n i h :
  (length h <= maxHistorySize)%nat ->
  (addToHistory i h).2 = last_n maxHistorySize (h ++ [i]).
Proof.
  intros H. unfold addToHistory, last_n. simpl snd.
  rewrite length_app. simpl length.
  destruct (Nat.ltb_spec maxHistorySize (length h + 1)) as [Hlt|Hge].
  - replace (length h + 1 - maxHistorySize)%nat with 1%nat by lia.
    destruct h; reflexivity.
  - replace (length h + 1 - maxHistorySize)%nat with 0%nat by lia.
    reflexivity.
Qed.

Lemma decideIntervention_history now run h :
  (decideIntervention now run h).2 =
    match appended_record (now, run) with
    | Some i => (addToHistory i h).2
    | None => h
    end.
Proof.
  destruct run.
  - rewrite decideIntervention_completed. reflexivity.
  - reflexivity.
Qed.

(** From a history within the cap, the history after a series of decisions
    holds the last [maxHistorySize] of the records appended so far. *)
Lemma history_after_last_n runs h :
  (length h <= maxHistorySize)%nat ->
  history_after runs h = last_n maxHistorySize (h ++ appended_records runs).
Proof.
  revert h. induction runs as [|[now run] runs IH]; intros h Hh.
  - simpl. rewrite app_nil_r, last_n_short; auto.
  - simpl history_after. rewrite decideIntervention_history.
    unfold appended_records. simpl omap.
    destruct (appended_record (now, run)) as [i|].
    + rewrite IH.
      * rewrite addToHistory_last_n by auto.
        rewrite last_n_app_last_n, <- app_assoc. reflexivity.
      * rewrite addToHistory_last_n by auto. unfold last_n.
        rewrite length_drop. lia.
    + apply IH; auto.
Qed.

(** C4. After a series of decisions of which N+k intervene (N = 10, the
    cap), the history of a fresh agent has exactly N records: the N most
    recently appended ones, in the order they were appended, the k oldest
    having been evicted. *)
Theorem history_keeps_most_recent runs k :
  length (appended_records runs) = (maxHistorySize + k)%nat ->
  length (history_after runs []) = maxHistorySize /\
  history_after runs [] = drop k (appended_records runs).
Proof.
  intros Hlen. rewrite history_after_last_n by (simpl; lia).
  simpl app. split.
  - apply last_n_length. lia.
  - unfold last_n. f_equal. lia.
Qed.

Lemma history_keeps_most_recent_witness :
  length (history_after (alarm_runs 12) []) = maxHistorySize /\
  history_after (alarm_runs 12) [] = drop 2 (appended_records (alarm_runs 12)).
Proof.
  apply (history_keeps_most_recent (alarm_runs 12) 2).
  vm_compute. reflexivity.
Defined.

(** ** Recording the effectiveness *)

Lemma lookup_assign_eq k v ps : lookup_prop k (assign_prop k v ps) = Some v.
Proof.
  induction ps as [|[k' v'] ps IH]; simpl.
  - rewrite decide_True by reflexivity. reflexivity.
  - destruct (decide (k = k')) as [->|Hne]; simpl.
    + rewrite decide_True by reflexivity. reflexivity.
    + rewrite decide_False by assumption. exact IH.
Qed.

Lemma lookup_assign_ne k k' v ps :
  k' <> k -> lookup_prop k' (assign_prop k v ps) = lookup_prop k' ps.
Proof.
  intros Hne. induction ps as [|[k0 v0] ps IH]; simpl.
  - rewrite decide_False by assumption. reflexivity.
  - destruct (decide (k = k0)) as [->|Hne0]; simpl.
    + rewrite !decide_False by assumption. reflexivity.
    + destruct (decide (k' = k0)); [reflexivity|exact IH].
Qed.

Lemma set_record v k x :
  is_record v = true ->
  exists v', set v k x = Ok v' /\ get v' k = Ok x /\
             is_record v' = true.
Proof.
  destruct v; try discriminate; intros _; simpl; eexists;
    (split; [reflexivity|]); simpl; rewrite lookup_assign_eq; auto.
Qed.

Lemma set_same_but v x v' :
  set v k_wasEffective x = Ok v' -> same_but_wasEffective v v'.
Proof.
  destruct v; simpl; try discriminate; intros [= <-]; simpl.
  - split; [reflexivity|]. intros k Hk. apply lookup_assign_ne. exact Hk.
  - intros k Hk. apply lookup_assign_ne. exact Hk.
Qed.

Lemma same_but_refl v : same_but_wasEffective v v.
Proof. destruct v; simpl; auto. Qed.

Lemma recordInterventionEffectiveness_nil b :
  recordInterventionEffectiveness b [] = (Ok tt, []).
Proof. reflexivity. Qed.

(** With [x] the last record: the outcome is that of the assignment
    [x.wasEffective = b]. *)
Lemma recordInterventionEffectiveness_snoc b init x :
  recordInterventionEffectiveness b (init ++ [x]) =
    match set x k_wasEffective (JSBool b) with
    | Ok x' => (Ok tt, init ++ [x'])
    | Throw e => (Throw e, init ++ [x])
    end.
Proof.
  unfold recordInterventionEffectiveness.
  rewrite length_app. simpl length.
  replace (length init + 1 - 1)%nat with (length init) by lia.
  destruct (Nat.ltb_spec 0 (length init + 1)) as [_|H]; [|lia].
  rewrite lookup_app_r by lia. rewrite Nat.sub_diag. simpl.
  destruct (set x k_wasEffective (JSBool b)) as [x'|e]; [|reflexivity].
  f_equal. rewrite insert_app_r_alt by lia. rewrite Nat.sub_diag. reflexivity.
Qed.

Lemma last_snoc_inv {A} (h : list A) x :
  last h = Some x -> exists init, h = init ++ [x].
Proof.
  intros H. destruct (exists_last (l := h)) as (init & y & ->).
  - intros ->. discriminate.
  - rewrite last_snoc in H. injection H as ->. eauto.
Qed.

Lemma recordInterventionEffectiveness_frame b h : touches_last_score_only b h.
Proof.
  intros r h' E.
  destruct h as [|y h0] using rev_ind.
  - rewrite recordInterventionEffectiveness_nil in E. injection E as <- <-.
    repeat split; auto. intros x [=].
  - clear IHh0. rewrite recordInterventionEffectiveness_snoc in E.
    destruct (set y k_wasEffective (JSBool b)) as [y'|e] eqn:Es;
      injection E as <- <-.
    + rewrite !length_app. simpl. repeat split; auto.
      * intros i Hi. rewrite !lookup_app_l by lia. reflexivity.
      * intros x Hx. rewrite last_snoc in Hx. injection Hx as <-.
        exists y'. rewrite last_snoc. eauto using set_same_but.
    + repeat split; auto. intros x Hx. exists x. eauto using same_but_refl.
Qed.

(** C5, as the specification states it, fails: on a history that ends with
    an alarm scored as effective, recording [false] is not a no-op; it
    overwrites the score. *)
Lemma rescoring_is_not_a_noop : ~ effectiveness_recorded_once.
Proof.
  intros H. destruct (H false [scored_alarm]) as (_ & _ & Hnoop).
  specialize (Hnoop scored_alarm eq_refl).
  assert (Hs : scored scored_alarm).
  { exists (JSBool true). split; [reflexivity|discriminate]. }
  specialize (Hnoop Hs). vm_compute in Hnoop. discriminate Hnoop.
Qed.

(** C5, amended.  [recordInterventionEffectiveness(wasEffective)] touches
    only the [wasEffective] property of the most recently appended record:
    the length of the history, every other record, and every other
    property of the last record stay as they were.  On an empty history it
    is a no-op and does not throw.  When the last record is an object, it
    returns normally and the record's [wasEffective] is the value given,
    whether or not the record had been scored before. *)
Theorem recordInterventionEffectiveness_sets_last_score b h :
  touches_last_score_only b h /\
  (h = [] -> recordInterventionEffectiveness b h = (Ok tt, [])) /\
  (forall x, last h = Some x -> is_record x = true ->
     exists h' x',
       recordInterventionEffectiveness b h = (Ok tt, h') /\
       last h' = Some x' /\ get x' k_wasEffective = Ok (JSBool b)).
Proof.
  split; [apply recordInterventionEffectiveness_frame|]. split.
  - intros ->. reflexivity.
  - intros x Hx Hrec. apply last_snoc_inv in Hx as [init ->].
    rewrite recordInterventionEffectiveness_snoc.
    destruct (set_record x k_wasEffective (JSBool b) Hrec) as (x' & -> & Hg & _).
    exists (init ++ [x']), x'. rewrite last_snoc. auto.
Qed.

Lemma recordInterventionEffectiveness_sets_last_score_witness :
  exists h' x',
    recordInterventionEffectiveness false [scored_alarm] = (Ok tt, h') /\
    last h' = Some x' /\ get x' k_wasEffective = Ok (JSBool false).
Proof.
  destruct (recordInterventionEffectiveness_sets_last_score false [scored_alarm])
    as (_ & _ & H).
  apply (H scored_alarm); reflexivity.
Defined.

(* ===================================================================== *)
(** * The behavioural memory: proofs *)
(* ===================================================================== *)

(** ** The moving average *)

Lemma ema_is_ema_step b r : ema b r = ema_step b r.
Proof. reflexivity. Qed.

Lemma rate_feed samples m :
  rate (feed samples m) = fold_left (fun r b => ema_step b r) samples (rate m).
Proof.
  revert m. induction samples as [|b samples IH]; intros m; [reflexivity|].
  simpl. rewrite IH. reflexivity.
Qed.

(** C3, as the specification states it, fails: from the rate 0.5 an
    effective sample gives the double above the one nearest to 0.6. *)
Lemma ema_of_half_is_not_six_tenths :
  rate (updateInterventionEffectiveness true (constructor 0)) <> six_tenths.
Proof. vm_compute. intros H. discriminate H. Qed.

(** C3, amended.  For every starting rate and every series of samples,
    applying [updateInterventionEffectiveness] in order gives the
    exponential moving average with weight 0.2: each step maps the rate
    [r] and the sample [b] to [0.2 * (b ? 1 : 0) + 0.8 * r] evaluated in
    binary64.  From 0.5 an effective sample gives 0.6000000000000001 and
    an ineffective one after it 0.4800000000000001: 0.6 and 0.48 up to
    the rounding of binary64, within 2^-52. *)
Theorem effectiveness_rate_is_moving_average samples m :
  rate (feed samples m) = fold_left (fun r b => ema_step b r) samples (rate m) /\
  ema_step true 0.5 = six_tenths_and_an_ulp /\
  ema_step false six_tenths_and_an_ulp = forty_eight_hundredths_and_two_ulps /\
  rate (feed [true; false] (constructor 0)) = forty_eight_hundredths_and_two_ulps /\
  Number_digits six_tenths_and_an_ulp = Some (JsNum false 6000000000000001 (-16)) /\
  Number_digits forty_eight_hundredths_and_two_ulps
    = Some (JsNum false 4800000000000001 (-16)) /\
  (abs (six_tenths_and_an_ulp - six_tenths) <=? 0x1p-52)%float = true /\
  (abs (forty_eight_hundredths_and_two_ulps - forty_eight_hundredths)
     <=? 0x1p-52)%float = true.
Proof.
  split; [apply rate_feed|].
  repeat split; vm_compute; reflexivity.
Qed.

(** ** Persistence *)

Lemma serialize_object depth ps : exists text, serialize depth (JSObject ps) = Some text.
Proof.
  simpl. match goal with |- context [match ?l with [] => _ | _ :: _ => _ end] =>
    destruct l end; eauto.
Qed.

Lemma document_serializes m : exists text, JSON_stringify (document m) = Some text.
Proof. apply serialize_object. Qed.

(** [save] writes the document whole, or throws and leaves the file. *)
Lemma save_outcome write_ok w :
  exists text, JSON_stringify (document (mem w)) = Some text /\
    save write_ok w = if write_ok then Returns (mkWorld (mem w) (Some text))
                      else Throws IOError w.
Proof.
  destruct (document_serializes (mem w)) as [text E]. exists text.
  split; [exact E|]. unfold save. rewrite E. reflexivity.
Qed.

(** [load] never throws: every exception of its body is caught. *)
Lemma load_never_throws w e w' : load w <> Throws e w'.
Proof.
  unfold load. repeat case_match; discriminate.
Qed.

Lemma load_try_unreadable m file :
  unreadable file -> exists e, load_try (mkWorld m file) = Throw e.
Proof.
  unfold load_try. unfold_monad. simpl.
  destruct file as [text|]; simpl; [|eauto].
  intros ->. eauto.
Qed.

(** C9. [load] never raises to its caller, whatever the store and the
    file; when the file is missing or its content does not parse, it
    returns normally and leaves a fresh store in its cold-start defaults:
    no sessions, no open session, and the neutral profile with
    effectiveness rate 0.5, zero counters and empty histograms. *)
Theorem load_cold_start now file :
  unreadable file ->
  let w := mkWorld (constructor now) file in
  (forall w0 e w', load w0 <> Throws e w') /\
  load w = Returns w /\
  sessions (mem w) = [] /\
  currentSession (mem w) = None /\
  interventionEffectivenessRate (userProfile (mem w)) = 0.5%float /\
  totalSessions (userProfile (mem w)) = 0 /\
  productiveSessions (userProfile (mem w)) = 0 /\
  totalInterventions (userProfile (mem w)) = 0 /\
  productiveHoursMap (userProfile (mem w)) = ∅ /\
  unproductiveHoursMap (userProfile (mem w)) = ∅.
Proof.
  intros Hfile w. split; [intros w0 e w'; apply load_never_throws|].
  split; [|repeat split].
  unfold load. destruct (load_try_unreadable (constructor now) file Hfile) as [e E].
  fold w in E. rewrite E. reflexivity.
Qed.

Lemma load_cold_start_witness :
  load (mkWorld (constructor 1700000000000) None)
    = Returns (mkWorld (constructor 1700000000000) None) /\
  load (mkWorld (constructor 1700000000000) (Some (jsq "{'sessions': [}")))
    = Returns (mkWorld (constructor 1700000000000) (Some (jsq "{'sessions': [}"))).
Proof.
  split.
  - apply (load_cold_start 1700000000000 None). exact I.
  - apply (load_cold_start 1700000000000 (Some (jsq "{'sessions': [}"))).
    vm_compute. reflexivity.
Defined.

(** C10. Without an open session [recordIntervention] returns normally and
    changes nothing: not the counters, not the file.  With an open session
    it adds one to the session's [interventionsCount] and to the profile's
    [totalInterventions] and saves at once: the file then holds the
    document of the new state, or, when the write fails, the call throws
    with the counters already incremented. *)
Theorem recordIntervention_needs_open_session write_ok w :
  (currentSession (mem w) = None -> recordIntervention write_ok w = Returns w) /\
  (forall cur, currentSession (mem w) = Some cur ->
     let w' := after (recordIntervention write_ok w) w in
     (currentSession (mem w') =
        Some (mkSession (startTime cur) (endTime cur) (wasProductive cur)
                        (interventionsCount cur + 1) (activitySummary cur))) /\
     totalInterventions (userProfile (mem w'))
       = totalInterventions (userProfile (mem w)) + 1 /\
     sessions (mem w') = sessions (mem w) /\
     (if write_ok
      then recordIntervention write_ok w = Returns w' /\
           disk w' = JSON_stringify (document (mem w'))
      else recordIntervention write_ok w = Throws IOError w' /\
           disk w' = disk w)).
Proof.
  split.
  - intros H. unfold recordIntervention. rewrite H. reflexivity.
  - intros cur H. cbv zeta. unfold recordIntervention. rewrite H.
    match goal with |- context [save write_ok ?x] =>
      destruct (save_outcome write_ok x) as (text & Et & Es) end.
    rewrite Es. destruct write_ok; simpl; repeat split; auto.
Qed.

Lemma recordIntervention_needs_open_session_witness :
  recordIntervention true (mkWorld (constructor 1700000000000) None)
    = Returns (mkWorld (constructor 1700000000000) None) /\
  totalInterventions
    (userProfile (mem (after
       (recordIntervention true
          (after (startSession 1700000000000 true
                    (mkWorld (constructor 1700000000000) None))
                 (mkWorld (constructor 1700000000000) None)))
       (mkWorld (constructor 1700000000000) None)))) = 1.
Proof.
  split.
  - apply (recordIntervention_needs_open_session true
             (mkWorld (constructor 1700000000000) None)). reflexivity.
  - eapply (recordIntervention_needs_open_session true
             (after (startSession 1700000000000 true
                      (mkWorld (constructor 1700000000000) None))
                    (mkWorld (constructor 1700000000000) None))).
    vm_compute. reflexivity.
Defined.

(** ** Session accounting *)

Lemma mem_after_save write_ok w w0 : mem (after (save write_ok w) w0) = mem w.
Proof.
  destruct (save_outcome write_ok w) as (text & _ & ->).
  destruct write_ok; reflexivity.
Qed.

Lemma count_bump_eq h m : count (bump h m) h = count m h + 1.
Proof. unfold count, bump. rewrite lookup_insert_eq. reflexivity. Qed.

Lemma lookup_bump_ne h h' m : h' <> h -> bump h m !! h' = m !! h'.
Proof. intros H. unfold bump. rewrite lookup_insert_ne by congruence. reflexivity. Qed.

Lemma updateUserProfile_buckets getHours s now p :
  one_bucket_up (wasProductive s) (getHours (startTime s)) p
                (updateUserProfile getHours s now p).
Proof.
  unfold one_bucket_up, updateUserProfile, histogram.
  destruct (wasProductive s); simpl;
    auto using count_bump_eq, lookup_bump_ne.
Qed.

Lemma updateUserProfile_counters getHours s now p :
  let p' := updateUserProfile getHours s now p in
  totalSessions p' = totalSessions p + 1 /\
  productiveSessions p' =
    productiveSessions p + (if wasProductive s then 1 else 0).
Proof.
  unfold updateUserProfile. destruct (wasProductive s); simpl; split; lia.
Qed.

(** What [endSession] leaves in memory when a session is open. *)
Lemma endSession_open getHours endNow updNow write_ok productive summary w cur :
  currentSession (mem w) = Some cur ->
  let closed := mkSession (startTime cur) (Some endNow) productive
                          (interventionsCount cur) summary in
  let w' := after (endSession getHours endNow updNow write_ok productive summary w) w in
  userProfile (mem w') = updateUserProfile getHours closed updNow (userProfile (mem w)) /\
  currentSession (mem w') = None.
Proof.
  intros H. cbv zeta. unfold endSession. rewrite H.
  rewrite mem_after_save. split; reflexivity.
Qed.

Lemma call_keeps_accounting getHours c w :
  productiveSessions (userProfile (mem w)) <= totalSessions (userProfile (mem w)) ->
  let w' := after (call getHours c w) w in
  productiveSessions (userProfile (mem w')) <= totalSessions (userProfile (mem w')).
Proof.
  intros Hinv. destruct c as [now ok | endNow updNow ok productive summary];
    cbv zeta; simpl call.
  - unfold startSession. rewrite mem_after_save. exact Hinv.
  - destruct (currentSession (mem w)) as [cur|] eqn:Hcur.
    + destruct (endSession_open getHours endNow updNow ok productive summary
                  w cur Hcur) as [-> _].
      destruct (updateUserProfile_counters getHours
                  (mkSession (startTime cur) (Some endNow) productive
                             (interventionsCount cur) summary)
                  updNow (userProfile (mem w))) as [-> ->].
      simpl. destruct productive; lia.
    + unfold endSession. rewrite Hcur. exact Hinv.
Qed.

Lemma run_calls_accounting getHours calls w :
  productiveSessions (userProfile (mem w)) <= totalSessions (userProfile (mem w)) ->
  let w' := run_calls getHours calls w in
  productiveSessions (userProfile (mem w')) <= totalSessions (userProfile (mem w')).
Proof.
  revert w. induction calls as [|c calls IH]; intros w Hinv; [exact Hinv|].
  simpl. apply IH. apply call_keeps_accounting. exact Hinv.
Qed.

(** C6. After any series of [startSession] and [endSession] calls on a
    store that starts with the neutral profile, [productiveSessions] is at
    most [totalSessions]; and an [endSession] that finds a session open
    adds exactly one to exactly one histogram bucket: that of the hour of
    the session's start time, in [productiveHoursMap] when the session was
    productive and in [unproductiveHoursMap] when it was not; every other
    bucket stays as it was. *)
Theorem session_accounting getHours now0 file calls :
  let w := run_calls getHours calls (mkWorld (constructor now0) file) in
  productiveSessions (userProfile (mem w)) <= totalSessions (userProfile (mem w)) /\
  forall cur endNow updNow write_ok productive summary,
    currentSession (mem w) = Some cur ->
    let w' := after (endSession getHours endNow updNow write_ok productive
                                summary w) w in
    one_bucket_up productive (getHours (startTime cur))
                  (userProfile (mem w)) (userProfile (mem w')) /\
    productiveSessions (userProfile (mem w')) <= totalSessions (userProfile (mem w')).
Proof.
  intros w. split.
  - apply run_calls_accounting. simpl. lia.
  - intros cur endNow updNow write_ok productive summary Hcur w'.
    split.
    + destruct (endSession_open getHours endNow updNow write_ok productive
                  summary w cur Hcur) as [E _].
      fold w' in E. rewrite E.
      apply (updateUserProfile_buckets getHours
               (mkSession (startTime cur) (Some endNow) productive
                          (interventionsCount cur) summary)).
    + apply (call_keeps_accounting getHours
               (EndSession endNow updNow write_ok productive summary) w).
      apply run_calls_accounting. simpl. lia.
Qed.

Lemma session_accounting_witness :
  let w := run_calls utcHours
             [StartSession 1700000000000 true;
              EndSession 1700000100000 1700000100001 true true (js "focused");
              StartSession 1700003600000 false]
             (mkWorld (constructor 1700000000000) None) in
  let w' := after (endSession utcHours 1700003700000 1700003700001 true false
                              (js "drifted") w) w in
  one_bucket_up false 23 (userProfile (mem w)) (userProfile (mem w')).
Proof.
  intros w w'.
  destruct (session_accounting utcHours 1700000000000 None
              [StartSession 1700000000000 true;
               EndSession 1700000100000 1700000100001 true true (js "focused");
               StartSession 1700003600000 false]) as [_ H].
  apply (H (mkSession 1700003600000 None true 0 []) 1700003700000
           1700003700001 true false (js "drifted")).
  vm_compute. reflexivity.
Defined.

(** ** The ranking of hours *)

#[local] Instance key_le_trans : Transitive key_le.
Proof. intros a b c. unfold key_le. lia. Qed.

#[local] Instance key_le_total : Total key_le.
Proof. intros a b. unfold key_le. lia. Qed.

Lemma Object_entries_perm m : Object_entries m ≡ₚ map_to_list m.
Proof. apply merge_sort_Permutation. Qed.

Lemma elem_of_Object_entries m h c :
  (h, c) ∈ Object_entries m <-> m !! h = Some c.
Proof. rewrite Object_entries_perm. apply elem_of_map_to_list. Qed.

Lemma length_Object_entries m : length (Object_entries m) = size m.
Proof. rewrite Object_entries_perm. apply length_map_to_list. Qed.

(** A list sorted by key whose keys are distinct is strictly sorted. *)
Lemma sorted_NoDup_strict (l : list (N * N)) :
  StronglySorted key_le l -> NoDup l.*1 -> StronglySorted key_lt l.
Proof.
  induction 1 as [|x l Hs IH Hall]; intros Hnd; constructor.
  - apply IH. inversion Hnd; assumption.
  - inversion Hnd as [|? ? Hnotin Hnd']; subst.
    rewrite Forall_forall in *. intros y Hy.
    specialize (Hall y Hy). unfold key_le, key_lt in *.
    destruct (decide (x.1 = y.1)) as [E|]; [|lia].
    exfalso. apply Hnotin. rewrite E. apply list_elem_of_fmap_2. exact Hy.
Qed.

(** [Object.entries] lists the hours in strictly ascending order. *)
Lemma Object_entries_ascending m : StronglySorted key_lt (Object_entries m).
Proof.
  apply sorted_NoDup_strict.
  - apply StronglySorted_merge_sort; apply _.
  - rewrite Object_entries_perm. apply NoDup_fst_map_to_list.
Qed.

Lemma insert_desc_perm x l : insert_desc x l ≡ₚ x :: l.
Proof.
  induction l as [|y l IH]; simpl; [reflexivity|].
  destruct (y.2 <=? x.2); [reflexivity|].
  rewrite IH. apply Permutation_swap.
Qed.

Lemma sort_desc_perm l : sort_desc l ≡ₚ l.
Proof.
  induction l as [|x l IH]; simpl; [reflexivity|].
  rewrite insert_desc_perm, IH. reflexivity.
Qed.

Lemma entry_before_counts a b : entry_before a b -> b.2 <= a.2.
Proof. unfold entry_before. lia. Qed.

(** Inserting an entry whose hour is below all the hours of a ranked list
    keeps the list ranked. *)
Lemma insert_desc_sorted x l :
  StronglySorted entry_before l ->
  Forall (key_lt x) l ->
  StronglySorted entry_before (insert_desc x l).
Proof.
  induction 1 as [|y l Hs IH Hall]; intros Hx; simpl.
  - repeat constructor.
  - inversion Hx as [|? ? Hxy Hxl]; subst.
    destruct (N.leb_spec (y.2) (x.2)) as [Hle|Hgt].
    + constructor; [constructor; assumption|].
      constructor.
      * unfold entry_before, key_lt in *. lia.
      * rewrite Forall_forall in *. intros z Hz.
        specialize (Hall z Hz). specialize (Hxl z Hz).
        apply entry_before_counts in Hall.
        unfold entry_before, key_lt in *. lia.
    + constructor; [apply IH; assumption|].
      rewrite insert_desc_perm. constructor; [|assumption].
      unfold entry_before. lia.
Qed.

(** Sorting entries that come in ascending hour order ranks them: by
    descending count, and by ascending hour among equal counts. *)
Lemma sort_desc_sorted l :
  StronglySorted key_lt l -> StronglySorted entry_before (sort_desc l).
Proof.
  induction 1 as [|x l Hs IH Hall]; simpl; [constructor|].
  apply insert_desc_sorted; [exact IH|].
  rewrite sort_desc_perm. exact Hall.
Qed.

Lemma StronglySorted_take {A} (R : relation A) n l :
  StronglySorted R l -> StronglySorted R (take n l).
Proof.
  intros H. rewrite <- (take_drop n l) in H.
  apply StronglySorted_app_1_l in H. exact H.
Qed.

Lemma slice_0_take {A} n (l : list A) : exists k, slice_0 n l = take k l.
Proof. unfold slice_0. destruct (n <? 0)%Z; eauto. Qed.

Lemma StronglySorted_fst_ranked m (l : list (N * N)) :
  (forall h c, (h, c) ∈ l -> m !! h = Some c) ->
  StronglySorted entry_before l ->
  StronglySorted (ranks_before m) l.*1.
Proof.
  intros Hm. induction 1 as [|[h c] l Hs IH Hall]; csimpl; constructor.
  - apply IH. intros h' c' Hin. apply Hm. right. exact Hin.
  - rewrite Forall_fmap, Forall_forall in *. intros [h' c'] Hin.
    specialize (Hall _ Hin). unfold entry_before, ranks_before, count in *.
    simpl in *. rewrite (Hm h c) by left. rewrite (Hm h' c') by (right; exact Hin).
    simpl. exact Hall.
Qed.

Lemma topHours_ranked n m : top_hours_ranked n m (topHours n m).
Proof.
  unfold top_hours_ranked, topHours.
  assert (Hsorted : StronglySorted entry_before (sort_desc (Object_entries m))).
  { apply sort_desc_sorted, Object_entries_ascending. }
  assert (Hin : forall h c, (h, c) ∈ sort_desc (Object_entries m) -> m !! h = Some c).
  { intros h c. rewrite sort_desc_perm. apply elem_of_Object_entries. }
  split; [|split].
  - intros Hn. rewrite length_fmap. unfold slice_0.
    destruct (Z.ltb_spec n 0) as [|_]; [lia|].
    rewrite length_take, sort_desc_perm, length_Object_entries. reflexivity.
  - destruct (slice_0_take n (sort_desc (Object_entries m))) as [k ->].
    apply StronglySorted_fst_ranked.
    + intros h c Hhc. apply Hin. apply (subseteq_take k). exact Hhc.
    + apply StronglySorted_take. exact Hsorted.
  - intros h Hh. apply list_elem_of_fmap in Hh as ([h' c] & -> & Hhc).
    destruct (slice_0_take n (sort_desc (Object_entries m))) as [k E].
    rewrite E in Hhc. exists c. apply Hin. apply (subseteq_take k). exact Hhc.
Qed.

(** C7. For every profile, [getTopProductiveHours(n)] and
    [getTopUnproductiveHours(n)] return hours of the histogram, at most
    [n] of them (exactly [n] when the histogram has that many), sorted by
    descending frequency count; of two hours with the same count the lower
    one comes first. *)
Theorem top_hours_sorted_with_ties_ascending (n : Z) (m : Memory) :
  (0 <= n)%Z ->
  (length (getTopProductiveHours n m) <= Z.to_nat n)%nat /\
  (length (getTopUnproductiveHours n m) <= Z.to_nat n)%nat /\
  top_hours_ranked n (productiveHoursMap (userProfile m))
                   (getTopProductiveHours n m) /\
  top_hours_ranked n (unproductiveHoursMap (userProfile m))
                   (getTopUnproductiveHours n m).
Proof.
  intros Hn. unfold getTopProductiveHours, getTopUnproductiveHours.
  pose proof (topHours_ranked n (productiveHoursMap (userProfile m))) as Hp.
  pose proof (topHours_ranked n (unproductiveHoursMap (userProfile m))) as Hu.
  repeat split; try apply Hp; try apply Hu.
  - destruct Hp as [Hlen _]. rewrite (Hlen Hn). lia.
  - destruct Hu as [Hlen _]. rewrite (Hlen Hn). lia.
Qed.

Lemma top_hours_sorted_with_ties_ascending_witness :
  getTopProductiveHours 3 (mkMemory [] None (mkProfile tied_hours ∅ 0.5 0 0 0 0))
    = [11; 9; 14] /\
  StronglySorted (ranks_before tied_hours)
    (getTopProductiveHours 3 (mkMemory [] None (mkProfile tied_hours ∅ 0.5 0 0 0 0))).
Proof.
  split; [vm_compute; reflexivity|].
  apply (top_hours_sorted_with_ties_ascending 3
           (mkMemory [] None (mkProfile tied_hours ∅ 0.5 0 0 0 0))).
  lia.
Defined.

(** ** Reading the document back at the declared types *)

Lemma safe_lt n : safe n = true -> n < 2 ^ 53.
Proof. unfold safe. apply N.ltb_lt. Qed.

Lemma safe_prints n : safe n = true -> number_prints (num_of_N n).
Proof.
  intros H. apply number_prints_N. apply safe_lt in H.
  assert (2 ^ 53 < 10 ^ 21) by (vm_compute; reflexivity). lia.
Qed.

Lemma as_count_N n : safe n = true -> as_count (JSNumber (num_of_N n)) = Some n.
Proof.
  intros H. unfold as_count, num_of_N. cbn [Z.leb Z.compare Z.to_N].
  change (10 ^ 0) with 1. rewrite N.mul_1_r. cbn [negb orb andb].
  unfold safe in H. rewrite H. reflexivity.
Qed.

Lemma forallb_is_digit_chars ds :
  Forall (fun d => d < 10) ds -> forallb is_digit (digit_chars ds) = true.
Proof.
  induction 1 as [|d ds Hd _ IH]; [reflexivity|].
  cbn [digit_chars map forallb]. rewrite is_digit_char by assumption. exact IH.
Qed.

Lemma as_hour_key h : safe h = true -> as_hour (hour_key h) = Some h.
Proof.
  intros H. unfold hour_key, as_hour.
  rewrite Number_toString_N.
  2:{ apply safe_lt in H.
      assert (2 ^ 53 < 10 ^ 21) by (vm_compute; reflexivity). lia. }
  destruct (N_digits_head h) as (d & ds & E & Hd).
  pose proof (N_digits_lt_10 h) as Hlt.
  pose proof (digits_value_N_digits h) as Hval.
  rewrite <- (app_nil_r (digit_chars (N_digits h))) at 1.
  rewrite span_digits_chars by (auto; exact I).
  rewrite forallb_is_digit_chars by assumption.
  rewrite E in *.
  assert (Hz : (d =? 0) && (match ds with [] => false | _ :: _ => true end) = false).
  { destruct (N.eqb_spec d 0) as [Hd0|]; [|reflexivity].
    destruct (Hd Hd0) as [_ ->]. reflexivity. }
  rewrite Hz, Hval. reflexivity.
Qed.

Lemma as_entries_encoded (l : list (N * N)) :
  forallb (fun hc => safe hc.1 && safe hc.2) l = true ->
  as_entries (map (fun hc => (hour_key hc.1, JSNumber (num_of_N hc.2))) l)
    = Some l.
Proof.
  induction l as [|[h c] l IH]; intros H; [reflexivity|].
  cbn [forallb fst snd] in H.
  apply andb_prop in H as [Hhc Hl]. apply andb_prop in Hhc as [Hh Hc].
  cbn [map as_entries fst snd].
  rewrite as_hour_key, as_count_N, IH by assumption. reflexivity.
Qed.

Lemma list_to_map_Object_entries (m : gmap N N) :
  list_to_map (Object_entries m) = m.
Proof.
  rewrite <- (list_to_map_to_list m) at 2.
  apply list_to_map_proper.
  - rewrite Object_entries_perm. apply NoDup_fst_map_to_list.
  - apply Object_entries_perm.
Qed.

Lemma as_histogram_encoded m :
  safe_histogram m = true -> as_histogram (json_of_histogram m) = Some m.
Proof.
  intros H. unfold as_histogram, json_of_histogram.
  rewrite as_entries_encoded by exact H.
  rewrite list_to_map_Object_entries. reflexivity.
Qed.

Lemma as_session_encoded s :
  safe_session s = true -> as_session (json_of_session s) = Some s.
Proof.
  destruct s as [st et wp ic sm]. unfold safe_session, json_of_session.
  cbn [startTime endTime wasProductive interventionsCount activitySummary].
  intros H. apply andb_prop in H as [H Het]. apply andb_prop in H as [Hst Hic].
  destruct et as [t|]; cbn [app as_session].
  - rewrite decide_True by reflexivity.
    rewrite !as_count_N by assumption. reflexivity.
  - rewrite decide_True by reflexivity.
    rewrite !as_count_N by assumption. reflexivity.
Qed.

Lemma as_sessions_encoded ss :
  forallb safe_session ss = true ->
  as_sessions (JSArray (map json_of_session ss) []) = Some ss.
Proof.
  unfold as_sessions. induction ss as [|s ss IH]; intros H; [reflexivity|].
  cbn [forallb] in H. apply andb_prop in H as [Hs Hss].
  cbn [map as_session_list]. rewrite as_session_encoded, IH by assumption.
  reflexivity.
Qed.

Lemma survives_as_double x :
  survives_text x -> as_double (json_of_double x) = Some x.
Proof.
  intros (d & Ed & _ & Ev). unfold json_of_double. rewrite Ed. cbn. rewrite Ev.
  reflexivity.
Qed.

Lemma as_profile_encoded p :
  safe_profile p = true ->
  survives_text (interventionEffectivenessRate p) ->
  as_profile (json_of_profile p) = Some p.
Proof.
  destruct p as [pm um r ts ps ti lu]. unfold safe_profile, json_of_profile.
  cbn [productiveHoursMap unproductiveHoursMap interventionEffectivenessRate
       totalSessions productiveSessions totalInterventions lastUpdated].
  intros H Hr. repeat (apply andb_prop in H as [H ?]).
  cbn [as_profile]. rewrite decide_True by reflexivity.
  rewrite !as_histogram_encoded, survives_as_double, !as_count_N by assumption.
  reflexivity.
Qed.

(** ** The document is printable *)

Lemma printable_session s :
  safe_session s = true -> printable (json_of_session s).
Proof.
  destruct s as [st et wp ic sm]. unfold safe_session, json_of_session.
  cbn [startTime endTime wasProductive interventionsCount activitySummary].
  intros H. apply andb_prop in H as [H Het]. apply andb_prop in H as [Hst Hic].
  apply printable_object.
  destruct et as [t|]; cbn [app]; (split; [closed_NoDup|]);
    repeat (apply Forall_cons_2; [cbn [snd printable]|]);
    try apply Forall_nil; auto using safe_prints.
Qed.

Lemma printable_entries (l : list (N * N)) :
  NoDup l.*1 ->
  forallb (fun hc => safe hc.1 && safe hc.2) l = true ->
  let ps := map (fun hc => (hour_key hc.1, JSNumber (num_of_N hc.2))) l in
  NoDup ps.*1 /\ Forall (fun kx => printable kx.2) ps /\
  (forall k, k ∈ ps.*1 -> exists h, h ∈ l.*1 /\ as_hour k = Some h).
Proof.
  induction l as [|[h c] l IH]; intros Hnd Hsafe ps.
  - repeat split; try constructor. intros k Hk. inversion Hk.
  - cbn [forallb fst snd] in Hsafe.
    apply andb_prop in Hsafe as [Hhc Hl]. apply andb_prop in Hhc as [Hh Hc].
    rewrite fmap_cons in Hnd. apply NoDup_cons in Hnd as [Hnotin Hnd].
    destruct (IH Hnd Hl) as (IHnd & IHp & IHk). subst ps.
    cbn [map fst snd]. rewrite !fmap_cons. cbn [fst snd].
    split; [|split].
    + apply NoDup_cons. split; [|exact IHnd].
      intros Hin. destruct (IHk _ Hin) as (h' & Hh' & Eh').
      rewrite as_hour_key in Eh' by assumption. injection Eh' as <-.
      exact (Hnotin Hh').
    + constructor; [|exact IHp]. cbn [snd printable]. apply safe_prints, Hc.
    + intros k Hk. apply elem_of_cons in Hk as [->|Hk].
      * exists h. split; [left|apply as_hour_key, Hh].
      * destruct (IHk _ Hk) as (h' & Hh' & Eh'). exists h'. split; [right|]; auto.
Qed.

Lemma printable_histogram m :
  safe_histogram m = true -> printable (json_of_histogram m).
Proof.
  intros H. unfold json_of_histogram. apply printable_object.
  destruct (printable_entries (Object_entries m)) as (Hnd & Hp & _); auto.
  rewrite Object_entries_perm. apply NoDup_fst_map_to_list.
Qed.

Lemma printable_double x : survives_text x -> printable (json_of_double x).
Proof. intros (d & Ed & Hd & _). unfold json_of_double. rewrite Ed. exact Hd. Qed.

Lemma printable_profile p :
  safe_profile p = true ->
  survives_text (interventionEffectivenessRate p) ->
  printable (json_of_profile p).
Proof.
  unfold safe_profile, json_of_profile. intros H Hr.
  repeat (apply andb_prop in H as [H ?]).
  apply printable_object. split; [closed_NoDup|].
  repeat (apply Forall_cons_2; [cbn [snd]|]); try apply Forall_nil;
    auto using printable_histogram, printable_double;
    apply safe_prints; assumption.
Qed.

Lemma printable_document m :
  safe_integers m = true ->
  survives_text (rate m) ->
  printable (document m).
Proof.
  unfold safe_integers, document. intros H Hr.
  apply andb_prop in H as [Hss Hp].
  apply printable_object. split; [closed_NoDup|].
  apply Forall_cons_2; [cbn [snd]|apply Forall_cons_2; [cbn [snd]|constructor]].
  - apply printable_array. split; [reflexivity|].
    induction (sessions m) as [|s ss IH]; [constructor|].
    cbn [forallb] in Hss. apply andb_prop in Hss as [Hs Hss].
    cbn [map]. constructor; auto using printable_session.
  - apply printable_profile; assumption.
Qed.

(** The rates a store reaches with its first six samples all survive
    being written and read. *)
Lemma early_rates_survive :
  Forall (fun samples => survives_text (rate (feed samples (constructor 0))))
         (sample_series 6).
Proof.
  cbv [sample_series map app].
  repeat (apply Forall_cons_2;
          [match goal with
           | |- survives_text ?x =>
               let d := eval vm_compute in (Number_digits x) in
               match d with
               | Some ?d' =>
                   exists d'; split; [vm_compute; reflexivity|];
                   split; vm_compute; reflexivity
               end
           end|]).
  apply Forall_nil_2.
Qed.

(** C8. For every state whose counters, timestamps and hours are integers
    that JavaScript numbers hold exactly and whose effectiveness rate
    survives being written and read, [save()] followed by [load()] on a
    fresh [MemorySystem] over the file written gives the same state: the
    same sessions in the same order with the same field values, and the
    same profile, with its counts, histograms and effectiveness rate. *)
Theorem save_then_load m file now :
  safe_integers m = true ->
  survives_text (rate m) ->
  exists text,
    save true (mkWorld m file) = Returns (mkWorld m (Some text)) /\
    load (mkWorld (constructor now) (Some text))
      = Returns (mkWorld (mkMemory (sessions m) None (userProfile m)) (Some text)).
Proof.
  intros Hsafe Hrate.
  destruct (JSON_parse_stringify (document m) (printable_document m Hsafe Hrate))
    as (text & Es & Ep).
  exists text. split.
  - unfold save. cbn [mem]. rewrite Es. reflexivity.
  - unfold load, load_try. unfold_monad. cbn [disk mem]. rewrite Ep.
    unfold safe_integers in Hsafe. apply andb_prop in Hsafe as [Hss Hp].
    assert (Eg1 : get (document m) k_sessions
                  = Ok (JSArray (map json_of_session (sessions m)) [])).
    { reflexivity. }
    assert (Eg2 : get (document m) k_userProfile
                  = Ok (json_of_profile (userProfile m))).
    { reflexivity. }
    rewrite Eg1, Eg2.
    cbn [truthy]. unfold json_of_profile at 1. cbn [truthy].
    rewrite as_sessions_encoded by assumption.
    rewrite as_profile_encoded by assumption.
    reflexivity.
Qed.

Lemma save_then_load_witness :
  exists text,
    save true (mkWorld two_sessions None)
      = Returns (mkWorld two_sessions (Some text)) /\
    load (mkWorld (constructor 1700000400000) (Some text))
      = Returns (mkWorld (mkMemory (sessions two_sessions) None
                                   (userProfile two_sessions)) (Some text)).
Proof.
  apply (save_then_load two_sessions None 1700000400000).
  - vm_compute. reflexivity.
  - exists (JsNum false 6000000000000001 (-16)).
    repeat split; vm_compute; reflexivity.
Defined.
(* ===================================================================== *)
(** * Further properties of the behavioural memory: proofs *)
(* ===================================================================== *)

(** ** What each call leaves in memory *)

Lemma mem_startSession now write_ok w :
  mem (after (startSession now write_ok w) w)
  = mkMemory (sessions (mem w)) (Some (mkSession now None true 0 []))
             (userProfile (mem w)).
Proof. unfold startSession. apply mem_after_save. Qed.

Lemma mem_endSession_none getHours endNow updNow write_ok productive summary w :
  currentSession (mem w) = None ->
  endSession getHours endNow updNow write_ok productive summary w = Returns w.
Proof. intros H. unfold endSession. rewrite H. reflexivity. Qed.

Lemma mem_endSession_open getHours endNow updNow write_ok productive summary w cur :
  currentSession (mem w) = Some cur ->
  let closed := mkSession (startTime cur) (Some endNow) productive
                          (interventionsCount cur) summary in
  mem (after (endSession getHours endNow updNow write_ok productive summary w) w)
  = mkMemory (last_n 100 (sessions (mem w) ++ [closed])) None
             (updateUserProfile getHours closed updNow (userProfile (mem w))).
Proof.
  intros H closed. unfold endSession. rewrite H. rewrite mem_after_save.
  fold closed. cbn [mem].
  destruct (Nat.ltb_spec 100 (length (sessions (mem w) ++ [closed]))) as [Hl|Hl].
  - reflexivity.
  - rewrite last_n_short by exact Hl. reflexivity.
Qed.

Lemma mem_recordIntervention_none write_ok w :
  currentSession (mem w) = None -> recordIntervention write_ok w = Returns w.
Proof. intros H. unfold recordIntervention. rewrite H. reflexivity. Qed.

Lemma mem_recordIntervention_open write_ok w cur :
  currentSession (mem w) = Some cur ->
  mem (after (recordIntervention write_ok w) w)
  = mkMemory (sessions (mem w))
      (Some (mkSession (startTime cur) (endTime cur) (wasProductive cur)
                       (interventionsCount cur + 1) (activitySummary cur)))
      (mkProfile (productiveHoursMap (userProfile (mem w)))
                 (unproductiveHoursMap (userProfile (mem w)))
                 (interventionEffectivenessRate (userProfile (mem w)))
                 (totalSessions (userProfile (mem w)))
                 (productiveSessions (userProfile (mem w)))
                 (totalInterventions (userProfile (mem w)) + 1)
                 (lastUpdated (userProfile (mem w)))).
Proof.
  intros H. unfold recordIntervention. rewrite H. apply mem_after_save.
Qed.

(** ** The histograms account for the sessions *)

Lemma total_count_insert h c (m : gmap N N) :
  m !! h = None -> total_count (<[h := c]> m) = c + total_count m.
Proof.
  intros H. unfold total_count.
  apply (map_fold_insert_L (fun _ c acc => c + acc)); [|exact H].
  intros. lia.
Qed.

Lemma total_count_delete h c (m : gmap N N) :
  m !! h = Some c -> total_count m = c + total_count (delete h m).
Proof.
  intros H. rewrite <- (insert_delete_id m h c H) at 1.
  apply total_count_insert. apply lookup_delete_eq.
Qed.

Lemma total_count_bump h m : total_count (bump h m) = total_count m + 1.
Proof.
  unfold bump. destruct (m !! h) as [c|] eqn:E; cbn [default from_option id].
  - rewrite (total_count_delete h c m E).
    rewrite <- (insert_delete_eq m h (c + 1)).
    rewrite total_count_insert by apply lookup_delete_eq. lia.
  - rewrite total_count_insert by exact E. lia.
Qed.

Lemma updateUserProfile_accounts getHours s now p :
  histograms_account p ->
  histograms_account (updateUserProfile getHours s now p).
Proof.
  unfold histograms_account, updateUserProfile.
  intros [H1 H2]. destruct (wasProductive s); cbn;
    rewrite ?total_count_bump; lia.
Qed.

Lemma op_accounts getHours o w :
  histograms_account (userProfile (mem w)) ->
  histograms_account (userProfile (mem (op getHours o w))).
Proof.
  intros H.
  destruct o as [now ok|endNow updNow ok productive summary|ok|b]; cbn [op].
  - rewrite mem_startSession. exact H.
  - destruct (currentSession (mem w)) as [cur|] eqn:E.
    + rewrite (mem_endSession_open _ _ _ _ _ _ _ _ E). cbn [userProfile].
      apply updateUserProfile_accounts. exact H.
    + rewrite mem_endSession_none by exact E. exact H.
  - destruct (currentSession (mem w)) as [cur|] eqn:E.
    + rewrite (mem_recordIntervention_open _ _ _ E). exact H.
    + rewrite mem_recordIntervention_none by exact E. exact H.
  - exact H.
Qed.

Lemma run_ops_invariant (P : World -> Prop) getHours :
  (forall o w, P w -> P (op getHours o w)) ->
  forall ops w, P w -> P (run_ops getHours ops w).
Proof.
  intros Hstep ops. induction ops as [|o ops IH]; intros w Hw; [exact Hw|].
  cbn. apply IH. apply Hstep. exact Hw.
Qed.

(** X1. [endSession] without an open session returns at once: the store
    and the file stay as they are and nothing is written, so it cannot
    throw.  With a session open it closes that session: the session kept
    has the start time and the intervention count of the open one, the end
    time read from the clock and the productivity and summary given; it is
    appended to the sessions, no session is open afterwards, and
    [totalSessions] goes up by one.  The state is then saved: the file
    holds the document of the new state, or, when the write fails, the
    call throws with the session already closed in memory. *)
Theorem endSession_closes_session getHours endNow updNow write_ok productive summary w :
  (currentSession (mem w) = None ->
     endSession getHours endNow updNow write_ok productive summary w = Returns w) /\
  (forall cur, currentSession (mem w) = Some cur ->
     let closed := mkSession (startTime cur) (Some endNow) productive
                             (interventionsCount cur) summary in
     let o := endSession getHours endNow updNow write_ok productive summary w in
     let w' := after o w in
     currentSession (mem w') = None /\
     last (sessions (mem w')) = Some closed /\
     totalSessions (userProfile (mem w')) = totalSessions (userProfile (mem w)) + 1 /\
     lastUpdated (userProfile (mem w')) = updNow /\
     (if write_ok
      then o = Returns w' /\ disk w' = JSON_stringify (document (mem w'))
      else o = Throws IOError w')).
Proof.
  split; [apply mem_endSession_none|].
  intros cur Hcur closed o w'.
  pose proof (mem_endSession_open getHours endNow updNow write_ok productive
                summary w cur Hcur) as Hmem.
  fold closed in Hmem. fold o in Hmem. fold w' in Hmem.
  split; [rewrite Hmem; reflexivity|].
  split.
  { rewrite Hmem. cbn [sessions]. unfold last_n.
    rewrite drop_app_le by (rewrite length_app; cbn; lia).
    apply last_snoc. }
  split; [rewrite Hmem; unfold updateUserProfile; destruct productive; reflexivity|].
  split; [rewrite Hmem; reflexivity|].
  subst w'. revert Hmem. subst o. unfold endSession. rewrite Hcur.
  match goal with |- context [save write_ok ?x] =>
    destruct (save_outcome write_ok x) as (text & Et & ->) end.
  destruct write_ok; cbn [after mem disk]; intros _.
  - split; [reflexivity|]. symmetry. exact Et.
  - reflexivity.
Qed.

Lemma endSession_closes_session_witness :
  let w := fresh_store 1700000000000 in
  last (sessions (mem (after (endSession utcHours 1700000100000 1700000100001
                                         true true (js "done") w) w)))
  = Some (mkSession 1700000000000 (Some 1700000100000) true 0 (js "done")).
Proof.
  intros w.
  destruct (endSession_closes_session utcHours 1700000100000 1700000100001
              true true (js "done") w) as [_ H].
  destruct (H (mkSession 1700000000000 None true 0 [])
              ltac:(vm_compute; reflexivity)) as (_ & Hlast & _).
  exact Hlast.
Defined.

(** ** The cap on the sessions kept *)

Lemma length_last_n {A} n (l : list A) : length (last_n n l) = Nat.min n (length l).
Proof. unfold last_n. rewrite length_drop. lia. Qed.

Lemma sessions_op getHours o w :
  sessions (mem (op getHours o w)) = sessions (mem w) \/
  exists closed, sessions (mem (op getHours o w))
                 = last_n 100 (sessions (mem w) ++ [closed]) /\
                 open_interventions (mem w) = interventionsCount closed /\
                 currentSession (mem (op getHours o w)) = None.
Proof.
  destruct o as [now ok|endNow updNow ok productive summary|ok|b]; cbn [op].
  - left. rewrite mem_startSession. reflexivity.
  - destruct (currentSession (mem w)) as [cur|] eqn:E.
    + right. eexists. rewrite (mem_endSession_open _ _ _ _ _ _ _ _ E).
      split; [reflexivity|]. unfold open_interventions. rewrite E.
      split; reflexivity.
    + left. rewrite mem_endSession_none by exact E. reflexivity.
  - left. destruct (currentSession (mem w)) as [cur|] eqn:E.
    + rewrite (mem_recordIntervention_open _ _ _ E). reflexivity.
    + rewrite mem_recordIntervention_none by exact E. reflexivity.
  - left. reflexivity.
Qed.

(** X2. The store keeps at most the 100 most recent sessions.  An
    [endSession] that finds a session open leaves the last 100 of the
    sessions it had and the one it closed, in their order; and a store
    with at most 100 sessions has at most 100 after any series of
    calls. *)
Theorem sessions_keep_last_hundred getHours w :
  (forall cur endNow updNow write_ok productive summary,
     currentSession (mem w) = Some cur ->
     let closed := mkSession (startTime cur) (Some endNow) productive
                             (interventionsCount cur) summary in
     let w' := after (endSession getHours endNow updNow write_ok productive
                                 summary w) w in
     sessions (mem w') = last_n 100 (sessions (mem w) ++ [closed]) /\
     length (sessions (mem w')) = Nat.min 100 (S (length (sessions (mem w))))) /\
  (forall ops,
     (length (sessions (mem w)) <= 100)%nat ->
     (length (sessions (mem (run_ops getHours ops w))) <= 100)%nat).
Proof.
  split.
  - intros cur endNow updNow write_ok productive summary Hcur closed w'.
    subst w'. rewrite (mem_endSession_open _ _ _ _ _ _ _ _ Hcur).
    cbn [sessions]. split; [reflexivity|].
    rewrite length_last_n, length_app. cbn [length]. lia.
  - intros ops. revert w. induction ops as [|o ops IH]; intros w Hw; [exact Hw|].
    cbn. apply IH.
    destruct (sessions_op getHours o w) as [->|(closed & -> & _)]; [exact Hw|].
    rewrite length_last_n. lia.
Qed.

(** A store that holds 100 sessions, with a session open. *)
Lemma sessions_keep_last_hundred_witness :
  let full := mkWorld (mkMemory (replicate 100 (mkSession 1 (Some 2) true 0 []))
                                (Some (mkSession 3 None true 0 []))
                                (neutralProfile 0)) None in
  length (sessions (mem (after (endSession utcHours 4 5 true false [] full) full)))
  = 100%nat.
Proof.
  intros full.
  destruct (sessions_keep_last_hundred utcHours full) as [H _].
  destruct (H (mkSession 3 None true 0 []) 4 5 true false []
              ltac:(reflexivity)) as [_ Hlen].
  exact Hlen.
Defined.

(** X3. The two histograms account for every session the profile counts:
    the counts of [productiveHoursMap] add up to [productiveSessions] and
    those of [unproductiveHoursMap] to the rest of [totalSessions].  No
    call breaks this, and it holds of a new store. *)
Theorem histograms_account_for_sessions getHours ops w :
  histograms_account (userProfile (mem w)) ->
  histograms_account (userProfile (mem (run_ops getHours ops w))).
Proof.
  apply (run_ops_invariant
           (fun w => histograms_account (userProfile (mem w)))).
  apply op_accounts.
Qed.

Lemma histograms_account_for_sessions_witness :
  histograms_account
    (userProfile (mem (run_ops utcHours
       [OpRecordIntervention true;
        OpEndSession 1700000100000 1700000100001 true true (js "one");
        OpStartSession 1700000200000 true;
        OpUpdateEffectiveness false;
        OpEndSession 1700000300000 1700000300001 false false (js "two")]
       (fresh_store 1700000000000)))).
Proof.
  apply histograms_account_for_sessions.
  split; vm_compute; reflexivity.
Defined.

(** ** The counters cover what the store keeps *)

Lemma interventions_in_app l1 l2 :
  interventions_in (l1 ++ l2) = interventions_in l1 + interventions_in l2.
Proof.
  induction l1 as [|s l1 IH]; cbn; [reflexivity|].
  unfold interventions_in in *. cbn. rewrite IH. lia.
Qed.

Lemma interventions_in_last_n n l :
  interventions_in (last_n n l) <= interventions_in l.
Proof.
  unfold last_n.
  pose proof (interventions_in_app (take (length l - n) l)
                                   (drop (length l - n) l)) as H.
  rewrite take_drop in H. lia.
Qed.

Lemma updateUserProfile_totals getHours s now p :
  totalSessions (updateUserProfile getHours s now p) = totalSessions p + 1 /\
  totalInterventions (updateUserProfile getHours s now p) = totalInterventions p.
Proof. unfold updateUserProfile. destruct (wasProductive s); split; reflexivity. Qed.

Lemma op_covers getHours o w :
  counters_cover_sessions (mem w) ->
  counters_cover_sessions (mem (op getHours o w)).
Proof.
  unfold counters_cover_sessions. intros [Hs Hi].
  destruct o as [now ok|endNow updNow ok productive summary|ok|b]; cbn [op].
  - rewrite mem_startSession. cbn [sessions userProfile]. split; [exact Hs|].
    unfold open_interventions at 1. cbn [currentSession interventionsCount]. lia.
  - destruct (currentSession (mem w)) as [cur|] eqn:E.
    + rewrite (mem_endSession_open _ _ _ _ _ _ _ _ E).
      cbn [sessions userProfile]. unfold open_interventions in *.
      rewrite E in Hi. cbn [currentSession].
      match goal with |- context [updateUserProfile ?g ?c ?n ?p] =>
        destruct (updateUserProfile_totals g c n p) as [-> ->] end.
      split.
      * rewrite length_last_n, length_app. cbn [length]. lia.
      * pose proof (interventions_in_last_n 100
                      (sessions (mem w) ++
                       [mkSession (startTime cur) (Some endNow) productive
                                  (interventionsCount cur) summary])) as Hle.
        rewrite interventions_in_app in Hle.
        change (interventions_in
                  [mkSession (startTime cur) (Some endNow) productive
                             (interventionsCount cur) summary])
          with (interventionsCount cur + 0) in Hle.
        lia.
    + rewrite mem_endSession_none by exact E. split; assumption.
  - destruct (currentSession (mem w)) as [cur|] eqn:E.
    + rewrite (mem_recordIntervention_open _ _ _ E).
      unfold open_interventions in *. rewrite E in Hi.
      cbn [sessions userProfile currentSession totalSessions totalInterventions
           interventionsCount].
      split; [exact Hs|lia].
    + rewrite mem_recordIntervention_none by exact E. split; assumption.
  - split; assumption.
Qed.

(** X4. The counters of the profile cover what the store keeps: the
    sessions kept are at most [totalSessions], and the interventions of
    the sessions kept and of the open session are at most
    [totalInterventions].  (They can be fewer: the cap evicts old
    sessions, and [startSession] drops a session that was still open.)
    No call breaks this, and it holds of a new store. *)
Theorem counters_cover_kept_sessions getHours ops w :
  counters_cover_sessions (mem w) ->
  counters_cover_sessions (mem (run_ops getHours ops w)).
Proof.
  apply (run_ops_invariant (fun w => counters_cover_sessions (mem w))).
  apply op_covers.
Qed.

Lemma counters_cover_kept_sessions_witness :
  counters_cover_sessions
    (mem (run_ops utcHours
       [OpRecordIntervention true;
        OpStartSession 1700000200000 true;
        OpRecordIntervention true;
        OpEndSession 1700000300000 1700000300001 false false (js "two")]
       (fresh_store 1700000000000))).
Proof.
  apply counters_cover_kept_sessions.
  split; vm_compute; [discriminate|discriminate].
Defined.

(** X5. [startSession] opens a new session whatever the store held: its
    start time is the reading of the clock, it counts as productive, it
    has no interventions and an empty summary.  A session that was still
    open is dropped: it is neither appended to the sessions nor counted
    in the profile, both of which stay as they were.  The call saves at
    once, and the document it writes does not include the open session;
    when the write fails it throws with the new session open in
    memory. *)
Theorem startSession_replaces_open_session now write_ok w :
  let o := startSession now write_ok w in
  let w' := after o w in
  currentSession (mem w') = Some (mkSession now None true 0 []) /\
  sessions (mem w') = sessions (mem w) /\
  userProfile (mem w') = userProfile (mem w) /\
  (if write_ok
   then o = Returns w' /\ disk w' = JSON_stringify (document (mem w))
   else o = Throws IOError w').
Proof.
  intros o w'. subst w' o. rewrite mem_startSession. cbn [currentSession sessions userProfile].
  split; [reflexivity|]. split; [reflexivity|]. split; [reflexivity|].
  unfold startSession.
  match goal with |- context [save write_ok ?x] =>
    destruct (save_outcome write_ok x) as (text & Et & ->) end.
  destruct write_ok; cbn [after mem disk].
  - split; [reflexivity|]. rewrite <- Et. reflexivity.
  - reflexivity.
Qed.

(** ** Documents that lack a key *)

(** X6. When the file parses to a document in which [sessions] and
    [userProfile] are missing or falsy (an empty object, an array, a
    number, a string), [load] returns normally, empties the list of
    sessions and keeps the profile and the open session of the store. *)
Theorem load_without_keys m text doc vs vp :
  JSON_parse text = Some doc ->
  get doc k_sessions = Ok vs -> truthy vs = false ->
  get doc k_userProfile = Ok vp -> truthy vp = false ->
  load (mkWorld m (Some text))
  = Returns (mkWorld (mkMemory [] (currentSession m) (userProfile m)) (Some text)).
Proof.
  intros Hp Hs Hts Hu Htu. unfold load, load_try. unfold_monad.
  cbn [disk mem]. rewrite Hp, Hs, Hu. cbv beta iota. rewrite Hts, Htu. reflexivity.
Qed.

Lemma load_without_keys_witness :
  load (mkWorld two_sessions (Some (js "{}")))
  = Returns (mkWorld (mkMemory [] (currentSession two_sessions)
                               (userProfile two_sessions)) (Some (js "{}"))) /\
  load (mkWorld two_sessions (Some (js "[1, 2]")))
  = Returns (mkWorld (mkMemory [] (currentSession two_sessions)
                               (userProfile two_sessions)) (Some (js "[1, 2]"))).
Proof.
  split.
  - apply (load_without_keys two_sessions (js "{}") (JSObject [])
             JSUndefined JSUndefined); reflexivity.
  - apply (load_without_keys two_sessions (js "[1, 2]")
             (JSArray [JSNumber (num_of_N 1); JSNumber (num_of_N 2)] [])
             JSUndefined JSUndefined); reflexivity.
Defined.

(** ** getRecentSessions *)

(** X7. [getRecentSessions(days)] returns, in their order, exactly the
    sessions that started after [days] days before the reading of the
    clock.  When no session starts after that reading, zero or fewer days
    give no session; and a number of days that reaches before the epoch
    gives every session. *)
Theorem getRecentSessions_window now days m :
  let recent := getRecentSessions now days m in
  sublist recent (sessions m) /\
  (forall s, s ∈ recent <->
     s ∈ sessions m /\ (Z.of_N now - days * 86400000 < Z.of_N (startTime s))%Z) /\
  ((days <= 0)%Z -> Forall (fun s => startTime s <= now) (sessions m) ->
     recent = []) /\
  ((Z.of_N now < days * 86400000)%Z -> recent = sessions m).
Proof.
  intros recent. subst recent. unfold getRecentSessions. cbv zeta.
  replace (days * 24 * 60 * 60 * 1000)%Z with (days * 86400000)%Z by lia.
  split; [apply sublist_filter|].
  split.
  { intros s. rewrite list_elem_of_filter. tauto. }
  split.
  - intros Hd Hall. induction Hall as [|s l Hs Hl IH]; [reflexivity|].
    rewrite filter_cons. destruct (decide _) as [Hlt|_]; [lia|exact IH].
  - intros Hd. induction (sessions m) as [|s l IH]; [reflexivity|].
    rewrite filter_cons. destruct (decide _) as [_|Hn]; [f_equal; exact IH|lia].
Qed.

Lemma getRecentSessions_window_witness :
  getRecentSessions 1700000400000 0 two_sessions = [] /\
  getRecentSessions 1700000400000 20000 two_sessions = sessions two_sessions.
Proof.
  split.
  - destruct (getRecentSessions_window 1700000400000 0 two_sessions)
      as (_ & _ & H & _).
    apply H; [lia|].
    let l := eval vm_compute in (sessions two_sessions) in
    change (sessions two_sessions) with l.
    repeat (apply Forall_cons_2; [discriminate|]). apply Forall_nil_2.
  - destruct (getRecentSessions_window 1700000400000 20000 two_sessions)
      as (_ & _ & _ & H).
    apply H. lia.
Defined.

(** ** The hours left out of the top *)

Lemma StronglySorted_app_cross {A} (R : relation A) l1 l2 x y :
  StronglySorted R (l1 ++ l2) -> x ∈ l1 -> y ∈ l2 -> R x y.
Proof.
  induction l1 as [|a l1 IH]; intros Hs Hx Hy; [inversion Hx|].
  cbn in Hs. inversion Hs as [|? ? Hs' Hall]; subst.
  apply elem_of_cons in Hx as [->|Hx].
  - rewrite Forall_forall in Hall. apply Hall. apply elem_of_app. right. exact Hy.
  - apply IH; assumption.
Qed.

Lemma topHours_split n m :
  (0 <= n)%Z ->
  exists rest, sort_desc (Object_entries m)
               = take (Z.to_nat n) (sort_desc (Object_entries m)) ++ rest /\
               topHours n m = (take (Z.to_nat n) (sort_desc (Object_entries m))).*1.
Proof.
  intros Hn. exists (drop (Z.to_nat n) (sort_desc (Object_entries m))).
  split; [symmetry; apply take_drop|].
  unfold topHours, slice_0. destruct (Z.ltb_spec n 0); [lia|reflexivity].
Qed.

Lemma topHours_top (n : Z) (m : gmap N N) :
  (0 <= n)%Z ->
  (forall h h', h ∈ topHours n m -> is_Some (m !! h') -> h' ∉ topHours n m ->
                ranks_before m h h') /\
  NoDup (topHours n m) /\
  topHours n m `prefix_of` topHours (n + 1) m.
Proof.
  intros Hn.
  assert (Hsorted : StronglySorted entry_before (sort_desc (Object_entries m))).
  { apply sort_desc_sorted, Object_entries_ascending. }
  assert (Hin : forall h c, (h, c) ∈ sort_desc (Object_entries m) <-> m !! h = Some c).
  { intros h c. rewrite sort_desc_perm. apply elem_of_Object_entries. }
  assert (Hnd : NoDup (sort_desc (Object_entries m)).*1).
  { rewrite sort_desc_perm, Object_entries_perm. apply NoDup_fst_map_to_list. }
  destruct (topHours_split n m Hn) as (rest & Hsplit & Htop).
  split; [|split].
  - intros h h' Hh [c' Hc'] Hout.
    rewrite Htop in Hh, Hout.
    apply list_elem_of_fmap in Hh as ([h0 c] & -> & Hhc). cbn [fst].
    assert (Hc : m !! h0 = Some c).
    { apply Hin. rewrite Hsplit. apply elem_of_app. left. exact Hhc. }
    assert (Hrest : (h', c') ∈ rest).
    { apply Hin in Hc'. rewrite Hsplit in Hc'.
      apply elem_of_app in Hc' as [Hc'|Hc']; [|exact Hc'].
      exfalso. apply Hout. apply list_elem_of_fmap. exists (h', c').
      split; [reflexivity|exact Hc']. }
    rewrite Hsplit in Hsorted.
    pose proof (StronglySorted_app_cross _ _ _ _ _ Hsorted Hhc Hrest) as Hb.
    unfold entry_before in Hb. unfold ranks_before, count.
    rewrite Hc, Hc'. exact Hb.
  - rewrite Htop. rewrite Hsplit, fmap_app in Hnd.
    apply NoDup_app in Hnd as (Hnd & _). exact Hnd.
  - destruct (topHours_split (n + 1) m ltac:(lia)) as (_ & _ & ->).
    rewrite Htop. replace (Z.to_nat (n + 1)) with (S (Z.to_nat n)) by lia.
    set (L := sort_desc (Object_entries m)).
    destruct (prefix_take (take (S (Z.to_nat n)) L) (Z.to_nat n)) as [k Hk].
    rewrite take_take in Hk.
    replace (Nat.min (Z.to_nat n) (S (Z.to_nat n))) with (Z.to_nat n) in Hk by lia.
    exists (k.*1). rewrite Hk at 1. apply fmap_app.
Qed.


(** X8. The hours returned are the top of the ranking: every hour of the
    histogram that [getTopProductiveHours(n)] leaves out ranks after
    every hour it returns (a smaller count, or the same count and a later
    hour); no hour is returned twice; and asking for one more hour only
    appends to the answer.  The same holds of
    [getTopUnproductiveHours(n)]. *)
Theorem top_hours_are_the_top (n : Z) (m : Memory) :
  (0 <= n)%Z ->
  let p := productiveHoursMap (userProfile m) in
  let u := unproductiveHoursMap (userProfile m) in
  ((forall h h', h ∈ getTopProductiveHours n m -> is_Some (p !! h') ->
                 h' ∉ getTopProductiveHours n m -> ranks_before p h h') /\
   NoDup (getTopProductiveHours n m) /\
   getTopProductiveHours n m `prefix_of` getTopProductiveHours (n + 1) m) /\
  ((forall h h', h ∈ getTopUnproductiveHours n m -> is_Some (u !! h') ->
                 h' ∉ getTopUnproductiveHours n m -> ranks_before u h h') /\
   NoDup (getTopUnproductiveHours n m) /\
   getTopUnproductiveHours n m `prefix_of` getTopUnproductiveHours (n + 1) m).
Proof.
  intros Hn p u. unfold getTopProductiveHours, getTopUnproductiveHours.
  split.
  - exact (topHours_top n p Hn).
  - exact (topHours_top n u Hn).
Qed.

Lemma top_hours_are_the_top_witness :
  let m := mkMemory [] None (mkProfile tied_hours ∅ 0.5 0 0 0 0) in
  ranks_before tied_hours 14 20 /\ NoDup (getTopProductiveHours 3 m).
Proof.
  intros m.
  destruct (top_hours_are_the_top 3 m ltac:(lia)) as ((Hrank & Hnd & _) & _).
  split; [|exact Hnd].
  apply Hrank.
  - vm_compute. repeat constructor.
  - exists 1. vm_compute. reflexivity.
  - vm_compute. intros H.
    repeat (apply elem_of_cons in H as [H|H]; [discriminate H|]).
    inversion H.
Defined.

(** ** Restarting from the file *)

Lemma load_of_document m m0 text :
  safe_integers m = true ->
  survives_text (rate m) ->
  JSON_stringify (document m) = Some text ->
  load (mkWorld m0 (Some text))
  = Returns (mkWorld (mkMemory (sessions m) (currentSession m0) (userProfile m))
                     (Some text)).
Proof.
  intros Hsafe Hrate Ht.
  destruct (JSON_parse_stringify (document m) (printable_document m Hsafe Hrate))
    as (text' & Es & Ep).
  rewrite Ht in Es. apply (inj Some) in Es. subst text'.
  unfold load, load_try. unfold_monad. cbn [disk mem]. rewrite Ep.
  unfold safe_integers in Hsafe. apply andb_prop in Hsafe as [Hss Hp].
  assert (Eg1 : get (document m) k_sessions
                = Ok (JSArray (map json_of_session (sessions m)) [])).
  { reflexivity. }
  assert (Eg2 : get (document m) k_userProfile
                = Ok (json_of_profile (userProfile m))).
  { reflexivity. }
  rewrite Eg1, Eg2.
  cbn [truthy]. unfold json_of_profile at 1. cbn [truthy].
  rewrite as_sessions_encoded by assumption.
  rewrite as_profile_encoded by assumption.
  reflexivity.
Qed.

Lemma disk_after_save w w0 :
  disk (after (save true w) w0) = JSON_stringify (document (mem w)).
Proof.
  destruct (save_outcome true w) as (text & Et & ->). cbn [after disk].
  symmetry. exact Et.
Qed.

Lemma saves_in_sync getHours o w :
  saves o w = true ->
  disk (op getHours o w) = JSON_stringify (document (mem (op getHours o w))).
Proof.
  destruct o as [now ok|endNow updNow ok productive summary|ok|b];
    cbn [saves op]; intros Hs.
  - subst ok. rewrite mem_startSession. unfold startSession.
    rewrite disk_after_save. reflexivity.
  - apply andb_prop in Hs as [-> Ho].
    destruct (currentSession (mem w)) as [cur|] eqn:E; [|discriminate].
    rewrite (mem_endSession_open _ _ _ _ _ _ _ _ E).
    unfold endSession. rewrite E. rewrite disk_after_save. cbn [mem].
    destruct (Nat.ltb_spec 100
                (length (sessions (mem w) ++
                   [mkSession (startTime cur) (Some endNow) productive
                              (interventionsCount cur) summary]))) as [Hl|Hl].
    + reflexivity.
    + rewrite last_n_short by exact Hl. reflexivity.
  - apply andb_prop in Hs as [-> Ho].
    destruct (currentSession (mem w)) as [cur|] eqn:E; [|discriminate].
    rewrite (mem_recordIntervention_open _ _ _ E).
    unfold recordIntervention. rewrite E. rewrite disk_after_save. reflexivity.
  - discriminate.
Qed.

(** X9. A call that saves leaves a file from which the state can be
    restored: after a [startSession], or an [endSession] or
    [recordIntervention] with a session open, whose write succeeds,
    [load()] on a new [MemorySystem] gives the sessions and the profile
    that are in memory then, in the same order and with the same values.
    The open session is not part of the file and is not restored.  (For
    states whose integers are exact in a JavaScript number and whose rate
    survives being written and read.) *)
Theorem restart_recovers_saved_state getHours o w now :
  saves o w = true ->
  let w' := op getHours o w in
  safe_integers (mem w') = true ->
  survives_text (rate (mem w')) ->
  exists text,
    disk w' = Some text /\
    load (mkWorld (constructor now) (Some text))
    = Returns (mkWorld (mkMemory (sessions (mem w')) None (userProfile (mem w')))
                       (Some text)).
Proof.
  intros Hs w' Hsafe Hrate.
  pose proof (saves_in_sync getHours o w Hs) as Hd. fold w' in Hd.
  destruct (document_serializes (mem w')) as [text Et].
  exists text. split; [rewrite Hd; exact Et|].
  apply (load_of_document (mem w') (constructor now) text Hsafe Hrate Et).
Qed.

Lemma restart_recovers_saved_state_witness :
  let w' := op utcHours (OpRecordIntervention true) (fresh_store 1700000000000) in
  exists text,
    disk w' = Some text /\
    load (mkWorld (constructor 1700000500000) (Some text))
    = Returns (mkWorld (mkMemory (sessions (mem w')) None (userProfile (mem w')))
                       (Some text)).
Proof.
  exact (restart_recovers_saved_state utcHours (OpRecordIntervention true)
           (fresh_store 1700000000000) 1700000500000
           ltac:(vm_compute; reflexivity)
           ltac:(vm_compute; reflexivity)
           ltac:(exists (JsNum false 5 (-1));
                 split; [vm_compute; reflexivity|];
                 split; vm_compute; reflexivity)).
Defined.
(* ===================================================================== *)
(** * Further properties of the decision engine: proofs *)
(* ===================================================================== *)

(** ** The regular expression *)

Lemma elem_of_rev {A} (x : A) l : x ∈ rev l <-> x ∈ l.
Proof. rewrite !list_elem_of_In. symmetry. apply in_rev. Qed.

Lemma from_first_app c pre t :
  c ∉ pre -> from_first c (pre ++ c :: t) = Some (c :: t).
Proof.
  induction pre as [|d pre IH]; intros H; cbn [app from_first].
  - rewrite N.eqb_refl. reflexivity.
  - apply not_elem_of_cons in H as [Hne H].
    destruct (N.eqb_spec d c) as [->|_]; [congruence|]. apply IH. exact H.
Qed.

Lemma from_first_inv c s t :
  from_first c s = Some t ->
  exists pre t', s = pre ++ c :: t' /\ (c ∉ pre) /\ t = c :: t'.
Proof.
  induction s as [|d s IH]; cbn [from_first]; [discriminate|].
  destruct (N.eqb_spec d c) as [->|Hne].
  - intros [= <-]. exists [], s. split; [reflexivity|].
    split; [apply not_elem_of_nil|reflexivity].
  - intros H. destruct (IH H) as (pre & t' & -> & Hpre & ->).
    exists (d :: pre), t'. split; [reflexivity|]. split; [|reflexivity].
    apply not_elem_of_cons. split; [congruence|exact Hpre].
Qed.

Lemma from_first_None c s : from_first c s = None <-> c ∉ s.
Proof.
  induction s as [|d s IH]; cbn [from_first].
  - split; [intros _; apply not_elem_of_nil|reflexivity].
  - rewrite not_elem_of_cons. destruct (N.eqb_spec d c) as [->|Hne].
    + split; [discriminate|]. intros [H _]. congruence.
    + rewrite IH. split; [intros H; split; congruence|tauto].
Qed.

Lemma through_last_app c t suf :
  c ∉ suf -> through_last c (t ++ c :: suf) = Some (t ++ [c]).
Proof.
  intros H. unfold through_last. rewrite rev_app_distr. cbn [rev].
  rewrite <- app_assoc. cbn [app].
  rewrite from_first_app by (rewrite elem_of_rev; exact H).
  cbn [rev]. rewrite rev_involutive. reflexivity.
Qed.

Lemma through_last_inv c s t :
  through_last c s = Some t ->
  exists t' suf, s = t' ++ c :: suf /\ (c ∉ suf) /\ t = t' ++ [c].
Proof.
  unfold through_last. destruct (from_first c (rev s)) as [r|] eqn:E; [|discriminate].
  intros [= <-]. apply from_first_inv in E as (pre & r' & Es & Hpre & ->).
  exists (rev r'), (rev pre). split; [|split].
  - rewrite <- (rev_involutive s), Es, rev_app_distr. cbn [rev].
    rewrite <- app_assoc. reflexivity.
  - rewrite elem_of_rev. exact Hpre.
  - reflexivity.
Qed.

Lemma through_last_None c s : through_last c s = None <-> c ∉ s.
Proof.
  unfold through_last. destruct (from_first c (rev s)) as [r|] eqn:E.
  - split; [discriminate|]. intros H. exfalso.
    apply from_first_inv in E as (pre & r' & Es & _).
    apply H. apply elem_of_rev. rewrite Es. apply elem_of_app. right. left.
  - apply from_first_None in E. rewrite elem_of_rev in E. tauto.
Qed.

Lemma match_braces_of_span response m :
  braces_span response m -> match_braces response = Some m.
Proof.
  intros (pre & mid & suf & -> & -> & Hpre & Hsuf). unfold match_braces.
  assert (E : (123 :: mid ++ [125]) ++ suf = 123 :: (mid ++ 125 :: suf)).
  { cbn [app]. rewrite <- app_assoc. reflexivity. }
  rewrite E, from_first_app by exact Hpre.
  change (123 :: mid ++ 125 :: suf) with ((123 :: mid) ++ 125 :: suf).
  rewrite through_last_app by exact Hsuf. reflexivity.
Qed.

Lemma span_of_match_braces response m :
  match_braces response = Some m -> braces_span response m.
Proof.
  unfold match_braces.
  destruct (from_first 123 response) as [s|] eqn:E; [|discriminate].
  intros H. apply from_first_inv in E as (pre & t' & -> & Hpre & ->).
  apply through_last_inv in H as (t & suf & Es & Hsuf & ->).
  destruct t as [|x mid]; [discriminate|].
  cbn in Es. injection Es as <- ->.
  exists pre, mid, suf. split; [|split; [reflexivity|split; assumption]].
  cbn [app]. rewrite <- app_assoc. reflexivity.
Qed.

(** X10. The regular expression of [parseAgentDecision] matches from the
    first opening brace of the response through its last closing brace:
    the match is the text between them, braces included, whatever lies in
    between; and there is no match exactly when the response has no
    opening brace, or no closing brace after the first opening one. *)
Theorem match_braces_first_to_last response :
  (forall m, match_braces response = Some m <-> braces_span response m) /\
  (match_braces response = None <->
   forall pre rest, response = pre ++ 123 :: rest -> 125 ∉ rest).
Proof.
  split.
  - intros m. split; [apply span_of_match_braces|apply match_braces_of_span].
  - unfold match_braces. split.
    + intros H pre rest ->.
      destruct (from_first 123 (pre ++ 123 :: rest)) as [s|] eqn:E.
      * apply through_last_None in H.
        apply from_first_inv in E as (pre' & t' & Es & Hpre' & ->).
        intros Hin. apply H. right.
        assert (Hsuffix : exists k, t' = k ++ rest).
        { clear H Hin. revert pre' Es Hpre'.
          induction pre as [|p pre IH]; intros pre' Es Hpre'.
          - destruct pre' as [|p' pre'].
            + cbn in Es. injection Es as ->. exists []. reflexivity.
            + cbn in Es. injection Es as <- _. exfalso. apply Hpre'. left.
          - destruct pre' as [|p' pre'].
            + cbn in Es. injection Es as -> <-.
              exists (pre ++ [123]). rewrite <- app_assoc. reflexivity.
            + cbn in Es. injection Es as <- Es. apply (IH pre' Es).
              intros Hx. apply Hpre'. right. exact Hx. }
        destruct Hsuffix as [k ->]. apply elem_of_app. right. exact Hin.
      * apply from_first_None in E. exfalso. apply E.
        apply elem_of_app. right. left.
    + intros H. destruct (from_first 123 response) as [s|] eqn:E; [|reflexivity].
      apply from_first_inv in E as (pre & t' & -> & _ & ->).
      apply through_last_None. intros [Hx|Hin]%elem_of_cons; [discriminate|].
      exact (H pre t' eq_refl Hin).
Qed.

(** X11. [parseAgentDecision] tolerates prose around the payload: text
    before it that has no opening brace and text after it that has no
    closing brace do not change the decision. *)
Theorem parseAgentDecision_tolerates_prose now pre mid suf :
  123 ∉ pre -> 125 ∉ suf ->
  parseAgentDecision now (pre ++ (123 :: mid ++ [125]) ++ suf)
  = parseAgentDecision now (123 :: mid ++ [125]).
Proof.
  intros Hpre Hsuf. unfold parseAgentDecision, parseAgentDecision_try.
  rewrite (match_braces_of_span (pre ++ (123 :: mid ++ [125]) ++ suf)
             (123 :: mid ++ [125])).
  - rewrite (match_braces_of_span (123 :: mid ++ [125]) (123 :: mid ++ [125]));
      [reflexivity|].
    exists [], mid, []. rewrite app_nil_r.
    split; [reflexivity|]. split; [reflexivity|].
    split; apply not_elem_of_nil.
  - exists pre, mid, suf. auto.
Qed.

Lemma parseAgentDecision_tolerates_prose_witness :
  parseAgentDecision 0
    (js "Here it is: " ++
     (123 :: jsq "'shouldIntervene': false, 'intervention': {'type': 'none'}, 'reasoning': 'ok'" ++ [125])
     ++ js " Hope that helps.")
  = parseAgentDecision 0
      (123 :: jsq "'shouldIntervene': false, 'intervention': {'type': 'none'}, 'reasoning': 'ok'" ++ [125]).
Proof.
  apply parseAgentDecision_tolerates_prose.
  - vm_compute. intros H.
    repeat (apply elem_of_cons in H as [H|H]; [discriminate H|]). inversion H.
  - vm_compute. intros H.
    repeat (apply elem_of_cons in H as [H|H]; [discriminate H|]). inversion H.
Defined.

(** ** The text of the response *)

Lemma responseText_from acc events :
  fold_left (fun text ev => match ev with
                            | TextEvent c => text ++ c
                            | OtherEvent => text
                            end) events acc
  = acc ++ concat (text_chunks events).
Proof.
  revert acc. induction events as [|ev events IH]; intros acc; cbn.
  - rewrite app_nil_r. reflexivity.
  - destruct ev as [c|]; rewrite IH; cbn; [rewrite app_assoc|]; reflexivity.
Qed.

Lemma responseText_concat events :
  responseText events = concat (text_chunks events).
Proof. unfold responseText. apply responseText_from. Qed.

(** X12. The decision depends on the response only through the
    concatenation of the contents of its text events: how the backend
    cuts the text into events does not matter, and events of other types
    are ignored. *)
Theorem decideIntervention_reads_concatenated_text now events h :
  responseText events = concat (text_chunks events) /\
  decideIntervention now (Completed events) h
  = decideIntervention now (Completed [TextEvent (concat (text_chunks events))]) h.
Proof.
  split; [apply responseText_concat|].
  rewrite !decideIntervention_completed. unfold appended_record.
  cbn [fst snd]. rewrite !responseText_concat.
  assert (E : concat (text_chunks [TextEvent (concat (text_chunks events))])
              = concat (text_chunks events)).
  { cbn. apply app_nil_r. }
  rewrite E. reflexivity.
Qed.

(** ** What a decision does to the history *)

Lemma length_addToHistory i h :
  (length h <= maxHistorySize)%nat ->
  (length (addToHistory i h).2 <= maxHistorySize)%nat.
Proof.
  intros H. rewrite addToHistory_last_n by exact H.
  unfold last_n. rewrite length_drop, length_app. cbn [length]. lia.
Qed.

Lemma length_recordInterventionEffectiveness b h :
  length (recordInterventionEffectiveness b h).2 = length h.
Proof.
  destruct (recordInterventionEffectiveness b h) as [r h'] eqn:E.
  destruct (recordInterventionEffectiveness_frame b h r h' E) as [Hl _].
  exact Hl.
Qed.

(** X13. [decideIntervention] changes the history only when the decision
    it returns intervenes: then it appends the [intervention] of that
    decision, and drops the oldest record if that makes more than ten.
    A decision that does not intervene, the default decision among them,
    leaves the history as it was. *)
Theorem decideIntervention_appends_its_intervention now run h :
  exists d s,
    (decideIntervention now run h).1 = Ok d /\
    get d k_shouldIntervene = Ok s /\
    if truthy s
    then exists i,
           get d k_intervention = Ok i /\
           (decideIntervention now run h).2
           = if Nat.ltb maxHistorySize (length (h ++ [i]))
             then tail (h ++ [i]) else h ++ [i]
    else (decideIntervention now run h).2 = h.
Proof.
  destruct run as [events|received e].
  - rewrite decideIntervention_completed. cbn [fst snd].
    unfold appended_record. cbn [fst snd].
    set (d := decision_of now (responseText events)).
    assert (Hd : d = getDefaultDecision now \/ valid_structure d = true).
    { unfold d, decision_of. destruct (extracted_payload _) as [v|]; auto.
      destruct (valid_structure v) eqn:E; auto. }
    destruct Hd as [-> | Hv].
    + exists (getDefaultDecision now), (JSBool false). repeat split.
    + unfold valid_structure in Hv.
      destruct (get d k_shouldIntervene) as [s|] eqn:Es; [|discriminate].
      destruct (get d k_intervention) as [i|] eqn:Ei; [|discriminate].
      exists d, s. split; [reflexivity|]. split; [exact Es|].
      destruct (truthy s); [|reflexivity].
      exists i. split; [exact Ei|reflexivity].
  - exists (getDefaultDecision now), (JSBool false). repeat split.
Qed.


Lemma agent_op_bounded o h :
  (length h <= maxHistorySize)%nat ->
  (length (agent_op o h) <= maxHistorySize)%nat.
Proof.
  intros H. destruct o as [now run|b]; cbn [agent_op].
  - rewrite decideIntervention_history.
    destruct (appended_record (now, run)); [apply length_addToHistory|]; exact H.
  - rewrite length_recordInterventionEffectiveness. exact H.
Qed.

(** X14. The history never grows beyond ten records: from a history of
    at most ten, any series of [decideIntervention] and
    [recordInterventionEffectiveness] calls, in any order, leaves at most
    ten; and [recordInterventionEffectiveness] never changes the number
    of records. *)
Theorem history_stays_bounded ops h :
  (length h <= maxHistorySize)%nat ->
  (length (agent_ops ops h) <= maxHistorySize)%nat /\
  (forall b, length (agent_op (Score b) (agent_ops ops h))
             = length (agent_ops ops h)).
Proof.
  intros H. split.
  - revert h H. induction ops as [|o ops IH]; intros h H; [exact H|].
    cbn. apply IH. apply agent_op_bounded. exact H.
  - intros b. apply length_recordInterventionEffectiveness.
Qed.

Lemma history_stays_bounded_witness :
  (length (agent_ops (map (fun nr => Decide nr.1 nr.2) (alarm_runs 12)
                      ++ [Score true; Decide 0 (Failed [] IOError)]) [])
   <= maxHistorySize)%nat.
Proof.
  apply history_stays_bounded. cbn. lia.
Defined.

(** ** Scoring *)

Lemma assign_prop_twice k v1 v2 ps :
  assign_prop k v2 (assign_prop k v1 ps) = assign_prop k v2 ps.
Proof.
  induction ps as [|[k' v'] ps IH]; cbn.
  - rewrite decide_True by reflexivity. reflexivity.
  - destruct (decide (k = k')) as [->|Hne]; cbn.
    + rewrite decide_True by reflexivity. reflexivity.
    + rewrite decide_False by exact Hne. rewrite IH. reflexivity.
Qed.

Lemma set_twice x k v1 v2 x1 :
  set x k v1 = Ok x1 -> set x1 k v2 = set x k v2.
Proof.
  destruct x; cbn; try discriminate; intros [= <-]; cbn;
    rewrite assign_prop_twice; reflexivity.
Qed.

(** X15. The last score wins: recording the effectiveness twice leaves
    the history that the second recording alone would leave, so a
    repeated recording of the same value changes nothing more. *)
Theorem last_score_wins b1 b2 h :
  agent_op (Score b2) (agent_op (Score b1) h) = agent_op (Score b2) h.
Proof.
  cbn [agent_op]. destruct h as [|x init] using rev_ind; [reflexivity|].
  clear IHinit. rewrite (recordInterventionEffectiveness_snoc b1).
  destruct (set x k_wasEffective (JSBool b1)) as [x1|e] eqn:E1; cbn [snd].
  - rewrite !recordInterventionEffectiveness_snoc.
    rewrite (set_twice _ _ _ _ _ E1).
    destruct (set x k_wasEffective (JSBool b2)) as [x2|e2] eqn:E2; [reflexivity|].
    destruct x; discriminate.
  - reflexivity.
Qed.

(** X16. Assigning [wasEffective] to a record that is not an object
    throws (the sources are modules, hence strict code): when the last
    record of the history is a string, a number or a boolean,
    [recordInterventionEffectiveness] throws a [TypeError] and leaves the
    history as it was.  Such a record can be there: the check of
    [parseAgentDecision] passes a payload whose [intervention] is a
    non-empty string, and [decideIntervention] puts it in the history. *)
Theorem recordInterventionEffectiveness_needs_an_object b h x :
  last h = Some x -> is_primitive x = true ->
  recordInterventionEffectiveness b h = (Throw TypeError, h) /\
  (decideIntervention 0 (Completed [TextEvent string_intervention]) []).2
  = [JSString (js "alarm")].
Proof.
  intros Hlast Hx. split; [|vm_compute; reflexivity].
  apply last_snoc_inv in Hlast as [init ->].
  rewrite recordInterventionEffectiveness_snoc.
  destruct x; try discriminate; reflexivity.
Qed.

Lemma recordInterventionEffectiveness_needs_an_object_witness :
  recordInterventionEffectiveness true
    (decideIntervention 0 (Completed [TextEvent string_intervention]) []).2
  = (Throw TypeError, [JSString (js "alarm")]).
Proof.
  destruct (recordInterventionEffectiveness_needs_an_object true
              [JSString (js "alarm")] (JSString (js "alarm"))
              ltac:(reflexivity) ltac:(reflexivity)) as [H E].
  rewrite E. exact H.
Defined.

Lemma decideIntervention_intervening now run h d h1 i :
  decideIntervention now run h = (Ok d, h1) ->
  get d k_shouldIntervene = Ok (JSBool true) ->
  get d k_intervention = Ok i ->
  h1 = (addToHistory i h).2.
Proof.
  intros Hdec Hs Hi. destruct run as [events|received e].
  - rewrite decideIntervention_completed in Hdec. injection Hdec as Hd Hh.
    unfold appended_record in Hh. cbn [fst snd] in Hh.
    rewrite Hd, Hs, Hi in Hh. cbn [truthy] in Hh. symmetry. exact Hh.
  - rewrite decideIntervention_failed in Hdec. injection Hdec as <- _.
    discriminate Hs.
Qed.

(** X17. Scoring right after an intervening decision scores that
    decision: when the decision returned intervenes and its
    [intervention] is an object, [recordInterventionEffectiveness] then
    returns normally, and the last record of the history is that
    [intervention] with [wasEffective] set to the value given and its
    other properties as they were. *)
Theorem scoring_follows_the_decision now run h d h1 i b :
  decideIntervention now run h = (Ok d, h1) ->
  get d k_shouldIntervene = Ok (JSBool true) ->
  get d k_intervention = Ok i ->
  is_record i = true ->
  exists i' h2,
    recordInterventionEffectiveness b h1 = (Ok tt, h2) /\
    last h2 = Some i' /\
    get i' k_wasEffective = Ok (JSBool b) /\
    same_but_wasEffective i i' /\
    length h2 = length h1.
Proof.
  intros Hdec Hs Hi Hrec.
  pose proof (decideIntervention_intervening now run h d h1 i Hdec Hs Hi) as Hh1.
  assert (Hlast : exists init, h1 = init ++ [i]).
  { rewrite Hh1. unfold addToHistory. cbn [snd].
    destruct (Nat.ltb_spec maxHistorySize (length (h ++ [i]))) as [Hlt|_].
    - destruct h as [|y h']; [cbn in Hlt; unfold maxHistorySize in Hlt; lia|].
      exists h'. reflexivity.
    - exists h. reflexivity. }
  destruct Hlast as [init ->].
  rewrite recordInterventionEffectiveness_snoc.
  destruct (set_record i k_wasEffective (JSBool b) Hrec) as (i' & Eset & Hget & _).
  rewrite Eset. exists i', (init ++ [i']).
  split; [reflexivity|]. split; [apply last_snoc|]. split; [exact Hget|].
  split; [apply (set_same_but _ _ _ Eset)|].
  rewrite !length_app. reflexivity.
Qed.

Lemma scoring_follows_the_decision_witness :
  exists i' h2,
    recordInterventionEffectiveness false [alarm_record 7] = (Ok tt, h2) /\
    last h2 = Some i' /\
    get i' k_wasEffective = Ok (JSBool false).
Proof.
  destruct (scoring_follows_the_decision 7
              (Completed [TextEvent (alarm_response 7)]) []
              (decision_of 7 (alarm_response 7)) [alarm_record 7]
              (alarm_record 7) false
              ltac:(vm_compute; reflexivity) ltac:(vm_compute; reflexivity)
              ltac:(vm_compute; reflexivity) ltac:(reflexivity))
    as (i' & h2 & H1 & H2 & H3 & _).
  exists i', h2. auto.
Defined.

(** ** The analysis of patterns *)

Lemma length_history_after runs :
  length (history_after runs [])
  = Nat.min maxHistorySize (length (appended_records runs)).
Proof.
  rewrite history_after_last_n by (cbn; lia). cbn [app].
  unfold last_n. rewrite length_drop. lia.
Qed.

(** X18. [analyzeProductivityPatterns] asks the backend only when the
    history holds three records or more.  On an agent whose decisions
    have intervened fewer than three times it returns the fixed message
    whatever the backend would do; otherwise it returns the concatenated
    text of the backend's events, and a failure of the backend is thrown
    to the caller: unlike [decideIntervention] it has no fallback.  It
    never changes the history. *)
Theorem analysis_needs_three_interventions runs run :
  let h := history_after runs [] in
  (analyzeProductivityPatterns run h).2 = h /\
  ((length (appended_records runs) < 3)%nat ->
     (analyzeProductivityPatterns run h).1
     = Ok (js "Not enough data yet to analyze patterns.")) /\
  ((3 <= length (appended_records runs))%nat ->
     (analyzeProductivityPatterns run h).1
     = match run with
       | Completed events => Ok (concat (text_chunks events))
       | Failed _ e => Throw e
       end).
Proof.
  intros h. unfold analyzeProductivityPatterns.
  pose proof (length_history_after runs) as Hlen. fold h in Hlen.
  unfold maxHistorySize in Hlen.
  destruct (Nat.ltb_spec (length h) 3) as [Hlt|Hge]; cbn [fst snd].
  - split; [reflexivity|]. split; [reflexivity|]. lia.
  - split; [reflexivity|]. split; [lia|]. intros _.
    destruct run as [events|received e]; cbn [drain]; [|reflexivity].
    rewrite responseText_concat. reflexivity.
Qed.

Lemma analysis_needs_three_interventions_witness :
  (analyzeProductivityPatterns (Failed [] IOError)
     (history_after (alarm_runs 2) [])).1
  = Ok (js "Not enough data yet to analyze patterns.") /\
  (analyzeProductivityPatterns (Failed [] IOError)
     (history_after (alarm_runs 3) [])).1
  = Throw IOError.
Proof.
  split.
  - apply (analysis_needs_three_interventions (alarm_runs 2) (Failed [] IOError)).
    vm_compute. lia.
  - apply (analysis_needs_three_interventions (alarm_runs 3) (Failed [] IOError)).
    vm_compute. lia.
Defined.
(* ===================================================================== *)
(** * Text after a JSON value *)
(* ===================================================================== *)

(** What the parser reads of a text it reads also when more text follows,
    and it leaves that text behind. *)

Lemma skip_ws_ext s c s1 t :
  skip_ws s = c :: s1 -> skip_ws (s ++ t) = c :: s1 ++ t.
Proof.
  induction s as [|d s IH]; cbn [skip_ws app]; [discriminate|].
  destruct (is_ws d); [exact IH|]. intros [= -> ->]. reflexivity.
Qed.

Lemma cons_fst_ext {A} (a : A) (r : option (list A * list N)) l b t :
  cons_fst a r = Some (l, b) ->
  cons_fst a (match r with
              | Some (l', b') => Some (l', b' ++ t)
              | None => None
              end) = Some (l, b ++ t).
Proof. destruct r as [[l' b']|]; cbn; [|discriminate]. intros [= <- <-]. reflexivity. Qed.

Lemma parse_chars_ext s k r t :
  parse_chars s = Some (k, r) -> parse_chars (s ++ t) = Some (k, r ++ t).
Proof.
  remember (length s) as n eqn:Hn. revert s k r Hn.
  induction n as [n IH] using lt_wf_ind. intros s k r Hn E.
  destruct s as [|c s1]; [discriminate|]. cbn [parse_chars app] in *.
  cbn [length] in Hn. subst n.
  assert (Hrec : forall u k' r', (length u <= length s1)%nat ->
            parse_chars u = Some (k', r') ->
            parse_chars (u ++ t) = Some (k', r' ++ t)).
  { intros u k' r' Hu Eu. apply (IH (length u) ltac:(lia) u k' r' eq_refl Eu). }
  destruct (c =? 34); [injection E as <- <-; reflexivity|].
  destruct (c =? 92).
  - destruct s1 as [|e s2]; [discriminate|]. cbn [app].
    destruct (e =? 117).
    + destruct s2 as [|h1 [|h2 [|h3 [|h4 s3]]]]; try discriminate. cbn [app].
      destruct (hex4 h1 h2 h3 h4); [|discriminate].
      destruct (parse_chars s3) as [[k' r']|] eqn:E3; [|discriminate].
      rewrite (Hrec s3 k' r' ltac:(cbn [length]; lia) E3).
      cbn in E |- *. injection E as <- <-. reflexivity.
    + destruct (unescape e); [|discriminate].
      destruct (parse_chars s2) as [[k' r']|] eqn:E2; [|discriminate].
      rewrite (Hrec s2 k' r' ltac:(cbn [length]; lia) E2).
      cbn in E |- *. injection E as <- <-. reflexivity.
  - destruct (c <? 32); [discriminate|].
    destruct (parse_chars s1) as [[k' r']|] eqn:E1; [|discriminate].
    rewrite (Hrec s1 k' r' ltac:(lia) E1).
    cbn in E |- *. injection E as <- <-. reflexivity.
Qed.

Lemma span_digits_ext s ds c r t :
  span_digits s = (ds, c :: r) -> span_digits (s ++ t) = (ds, c :: r ++ t).
Proof.
  revert ds. induction s as [|d s IH]; intros ds; cbn [span_digits app];
    [discriminate|].
  destruct (is_digit d).
  - destruct (span_digits s) as [ds' r'] eqn:Es. intros [= <- ->].
    rewrite (IH ds' eq_refl). reflexivity.
  - intros [= <- -> ->]. reflexivity.
Qed.

Lemma parse_frac_ext s fp c r t :
  parse_frac s = Some (fp, c :: r) -> parse_frac (s ++ t) = Some (fp, c :: r ++ t).
Proof.
  destruct s as [|d s]; cbn [parse_frac app]; [discriminate|].
  destruct (d =? 46).
  - destruct (span_digits s) as [ds r'] eqn:Es.
    destruct ds as [|x ds]; [discriminate|]. intros [= <- ->].
    rewrite (span_digits_ext _ _ _ _ t Es). reflexivity.
  - intros [= <- -> ->]. reflexivity.
Qed.

Lemma parse_exp_ext s e c r t :
  parse_exp s = Some (e, c :: r) -> parse_exp (s ++ t) = Some (e, c :: r ++ t).
Proof.
  destruct s as [|d s]; cbn [parse_exp app]; [discriminate|].
  destruct ((d =? 101) || (d =? 69)); [|intros [= <- -> ->]; reflexivity].
  destruct s as [|g u]; [cbn; discriminate|]. cbn [app].
  destruct (g =? 45); [|destruct (g =? 43)].
  - destruct (span_digits u) as [ep r0] eqn:Eu.
    destruct ep as [|x ep]; [discriminate|]. intros [= <- ->].
    rewrite (span_digits_ext _ _ _ _ t Eu). reflexivity.
  - destruct (span_digits u) as [ep r0] eqn:Eu.
    destruct ep as [|x ep]; [discriminate|]. intros [= <- ->].
    rewrite (span_digits_ext _ _ _ _ t Eu). reflexivity.
  - destruct (span_digits (g :: u)) as [ep r0] eqn:Eu.
    destruct ep as [|x ep]; [discriminate|]. intros [= <- ->].
    change (g :: u ++ t) with ((g :: u) ++ t).
    rewrite (span_digits_ext _ _ _ _ t Eu). reflexivity.
Qed.

Lemma parse_number_ext s n c r t :
  parse_number s = Some (n, c :: r) ->
  parse_number (s ++ t) = Some (n, c :: r ++ t).
Proof.
  unfold parse_number.
  assert (H : forall neg s0,
    match span_digits s0 with
    | (ip, s1) =>
        match ip with
        | [] => None
        | d :: ip' =>
            if (d =? 0) && (match ip' with [] => false | _ :: _ => true end)
            then None
            else
              match parse_frac s1 with
              | None => None
              | Some (fp, s2) =>
                  match parse_exp s2 with
                  | None => None
                  | Some (e, s3) =>
                      Some (JsNum neg (digits_value (ip ++ fp))
                                  (e - Z.of_nat (length fp))%Z, s3)
                  end
              end
        end
    end = Some (n, c :: r) ->
    match span_digits (s0 ++ t) with
    | (ip, s1) =>
        match ip with
        | [] => None
        | d :: ip' =>
            if (d =? 0) && (match ip' with [] => false | _ :: _ => true end)
            then None
            else
              match parse_frac s1 with
              | None => None
              | Some (fp, s2) =>
                  match parse_exp s2 with
                  | None => None
                  | Some (e, s3) =>
                      Some (JsNum neg (digits_value (ip ++ fp))
                                  (e - Z.of_nat (length fp))%Z, s3)
                  end
              end
        end
    end = Some (n, c :: r ++ t)).
  { intros neg s0.
    destruct (span_digits s0) as [ip s1] eqn:E0.
    destruct ip as [|d ip']; [discriminate|].
    destruct ((d =? 0) && _) eqn:Ez; [discriminate|].
    destruct (parse_frac s1) as [[fp s2]|] eqn:Ef; [|discriminate].
    destruct (parse_exp s2) as [[e s3]|] eqn:Ee; [|discriminate].
    intros [= <- ->].
    destruct s2 as [|c2 s2']; [discriminate Ee|].
    destruct s1 as [|c1 s1']; [discriminate Ef|].
    rewrite (span_digits_ext _ _ _ _ t E0), Ez.
    change (c1 :: s1' ++ t) with ((c1 :: s1') ++ t).
    rewrite (parse_frac_ext _ _ _ _ t Ef).
    change (c2 :: s2' ++ t) with ((c2 :: s2') ++ t).
    rewrite (parse_exp_ext _ _ _ _ t Ee). reflexivity. }
  destruct s as [|d s']; [discriminate|]. cbn [app].
  destruct (d =? 45).
  - apply H.
  - apply (H false (d :: s')).
Qed.

Lemma expect_ext w s r t : expect w s = Some r -> expect w (s ++ t) = Some (r ++ t).
Proof.
  revert s. induction w as [|a w IH]; intros s; cbn [expect].
  - intros [= <-]. reflexivity.
  - destruct s as [|b s]; [discriminate|]. cbn [app].
    destruct (a =? b); [apply IH|discriminate].
Qed.

Lemma parse_ext fuel t :
  (forall s v r, parse_value fuel s = Some (v, r) ->
                 r <> [] \/ not_a_number v ->
                 parse_value fuel (s ++ t) = Some (v, r ++ t)) /\
  (forall s es r, parse_elements fuel s = Some (es, r) ->
                  parse_elements fuel (s ++ t) = Some (es, r ++ t)) /\
  (forall s acc ps r, parse_members fuel s acc = Some (ps, r) ->
                      parse_members fuel (s ++ t) acc = Some (ps, r ++ t)).
Proof.
  induction fuel as [|fuel (IHv & IHe & IHm)];
    [split; [|split]; intros; discriminate|].
  split; [|split].
  - intros s v r E Hr. cbn [parse_value] in E |- *.
    destruct (skip_ws s) as [|c s1] eqn:Es; [discriminate|].
    rewrite (skip_ws_ext _ _ _ t Es).
    destruct (c =? 123).
    { destruct (skip_ws s1) as [|d s2] eqn:Es1; [discriminate|].
      rewrite (skip_ws_ext _ _ _ t Es1).
      destruct (d =? 125); [injection E as <- <-; reflexivity|].
      destruct (parse_members fuel s1 []) as [[ps r']|] eqn:Em; [|discriminate].
      injection E as <- <-. rewrite (IHm _ _ _ _ Em). reflexivity. }
    destruct (c =? 91).
    { destruct (skip_ws s1) as [|d s2] eqn:Es1; [discriminate|].
      rewrite (skip_ws_ext _ _ _ t Es1).
      destruct (d =? 93); [injection E as <- <-; reflexivity|].
      destruct (parse_elements fuel s1) as [[es r']|] eqn:Ee; [|discriminate].
      injection E as <- <-. rewrite (IHe _ _ _ Ee). reflexivity. }
    destruct (c =? 34).
    { destruct (parse_chars s1) as [[str r']|] eqn:Ec; [|discriminate].
      injection E as <- <-. rewrite (parse_chars_ext _ _ _ t Ec). reflexivity. }
    destruct (c =? 116).
    { destruct (expect (js "rue") s1) as [r'|] eqn:Ex; [|discriminate].
      injection E as <- <-. rewrite (expect_ext _ _ _ t Ex). reflexivity. }
    destruct (c =? 102).
    { destruct (expect (js "alse") s1) as [r'|] eqn:Ex; [|discriminate].
      injection E as <- <-. rewrite (expect_ext _ _ _ t Ex). reflexivity. }
    destruct (c =? 110).
    { destruct (expect (js "ull") s1) as [r'|] eqn:Ex; [|discriminate].
      injection E as <- <-. rewrite (expect_ext _ _ _ t Ex). reflexivity. }
    destruct (parse_number (c :: s1)) as [[n r']|] eqn:En; [|discriminate].
    injection E as <- <-.
    destruct r' as [|c' r'']; [destruct Hr as [Hr|[]]; congruence|].
    change (c :: s1 ++ t) with ((c :: s1) ++ t).
    rewrite (parse_number_ext _ _ _ _ t En). reflexivity.
  - intros s es r E. rewrite parse_elements_S in E |- *.
    destruct (parse_value fuel s) as [[v r0]|] eqn:Ev; [|discriminate].
    destruct (skip_ws r0) as [|c r1] eqn:Er; [discriminate|].
    assert (Hr0 : r0 <> []) by (intros ->; discriminate Er).
    rewrite (IHv _ _ _ Ev (or_introl Hr0)).
    rewrite (skip_ws_ext _ _ _ t Er).
    destruct (c =? 93); [injection E as <- <-; reflexivity|].
    destruct (c =? 44); [|discriminate].
    destruct (parse_elements fuel r1) as [[es' r']|] eqn:Ee; [|discriminate].
    cbn in E. injection E as <- <-. rewrite (IHe _ _ _ Ee). reflexivity.
  - intros s acc ps r E. rewrite parse_members_S in E |- *.
    destruct (skip_ws s) as [|q s1] eqn:Es; [discriminate|].
    rewrite (skip_ws_ext _ _ _ t Es).
    destruct (q =? 34); [|discriminate].
    destruct (parse_chars s1) as [[k s2]|] eqn:Ec; [|discriminate].
    rewrite (parse_chars_ext _ _ _ t Ec).
    destruct (skip_ws s2) as [|colon s3] eqn:Es2; [discriminate|].
    rewrite (skip_ws_ext _ _ _ t Es2).
    destruct (colon =? 58); [|discriminate].
    destruct (parse_value fuel s3) as [[v r0]|] eqn:Ev; [|discriminate].
    destruct (skip_ws r0) as [|c r1] eqn:Er; [discriminate|].
    assert (Hr0 : r0 <> []) by (intros ->; discriminate Er).
    rewrite (IHv _ _ _ Ev (or_introl Hr0)).
    rewrite (skip_ws_ext _ _ _ t Er).
    destruct (c =? 125); [injection E as <- <-; reflexivity|].
    destruct (c =? 44); [|discriminate].
    apply IHm. exact E.
Qed.
(* ===================================================================== *)
(** * The analyzer, the monitor and the detectors: proofs *)
(* ===================================================================== *)

(** ** The screen analyzer *)

Lemma analyzeCurrentActivity_outcome c :
  ScreenAnalyzer.analyzeCurrentActivity c = Ok (analysis_after c).
Proof.
  unfold ScreenAnalyzer.analyzeCurrentActivity, ScreenAnalyzer.parseResponse,
    analysis_after.
  unfold_monad.
  destruct c as [|e|[|[text|] rest]]; try reflexivity.
  destruct (JSON_parse text); reflexivity.
Qed.

Lemma analysis_fallback c :
  parsed_reply c = None ->
  analysis_after c = ScreenAnalyzer.analysisFailed \/
  analysis_after c = ScreenAnalyzer.parseFailed.
Proof.
  unfold parsed_reply, analysis_after.
  destruct c as [|e|[|[text|] rest]]; auto. intros ->. auto.
Qed.

Lemma analysis_parsed c a : parsed_reply c = Some a -> analysis_after c = a.
Proof.
  unfold parsed_reply, analysis_after.
  destruct c as [|e|[|[text|] rest]]; try discriminate. intros ->. reflexivity.
Qed.

(** X19. [analyzeCurrentActivity] never throws.  Unless the first block
    of the model's reply is a text that [JSON.parse] accepts, the
    analysis returned is one of two fixed ones, both reporting no
    procrastination with confidence 0: when the host is not Windows, when
    the capture or the request fails, when the reply has no block, when
    its first block is not text, or when the text does not parse (text
    around the JSON included: nothing is extracted here).  A text that
    parses is returned as parsed, unchecked. *)
Theorem analyzeCurrentActivity_fails_closed c :
  exists a,
    ScreenAnalyzer.analyzeCurrentActivity c = Ok a /\
    match parsed_reply c with
    | Some v => a = v
    | None =>
        (a = ScreenAnalyzer.analysisFailed \/ a = ScreenAnalyzer.parseFailed) /\
        reports_nothing a
    end.
Proof.
  rewrite analyzeCurrentActivity_outcome. eexists. split; [reflexivity|].
  destruct (parsed_reply c) as [v|] eqn:E.
  - apply analysis_parsed. exact E.
  - destruct (analysis_fallback c E) as [-> | ->];
      (split; [auto|split; reflexivity]).
Qed.

(** ** Conversions *)

Lemma ToString_array es named :
  ToString (JSArray es named) =
    if has_own (js "toString") named then Throw TypeError
    else if has_own (js "join") named then Ok (js "[object Array]")
    else joined es.
Proof.
  cbn [ToString]. destruct (has_own _ named); [reflexivity|].
  destruct (has_own _ named); [reflexivity|].
  induction es as [|e es IH]; [reflexivity|].
  cbn [joined]. rewrite <- IH. destruct e; reflexivity.
Qed.

(** A conversion to a string throws nothing but a [TypeError]. *)
Lemma ToString_throws v e : ToString v = Throw e -> e = TypeError.
Proof.
  revert e.
  induction v as [| |b|n|s|es named IH|ps IH] using JSValue_nested_ind;
    intros e; try discriminate.
  - destruct b; discriminate.
  - rewrite ToString_array. destruct (has_own _ named); [congruence|].
    destruct (has_own _ named); [discriminate|].
    induction IH as [|x es Hx _ IHes]; [discriminate|].
    cbn [joined].
    destruct (element_string x) as [sx|ex] eqn:Ex.
    + destruct es as [|y es]; [discriminate|].
      destruct (joined (y :: es)) as [r|er]; [discriminate|].
      intros [= <-]. apply IHes. reflexivity.
    + intros [= <-]. apply Hx.
      destruct x; try discriminate Ex; exact Ex.
  - cbn [ToString]. destruct (has_own _ ps); [congruence|discriminate].
Qed.

Lemma ToNumber_converts v :
  ToNumber v = if converts v then Ok (number_of v) else Throw TypeError.
Proof.
  unfold converts, number_of.
  destruct v as [| |b|n|s|es named|ps]; try reflexivity.
  - destruct b; reflexivity.
  - unfold ToNumber.
    destruct (ToString (JSArray es named)) as [s|e] eqn:E; [reflexivity|].
    rewrite (ToString_throws _ _ E). reflexivity.
  - unfold ToNumber.
    destruct (ToString (JSObject ps)) as [s|e] eqn:E; [reflexivity|].
    rewrite (ToString_throws _ _ E). reflexivity.
Qed.

Lemma converts_false v : converts v = false -> ToString v = Throw TypeError.
Proof.
  unfold converts. destruct (ToString v) as [s|e] eqn:E; [discriminate|].
  rewrite (ToString_throws _ _ E). reflexivity.
Qed.

(** Text without white space is its own trimmed text. *)
Lemma trim_start_head c s : is_str_ws c = false -> trim_start (c :: s) = c :: s.
Proof. intros H. cbn [trim_start]. rewrite H. reflexivity. Qed.

Lemma trim_no_space s :
  Forall (fun c => is_str_ws c = false) s -> trim s = s.
Proof.
  intros H. unfold trim.
  assert (E : trim_start s = s).
  { destruct H; [reflexivity|]. apply trim_start_head. assumption. }
  rewrite E.
  assert (Hr : Forall (fun c => is_str_ws c = false) (rev s)).
  { apply List.Forall_rev. exact H. }
  assert (E' : trim_start (rev s) = rev s).
  { destruct Hr; [reflexivity|]. apply trim_start_head. assumption. }
  rewrite E'. apply rev_involutive.
Qed.

Lemma number_char_no_space c : number_char c -> is_str_ws c = false.
Proof.
  unfold number_char, is_digit, is_str_ws.
  intros [H|[->|[->|[->|[->| ->]]]]]; try reflexivity.
  apply andb_prop in H as [H1 H2].
  apply N.leb_le in H1. apply N.leb_le in H2.
  repeat match goal with
  | |- context [(?a <=? ?b)] => destruct (N.leb_spec a b); try lia
  | |- context [(?a =? ?b)] => destruct (N.eqb_spec a b); try lia
  end; reflexivity.
Qed.

(** What the parser of numbers takes off a text are characters of a
    number. *)
Lemma span_digits_chars_of s ds r :
  span_digits s = (ds, r) ->
  exists lit, s = lit ++ r /\ Forall number_char lit.
Proof.
  revert ds r. induction s as [|c s IH]; intros ds r; cbn [span_digits].
  - intros [= <- <-]. exists []. split; [reflexivity|constructor].
  - destruct (is_digit c) eqn:Ec.
    + destruct (span_digits s) as [ds' r'] eqn:Es. intros [= <- <-].
      destruct (IH ds' r' eq_refl) as (lit & -> & Hl).
      exists (c :: lit). split; [reflexivity|].
      apply Forall_cons_2; [left; exact Ec|exact Hl].
    + intros [= <- <-]. exists []. split; [reflexivity|constructor].
Qed.

Lemma parse_frac_chars_of s fp r :
  parse_frac s = Some (fp, r) ->
  exists lit, s = lit ++ r /\ Forall number_char lit.
Proof.
  destruct s as [|c s]; cbn [parse_frac].
  - intros [= <- <-]. exists []. split; [reflexivity|constructor].
  - destruct (N.eqb_spec c 46) as [->|Hc].
    + destruct (span_digits s) as [ds r'] eqn:Es.
      destruct ds as [|x ds]; [discriminate|]. intros [= <- <-].
      destruct (span_digits_chars_of _ _ _ Es) as (lit & -> & Hl).
      exists (46 :: lit). split; [reflexivity|].
      apply Forall_cons_2; [unfold number_char; auto|exact Hl].
    + intros [= <- <-]. exists []. split; [reflexivity|constructor].
Qed.

Lemma parse_exp_chars_of s e r :
  parse_exp s = Some (e, r) ->
  exists lit, s = lit ++ r /\ Forall number_char lit.
Proof.
  destruct s as [|c s]; cbn [parse_exp].
  - intros [= <- <-]. exists []. split; [reflexivity|constructor].
  - destruct ((c =? 101) || (c =? 69)) eqn:Ec;
      [|intros [= <- <-]; exists []; split; [reflexivity|constructor]].
    assert (Hc : number_char c).
    { apply orb_prop in Ec as [Ec|Ec]; apply N.eqb_eq in Ec; subst;
        unfold number_char; auto 7. }
    destruct s as [|g u].
    + cbn. discriminate.
    + destruct (N.eqb_spec g 45) as [->|Hg]; [|destruct (N.eqb_spec g 43) as [->|Hg']].
      * destruct (span_digits u) as [ep r0] eqn:Eu.
        destruct ep as [|x ep]; [discriminate|]. intros [= <- <-].
        destruct (span_digits_chars_of _ _ _ Eu) as (lit & -> & Hl).
        exists (c :: 45 :: lit). split; [reflexivity|].
        apply Forall_cons_2; [exact Hc|].
        apply Forall_cons_2; [unfold number_char; auto|exact Hl].
      * destruct (span_digits u) as [ep r0] eqn:Eu.
        destruct ep as [|x ep]; [discriminate|]. intros [= <- <-].
        destruct (span_digits_chars_of _ _ _ Eu) as (lit & -> & Hl).
        exists (c :: 43 :: lit). split; [reflexivity|].
        apply Forall_cons_2; [exact Hc|].
        apply Forall_cons_2; [unfold number_char; auto|exact Hl].
      * destruct (span_digits (g :: u)) as [ep r0] eqn:Eu.
        destruct ep as [|x ep]; [discriminate|]. intros [= <- <-].
        destruct (span_digits_chars_of _ _ _ Eu) as (lit & E & Hl).
        exists (c :: lit). split; [rewrite E; reflexivity|].
        apply Forall_cons_2; [exact Hc|exact Hl].
Qed.

Lemma parse_number_unsigned s :
  parse_number s =
    match s with
    | c :: s' => if c =? 45 then unsigned_number true s'
                 else unsigned_number false s
    | [] => None
    end.
Proof.
  destruct s as [|c s']; [reflexivity|].
  unfold parse_number, unsigned_number. destruct (c =? 45); reflexivity.
Qed.

Lemma span_digits_none s r : span_digits s = ([], r) -> r = s.
Proof.
  destruct s as [|c s]; cbn [span_digits]; [intros [= <-]; reflexivity|].
  destruct (is_digit c); [destruct (span_digits s); discriminate|].
  intros [= <-]. reflexivity.
Qed.

(** A JSON number after its sign is a decimal literal of StringToNumber
    with the same value, and no literal of another base. *)
Lemma unsigned_number_literal neg s0 n :
  unsigned_number neg s0 = Some (n, []) ->
  unsigned_decimal_literal neg s0 = Some (Number_value n) /\
  Forall number_char s0 /\
  non_decimal_literal s0 = None /\
  exists c t, s0 = c :: t /\ is_digit c = true.
Proof.
  unfold unsigned_number.
  destruct (span_digits s0) as [ip s1] eqn:E0.
  destruct ip as [|d ip']; [discriminate|].
  destruct ((d =? 0) && _) eqn:Ez; [discriminate|].
  destruct (parse_frac s1) as [[fp s2]|] eqn:Ef; [|discriminate].
  destruct (parse_exp s2) as [[e s3]|] eqn:Ee; [|discriminate].
  intros [= <- ->].
  assert (Hhead : exists c t, s0 = c :: t /\ is_digit c = true /\
                    d = c - 48 /\ span_digits t = (ip', s1)).
  { destruct s0 as [|c t]; [discriminate E0|]. cbn [span_digits] in E0.
    destruct (is_digit c) eqn:Ec; [|discriminate E0].
    destruct (span_digits t) as [ds r] eqn:Et. injection E0 as <- <- <-.
    exists c, t. split; [reflexivity|]. split; [exact Ec|]. split; [reflexivity|exact Et]. }
  destruct Hhead as (c & t & -> & Hc & Hd & Et).
  split; [|split; [|split]].
  - unfold unsigned_decimal_literal.
    case_bool_decide as Hinf.
    { rewrite Hinf in E0. vm_compute in E0. discriminate E0. }
    rewrite E0.
    assert (Efp : match s1 with
                  | c0 :: r => if c0 =? 46 then span_digits r else ([], s1)
                  | [] => ([], s1)
                  end = (fp, s2)).
    { destruct s1 as [|c1 r1]; cbn [parse_frac] in Ef.
      - injection Ef as <- <-. reflexivity.
      - destruct (c1 =? 46).
        + destruct (span_digits r1) as [ds r'].
          destruct ds; [discriminate Ef|]. injection Ef as <- <-. reflexivity.
        + injection Ef as <- <-. reflexivity. }
    rewrite Efp. cbn [app]. rewrite Ee. reflexivity.
  - destruct (span_digits_chars_of _ _ _ E0) as (l0 & -> & H0).
    destruct (parse_frac_chars_of _ _ _ Ef) as (l1 & -> & H1).
    destruct (parse_exp_chars_of _ _ _ Ee) as (l2 & -> & H2).
    rewrite app_nil_r. repeat apply Forall_app_2; assumption.
  - unfold non_decimal_literal.
    destruct t as [|p [|d' ds]]; [reflexivity..|].
    destruct (N.eqb_spec c 48) as [->|Hne]; [|reflexivity]. cbn [negb].
    cbn in Hd. subst d. cbn [N.eqb andb] in Ez.
    destruct ip' as [|x ip']; [|discriminate Ez].
    apply span_digits_none in Et. subst s1.
    cbn [parse_frac] in Ef.
    destruct (N.eqb_spec p 46) as [->|Hp]; [reflexivity|].
    injection Ef as <- <-. cbn [parse_exp] in Ee.
    destruct (N.eqb_spec p 101) as [->|Hp1]; [reflexivity|].
    destruct (N.eqb_spec p 69) as [->|Hp2]; [reflexivity|].
    cbn [orb] in Ee. discriminate Ee.
  - eauto.
Qed.

(** A string that holds a JSON number converts to that number. *)
Lemma StringToNumber_number text n :
  parse_number text = Some (n, []) -> StringToNumber text = Number_value n.
Proof.
  rewrite parse_number_unsigned. destruct text as [|c t]; [discriminate|].
  destruct (N.eqb_spec c 45) as [->|Hc]; intros H;
    destruct (unsigned_number_literal _ _ _ H) as (Hv & Hall & Hnd & c' & t' & E & Hd).
  - unfold StringToNumber.
    rewrite trim_no_space.
    2:{ apply Forall_cons_2; [reflexivity|].
        eapply Forall_impl; [exact Hall|]. apply number_char_no_space. }
    assert (Hn : non_decimal_literal (45 :: t) = None).
    { destruct t as [|a [|b t]]; reflexivity. }
    rewrite Hn. cbn [N.eqb]. change (45 =? 43) with false. cbv iota.
    change (45 =? 45) with true. cbv iota. rewrite Hv. reflexivity.
  - unfold StringToNumber.
    rewrite trim_no_space.
    2:{ eapply Forall_impl; [exact Hall|]. apply number_char_no_space. }
    rewrite Hnd. injection E as <- <-.
    assert (H43 : (c =? 43) = false).
    { apply N.eqb_neq. intros ->. discriminate Hd. }
    rewrite H43. rewrite (proj2 (N.eqb_neq c 45) Hc). rewrite Hv. reflexivity.
Qed.

(** ** The screen check of the classic detector *)

Lemma converts_true v : converts v = true -> exists s, ToString v = Ok s.
Proof. unfold converts. destruct (ToString v); [eauto|discriminate]. Qed.

(** X20. [checkScreen] triggers the alarm exactly when the
    [isProcrastinating] of the analysis is truthy and its [confidence],
    converted to a number as the operator [>] converts it, is above 60,
    and then with the reason of the analysis.  This holds of every
    analysis whose [confidence], [reason] and [suggestedAction] the lines
    that log them can convert to strings; when one of them cannot be
    converted, [checkScreen] throws a [TypeError] and triggers nothing.
    A confidence that is a number is compared as it is, so that exactly
    60 does not trigger; one that is a string holding a JSON number
    counts as that number; [undefined], [null], a boolean or an object
    never exceeds 60.  When the analysis failed (no reply that parses)
    nothing is triggered and the detector is left as it was.  A reply
    that parses to [null] makes [checkScreen] throw a [TypeError].
    Without an analyzer it does nothing. *)
Theorem checkScreen_alarm_rule c s :
  (parsed_reply c = None ->
     ProcrastinationDetector.checkScreen true c s
     = ProcrastinationDetector.Returns s []) /\
  (forall a p confidence reason action,
     parsed_reply c = Some a ->
     get a ScreenAnalyzer.k_isProcrastinating = Ok p ->
     get a ScreenAnalyzer.k_confidence = Ok confidence ->
     get a ScreenAnalyzer.k_reason = Ok reason ->
     get a ScreenAnalyzer.k_suggestedAction = Ok action ->
     ProcrastinationDetector.checkScreen true c s
     = if converts confidence && converts reason && converts action
       then if truthy p && (60 <? number_of confidence)%float
            then ProcrastinationDetector.Returns
                   (ProcrastinationDetector.mkState
                      (ProcrastinationDetector.activityMonitor s) true) [reason]
            else ProcrastinationDetector.Returns s []
       else ProcrastinationDetector.Throws TypeError s) /\
  (parsed_reply c = Some JSNull ->
     ProcrastinationDetector.checkScreen true c s
     = ProcrastinationDetector.Throws TypeError s) /\
  ProcrastinationDetector.checkScreen false c s
  = ProcrastinationDetector.Returns s [] /\
  (forall n, number_of (JSNumber n) = Number_value n) /\
  (forall text n, parse_number text = Some (n, []) ->
     number_of (JSString text) = Number_value n) /\
  (forall v,
     v = JSUndefined \/ v = JSNull \/ (exists b, v = JSBool b) \/
     (exists ps, v = JSObject ps) ->
     (60 <? number_of v)%float = false).
Proof.
  unfold ProcrastinationDetector.checkScreen. cbn [negb].
  rewrite analyzeCurrentActivity_outcome. unfold_monad.
  split; [|split; [|split; [|split; [reflexivity|split; [reflexivity|split]]]]].
  - intros Hc.
    destruct (analysis_fallback c Hc) as [-> | ->]; reflexivity.
  - intros a p confidence reason action Hc Hp Hn Hr Ha.
    rewrite (analysis_parsed c a Hc), Hp, Hn, Hr, Ha.
    destruct (converts confidence) eqn:E1; cbn [andb];
      [|rewrite (converts_false _ E1); reflexivity].
    destruct (converts_true _ E1) as [s1 ->].
    destruct (converts reason) eqn:E2; cbn [andb];
      [|rewrite (converts_false _ E2); reflexivity].
    destruct (converts_true _ E2) as [s2 ->].
    destruct (converts action) eqn:E3;
      [|rewrite (converts_false _ E3); reflexivity].
    destruct (converts_true _ E3) as [s3 ->].
    destruct (truthy p); cbn [andb]; [|reflexivity].
    unfold ProcrastinationDetector.exceeds_60, greater_than.
    rewrite ToNumber_converts, E1.
    destruct (60 <? number_of confidence)%float; reflexivity.
  - intros Hc. rewrite (analysis_parsed c JSNull Hc). reflexivity.
  - intros text n H. unfold number_of. cbn [ToNumber].
    apply StringToNumber_number, H.
  - intros v [->|[->|[[b ->]|[ps ->]]]]; try reflexivity.
    + destruct b; reflexivity.
    + unfold number_of, ToNumber. cbn [ToString].
      destruct (has_own _ ps); reflexivity.
Qed.

Lemma checkScreen_alarm_rule_witness :
  let s := ProcrastinationDetector.mkState (ActivityMonitor.constructor 0) false in
  ProcrastinationDetector.checkScreen true
    (ScreenAnalyzer.Replied
       [ScreenAnalyzer.TextBlock
          (jsq "{'isProcrastinating': true, 'confidence': 60, 'reason': 'video', 'suggestedAction': 'close'}")]) s
  = ProcrastinationDetector.Returns s [] /\
  ProcrastinationDetector.checkScreen true
    (ScreenAnalyzer.Replied
       [ScreenAnalyzer.TextBlock
          (jsq "{'isProcrastinating': 1, 'confidence': '61', 'reason': 'video', 'suggestedAction': 'close'}")]) s
  = ProcrastinationDetector.Returns
      (ProcrastinationDetector.mkState (ActivityMonitor.constructor 0) true)
      [JSString (js "video")] /\
  ProcrastinationDetector.checkScreen true
    (ScreenAnalyzer.Replied
       [ScreenAnalyzer.TextBlock
          (jsq "{'isProcrastinating': true, 'confidence': 90, 'reason': {'toString': 1}}")]) s
  = ProcrastinationDetector.Throws TypeError s /\
  ProcrastinationDetector.checkScreen true
    (ScreenAnalyzer.Replied [ScreenAnalyzer.TextBlock (js "Sure! {}")]) s
  = ProcrastinationDetector.Returns s [] /\
  number_of (JSString (js "61.5")) = 61.5%float.
Proof.
  intros s. split; [|split; [|split; [|split]]].
  - destruct (checkScreen_alarm_rule
                (ScreenAnalyzer.Replied
                   [ScreenAnalyzer.TextBlock
                      (jsq "{'isProcrastinating': true, 'confidence': 60, 'reason': 'video', 'suggestedAction': 'close'}")]) s)
      as (_ & H & _).
    rewrite (H _ (JSBool true) (JSNumber (num_of_N 60)) (JSString (js "video"))
               (JSString (js "close"))
               ltac:(vm_compute; reflexivity) ltac:(reflexivity)
               ltac:(reflexivity) ltac:(reflexivity) ltac:(reflexivity)).
    vm_compute. reflexivity.
  - destruct (checkScreen_alarm_rule
                (ScreenAnalyzer.Replied
                   [ScreenAnalyzer.TextBlock
                      (jsq "{'isProcrastinating': 1, 'confidence': '61', 'reason': 'video', 'suggestedAction': 'close'}")]) s)
      as (_ & H & _).
    rewrite (H _ (JSNumber (num_of_N 1)) (JSString (js "61")) (JSString (js "video"))
               (JSString (js "close"))
               ltac:(vm_compute; reflexivity) ltac:(reflexivity)
               ltac:(reflexivity) ltac:(reflexivity) ltac:(reflexivity)).
    vm_compute. reflexivity.
  - destruct (checkScreen_alarm_rule
                (ScreenAnalyzer.Replied
                   [ScreenAnalyzer.TextBlock
                      (jsq "{'isProcrastinating': true, 'confidence': 90, 'reason': {'toString': 1}}")]) s)
      as (_ & H & _).
    rewrite (H _ (JSBool true) (JSNumber (num_of_N 90))
               (JSObject [(js "toString", JSNumber (num_of_N 1))]) JSUndefined
               ltac:(vm_compute; reflexivity) ltac:(reflexivity)
               ltac:(reflexivity) ltac:(reflexivity) ltac:(reflexivity)).
    vm_compute. reflexivity.
  - destruct (checkScreen_alarm_rule
                (ScreenAnalyzer.Replied [ScreenAnalyzer.TextBlock (js "Sure! {}")]) s)
      as (H & _).
    apply H. vm_compute. reflexivity.
  - destruct (checkScreen_alarm_rule ScreenAnalyzer.NotWindows s)
      as (_ & _ & _ & _ & _ & H & _).
    rewrite (H (js "61.5") (JsNum false 615 (-1)) ltac:(vm_compute; reflexivity)).
    vm_compute. reflexivity.
Defined.

(** ** The activity monitor *)

Lemma monitor_step_alternates t ev s rest :
  alternate (negb (ActivityMonitor.isIdle (monitor_step t ev s).1)) rest ->
  alternate (negb (ActivityMonitor.isIdle s)) ((monitor_step t ev s).2 ++ rest).
Proof.
  destruct s as [last idle]. destruct ev as [now|now]; cbn [monitor_step].
  - unfold ActivityMonitor.idleCheck. cbn [ActivityMonitor.isIdle].
    destruct (_ <=? _)%Z; destruct idle; cbn; auto.
  - unfold ActivityMonitor.recordActivity. cbn [ActivityMonitor.isIdle].
    destruct idle; cbn; auto.
Qed.

(** X21. The monitor calls its two callbacks in turn: whatever the
    series of timer ticks and input events, [onIdleDetected] and
    [onActivityDetected] alternate, and from a new monitor the first one
    called is [onIdleDetected].  So [onActivityDetected] is called once
    for each return from an idle period, not for each input event. *)
Theorem monitor_callbacks_alternate t evs s :
  alternate (negb (ActivityMonitor.isIdle s)) (monitor_run t evs s).2 /\
  (forall now, alternate true
                 (monitor_run t evs (ActivityMonitor.constructor now)).2).
Proof.
  assert (H : forall evs s,
            alternate (negb (ActivityMonitor.isIdle s)) (monitor_run t evs s).2).
  { clear. intros evs. induction evs as [|ev evs IH]; intros s; [exact I|].
    cbn [monitor_run].
    destruct (monitor_step t ev s) as [s1 called] eqn:E1.
    destruct (monitor_run t evs s1) as [s2 called'] eqn:E2. cbn [snd].
    pose proof (monitor_step_alternates t ev s called') as Hs.
    rewrite E1 in Hs. cbn [fst snd] in Hs. apply Hs.
    specialize (IH s1). rewrite E2 in IH. exact IH. }
  split; [apply H|]. intros now. apply (H evs (ActivityMonitor.constructor now)).
Qed.

(** X22. The idle check calls [onIdleDetected] exactly when the monitor
    is not idle yet and at least [idleThresholdSeconds] whole seconds
    have passed since the last input: the threshold is reached at
    [1000 * idleThresholdSeconds] milliseconds, not before.  Otherwise it
    calls nothing and changes nothing.  An input event sets the idle time
    back to zero, and the idle time is never negative while the clock
    does not go back. *)
Theorem idleCheck_threshold t now s :
  let last := ActivityMonitor.lastActivityTime s in
  (if negb (ActivityMonitor.isIdle s) && (1000 * t <=? Z.of_N now - Z.of_N last)%Z
   then ActivityMonitor.idleCheck t now s
        = (ActivityMonitor.mkState last true, [ActivityMonitor.onIdleDetected])
   else ActivityMonitor.idleCheck t now s = (s, [])) /\
  (forall later, now <= later ->
     ActivityMonitor.getIdleTimeSeconds later (ActivityMonitor.recordActivity now s).1
     = (Z.of_N (later - now) / 1000)%Z /\
     (0 <= ActivityMonitor.getIdleTimeSeconds later
             (ActivityMonitor.recordActivity now s).1)%Z) /\
  ActivityMonitor.getIdleTimeSeconds now (ActivityMonitor.recordActivity now s).1
  = 0%Z.
Proof.
  intros last. split; [|split].
  - unfold ActivityMonitor.idleCheck, ActivityMonitor.getIdleTimeSeconds.
    fold last.
    assert (E : (t <=? (Z.of_N now - Z.of_N last) / 1000)%Z
                = (1000 * t <=? Z.of_N now - Z.of_N last)%Z).
    { destruct (Z.leb_spec t ((Z.of_N now - Z.of_N last) / 1000));
        destruct (Z.leb_spec (1000 * t) (Z.of_N now - Z.of_N last));
        try reflexivity; exfalso;
        Z.to_euclidean_division_equations; lia. }
    rewrite E, (andb_comm (negb _)).
    destruct (1000 * t <=? Z.of_N now - Z.of_N last)%Z;
      destruct (ActivityMonitor.isIdle s); reflexivity.
  - intros later Hl.
    unfold ActivityMonitor.getIdleTimeSeconds, ActivityMonitor.recordActivity.
    cbn [fst ActivityMonitor.lastActivityTime].
    replace (Z.of_N later - Z.of_N now)%Z with (Z.of_N (later - now)) by lia.
    split; [reflexivity|]. apply Z.div_pos; lia.
  - unfold ActivityMonitor.getIdleTimeSeconds, ActivityMonitor.recordActivity.
    cbn [fst ActivityMonitor.lastActivityTime]. rewrite Z.sub_diag. reflexivity.
Qed.

Lemma idleCheck_threshold_witness :
  ActivityMonitor.idleCheck 5 4999 (ActivityMonitor.constructor 0)
  = (ActivityMonitor.constructor 0, []) /\
  ActivityMonitor.idleCheck 5 5000 (ActivityMonitor.constructor 0)
  = (ActivityMonitor.mkState 0 true, [ActivityMonitor.onIdleDetected]) /\
  ActivityMonitor.getIdleTimeSeconds 9000
    (ActivityMonitor.recordActivity 7000 (ActivityMonitor.mkState 0 true)).1
  = 2%Z.
Proof.
  split; [|split].
  - exact (proj1 (idleCheck_threshold 5 4999 (ActivityMonitor.constructor 0))).
  - exact (proj1 (idleCheck_threshold 5 5000 (ActivityMonitor.constructor 0))).
  - destruct (idleCheck_threshold 5 7000 (ActivityMonitor.mkState 0 true))
      as (_ & H & _).
    destruct (H 9000 ltac:(lia)) as [E _]. exact E.
Defined.

(** ** The classic detector at work *)

Lemma tick_returns t an now s :
  exists s' alarms,
    ProcrastinationDetector.handle t an (ProcrastinationDetector.Tick now) s
    = ProcrastinationDetector.Returns s' alarms /\
    (length alarms <= 1)%nat /\
    (alarms <> [] ->
       ActivityMonitor.isIdle (ProcrastinationDetector.activityMonitor s) = false) /\
    (ActivityMonitor.isIdle (ProcrastinationDetector.activityMonitor s) = true ->
       s' = s).
Proof.
  destruct s as [[last idle] active]. cbn [ProcrastinationDetector.handle].
  unfold ActivityMonitor.idleCheck.
  cbn [ProcrastinationDetector.activityMonitor ActivityMonitor.isIdle
       ProcrastinationDetector.alarmActive].
  destruct idle; [rewrite andb_false_r|rewrite andb_true_r].
  - do 2 eexists. split; [reflexivity|]. cbn. repeat split; auto; congruence.
  - destruct (_ <=? _)%Z.
    + unfold ProcrastinationDetector.handleIdleDetected.
      cbn [ProcrastinationDetector.alarmActive].
      destruct active; cbn; do 2 eexists; (split; [reflexivity|]);
        cbn; repeat split; auto; discriminate.
    + do 2 eexists. split; [reflexivity|]. cbn. repeat split; auto; discriminate.
Qed.

(** X23. What dismisses the alarm of the classic detector, and what
    does not.  An input event that ends an idle period dismisses the
    alarm.  An input event while the monitor is not idle leaves the alarm
    as it is, so an alarm that a screen check triggered while the user
    was active stays until the user has been idle.  A timer tick triggers
    the idle alarm only when the monitor is not idle yet and no alarm is
    active; and while only the timer ticks, at most one alarm is
    triggered. *)
Theorem classic_alarm_dismissal t an s :
  let m := ProcrastinationDetector.activityMonitor s in
  (forall now,
     ProcrastinationDetector.handle t an (ProcrastinationDetector.Input now) s
     = ProcrastinationDetector.Returns
         (ProcrastinationDetector.mkState
            (ActivityMonitor.mkState now false)
            (if ActivityMonitor.isIdle m then false
             else ProcrastinationDetector.alarmActive s)) []) /\
  (forall now s' alarms,
     ProcrastinationDetector.handle t an (ProcrastinationDetector.Tick now) s
     = ProcrastinationDetector.Returns s' alarms ->
     alarms <> [] ->
     ActivityMonitor.isIdle m = false /\
     ProcrastinationDetector.alarmActive s = false /\
     alarms = [JSString (js "No activity detected - you are idle")] /\
     ProcrastinationDetector.alarmActive s' = true) /\
  (forall ticks, forallb is_tick ticks = true ->
     exists s' alarms,
       detector_run t an ticks s = Some (s', alarms) /\
       (length alarms <= 1)%nat).
Proof.
  intros m. split; [|split].
  - intros now. subst m. destruct s as [[last idle] active].
    cbn [ProcrastinationDetector.handle].
    unfold ActivityMonitor.recordActivity, ProcrastinationDetector.handleActivityDetected.
    cbn. destruct idle; [destruct active|]; reflexivity.
  - intros now s' alarms. subst m. destruct s as [[last idle] active].
    cbn [ProcrastinationDetector.handle].
    unfold ActivityMonitor.idleCheck, ProcrastinationDetector.handleIdleDetected.
    cbn [ProcrastinationDetector.activityMonitor ActivityMonitor.isIdle
         ProcrastinationDetector.alarmActive].
    destruct (_ <=? _)%Z; destruct idle; destruct active; cbn;
      intros [= <- <-] Hne; try congruence; auto.
  - intros ticks. clear m. revert s.
    assert (Hidle : forall ticks s,
              forallb is_tick ticks = true ->
              ActivityMonitor.isIdle (ProcrastinationDetector.activityMonitor s) = true ->
              detector_run t an ticks s = Some (s, [])).
    { clear. intros ticks. induction ticks as [|ev ticks IH]; intros s Ht Hi;
        [reflexivity|].
      cbn in Ht. apply andb_prop in Ht as [Hev Ht].
      destruct ev as [now| |]; try discriminate.
      destruct (tick_returns t an now s) as (s' & alarms & E & Hlen & Hne & Hsame).
      cbn [detector_run]. rewrite E. rewrite (Hsame Hi).
      destruct alarms as [|a alarms].
      - rewrite (IH s Ht Hi). reflexivity.
      - exfalso. specialize (Hne ltac:(discriminate)). congruence. }
    induction ticks as [|ev ticks IH]; intros s Ht.
    { exists s, []. split; [reflexivity|]. cbn. lia. }
    cbn in Ht. apply andb_prop in Ht as [Hev Ht].
    destruct ev as [now| |]; try discriminate.
    destruct (tick_returns t an now s) as (s' & alarms & E & Hlen & Hne & Hsame).
    cbn [detector_run]. rewrite E.
    destruct alarms as [|a alarms].
    + destruct (IH s' Ht) as (s2 & alarms2 & -> & Hl2).
      exists s2, alarms2. split; [reflexivity|exact Hl2].
    + assert (Hi' : ActivityMonitor.isIdle
                      (ProcrastinationDetector.activityMonitor s') = true).
      { clear IH Hsame. destruct s as [[last idle] active].
        cbn [ProcrastinationDetector.handle] in E.
        unfold ActivityMonitor.idleCheck, ProcrastinationDetector.handleIdleDetected in E.
        cbn [ProcrastinationDetector.activityMonitor ActivityMonitor.isIdle
             ProcrastinationDetector.alarmActive] in E.
        destruct (_ <=? _)%Z; destruct idle; destruct active; cbn in E;
          injection E as <- E'; try discriminate E'; reflexivity. }
      rewrite (Hidle ticks s' Ht Hi').
      exists s', (a :: alarms). split; [rewrite app_nil_r; reflexivity|exact Hlen].
Qed.

Lemma classic_alarm_dismissal_witness :
  let s := ProcrastinationDetector.mkState (ActivityMonitor.constructor 0) false in
  exists s' alarms,
    detector_run 5 true
      [ProcrastinationDetector.Tick 1000; ProcrastinationDetector.Tick 5000;
       ProcrastinationDetector.Tick 6000; ProcrastinationDetector.Tick 7000] s
    = Some (s', alarms) /\ (length alarms <= 1)%nat.
Proof.
  intros s.
  destruct (classic_alarm_dismissal 5 true s) as (_ & _ & H).
  apply H. reflexivity.
Defined.

(** ** The agent-based detector *)

Lemma decideIntervention_no_decision now run h :
  no_decision run ->
  decideIntervention now run h = (Ok (getDefaultDecision now), h).
Proof.
  intros Hno. unfold decideIntervention. unfold_monad.
  destruct run as [events|received e]; simpl in *; [|reflexivity].
  rewrite parseAgentDecision_decision_of.
  rewrite (decision_of_no_payload _ _ Hno). reflexivity.
Qed.

(** X24. The agent check fails closed: when the backend fails, or its
    response carries no payload that passes the check of
    [parseAgentDecision], [runAgentCheck] shows no alert and leaves the
    detector as it was: the alarm flag, the time of the last
    intervention, the history of the agent, the memory and its file. *)
Theorem runAgentCheck_fails_closed decideNow execNow run write_ok s :
  no_decision run ->
  AgentBasedDetector.runAgentCheck decideNow execNow run write_ok s = (s, []).
Proof.
  intros Hno. unfold AgentBasedDetector.runAgentCheck.
  rewrite (decideIntervention_no_decision _ _ _ Hno).
  destruct s; reflexivity.
Qed.

Lemma runAgentCheck_fails_closed_witness :
  let s := AgentBasedDetector.mkState [alarm_record 1]
             (Some (fresh_store 1700000000000)) true 1700000000500 in
  AgentBasedDetector.runAgentCheck 1700000001000 1700000001001
    (Failed [TextEvent (alarm_response 2)] IOError) true s = (s, []) /\
  AgentBasedDetector.runAgentCheck 1700000001000 1700000001001
    (Completed [TextEvent (js "I would rather not say.")]) true s = (s, []).
Proof.
  intros s. split.
  - apply runAgentCheck_fails_closed. exact I.
  - apply runAgentCheck_fails_closed. vm_compute. reflexivity.
Defined.



(** ** Resuming after an intervention *)

Lemma resumed_floor now last :
  ((Z.of_N now - Z.of_N last) / 1000 <? 60)%Z
  = (Z.of_N now - Z.of_N last <? 60000)%Z.
Proof.
  destruct (Z.ltb_spec ((Z.of_N now - Z.of_N last) / 1000) 60);
    destruct (Z.ltb_spec (Z.of_N now - Z.of_N last) 60000);
    try reflexivity; exfalso; Z.to_euclidean_division_equations; lia.
Qed.

(** X26. The effectiveness of an intervention is recorded once.
    Without an active alarm [handleActivityDetected] changes nothing.
    With one, and a history that is empty or ends with an object, it
    records in the agent and in the memory that the intervention was
    effective exactly when the user resumed less than 60000 milliseconds
    after it, lowers the alarm flag, and touches nothing else; called
    again, before another intervention, it changes nothing. *)
Theorem effectiveness_recorded_once_per_alarm now s :
  (AgentBasedDetector.alarmActive s = false ->
     AgentBasedDetector.handleActivityDetected now s = (Ok tt, s)) /\
  (AgentBasedDetector.alarmActive s = true ->
   forall h,
     recordInterventionEffectiveness (resumed_within_a_minute now s)
       (AgentBasedDetector.interventionHistory s) = (Ok tt, h) ->
     let s' := AgentBasedDetector.mkState h
                 (option_map
                    (fun w => mkWorld (updateInterventionEffectiveness
                                         (resumed_within_a_minute now s) (mem w))
                                      (disk w))
                    (AgentBasedDetector.memorySystem s))
                 false (AgentBasedDetector.lastInterventionTime s) in
     AgentBasedDetector.handleActivityDetected now s = (Ok tt, s') /\
     forall later, AgentBasedDetector.handleActivityDetected later s' = (Ok tt, s')).
Proof.
  split.
  - unfold AgentBasedDetector.handleActivityDetected. intros ->. reflexivity.
  - intros Ha h Hrec s'. split; [|reflexivity].
    unfold AgentBasedDetector.handleActivityDetected.
    unfold resumed_within_a_minute in Hrec. rewrite Ha, resumed_floor, Hrec.
    subst s'. unfold resumed_within_a_minute.
    destruct (AgentBasedDetector.memorySystem s); reflexivity.
Qed.

Lemma effectiveness_recorded_once_per_alarm_witness :
  let s := AgentBasedDetector.mkState [alarm_record 7] None true 1700000000000 in
  (AgentBasedDetector.handleActivityDetected 1700000059999 s).2
  = AgentBasedDetector.mkState
      [JSObject [ (k_type, JSString t_alarm); (k_message, JSString (js "m"));
                  (k_timestamp, JSNumber (num_of_N 7));
                  (k_wasEffective, JSBool true) ]]
      None false 1700000000000 /\
  (AgentBasedDetector.handleActivityDetected 1700000060000 s).2
  = AgentBasedDetector.mkState
      [JSObject [ (k_type, JSString t_alarm); (k_message, JSString (js "m"));
                  (k_timestamp, JSNumber (num_of_N 7));
                  (k_wasEffective, JSBool false) ]]
      None false 1700000000000.
Proof.
  intros s. split.
  - destruct (effectiveness_recorded_once_per_alarm 1700000059999 s) as [_ H].
    destruct (H eq_refl _ ltac:(vm_compute; reflexivity)) as [-> _].
    reflexivity.
  - destruct (effectiveness_recorded_once_per_alarm 1700000060000 s) as [_ H].
    destruct (H eq_refl _ ltac:(vm_compute; reflexivity)) as [-> _].
    reflexivity.
Defined.

(** ** The sessions the detector records *)

Lemma unproductive_part_check decideNow execNow run write_ok s :
  unproductive_part
    (AgentBasedDetector.runAgentCheck decideNow execNow run write_ok s).1
  = unproductive_part s.
Proof.
  unfold AgentBasedDetector.runAgentCheck.
  destruct (decideIntervention decideNow run _) as [r h]. unfold_monad.
  destruct r as [d|e]; [|reflexivity].
  destruct (get d k_shouldIntervene) as [sI|]; [|reflexivity].
  destruct (get d k_intervention) as [i|]; [|reflexivity].
  destruct (get i k_type) as [t|]; [|reflexivity].
  destruct (ToString t); [|reflexivity].
  destruct (get d k_confidence) as [confidence|]; [|reflexivity].
  destruct (ToString confidence); [|reflexivity].
  destruct (get d k_reasoning) as [reasoning|]; [|reflexivity].
  destruct (ToString reasoning); [|reflexivity].
  destruct (truthy sI && negb (AgentBasedDetector.is_string t_none t));
    [|reflexivity].
  unfold AgentBasedDetector.executeIntervention.
  match goal with |- context [match ?r with Ok _ => _ | Throw _ => _ end] =>
    destruct r as [alerts|e] end; [|reflexivity].
  cbn [AgentBasedDetector.memorySystem]. unfold unproductive_part.
  destruct (AgentBasedDetector.memorySystem s) as [w|]; [|reflexivity].
  cbn [fst AgentBasedDetector.memorySystem].
  destruct (currentSession (mem w)) as [cur|] eqn:E.
  - rewrite (mem_recordIntervention_open _ _ _ E). reflexivity.
  - rewrite mem_recordIntervention_none by exact E. reflexivity.
Qed.

Lemma unproductive_part_activity now s :
  unproductive_part (AgentBasedDetector.handleActivityDetected now s).2
  = unproductive_part s.
Proof.
  unfold AgentBasedDetector.handleActivityDetected.
  destruct (AgentBasedDetector.alarmActive s); [|reflexivity].
  destruct (recordInterventionEffectiveness _ _) as [[u|e] h]; cbn [snd];
    unfold unproductive_part; cbn [AgentBasedDetector.memorySystem];
    destruct (AgentBasedDetector.memorySystem s); reflexivity.
Qed.

Lemma unproductive_part_stop getHours endNow updNow write_ok run s :
  unproductive_part (AgentBasedDetector.stop getHours endNow updNow write_ok run s).2
  = unproductive_part s.
Proof.
  unfold AgentBasedDetector.stop.
  assert (H : unproductive_part
                (AgentBasedDetector.mkState (AgentBasedDetector.interventionHistory s)
                   match AgentBasedDetector.memorySystem s with
                   | Some w =>
                       Some (after (endSession getHours endNow updNow write_ok true
                                      (js "Session ended by user") w) w)
                   | None => None
                   end (AgentBasedDetector.alarmActive s)
                   (AgentBasedDetector.lastInterventionTime s))
              = unproductive_part s).
  { unfold unproductive_part. cbn [AgentBasedDetector.memorySystem].
    destruct (AgentBasedDetector.memorySystem s) as [w|]; [|reflexivity].
    destruct (currentSession (mem w)) as [cur|] eqn:E.
    - rewrite (mem_endSession_open _ _ _ _ _ _ _ _ E). cbn [userProfile].
      unfold updateUserProfile. cbn. f_equal. f_equal. lia.
    - rewrite mem_endSession_none by exact E. reflexivity. }
  destruct (AgentBasedDetector.memorySystem s) as [w|] eqn:Ew.
  - destruct (endSession getHours endNow updNow write_ok true
                (js "Session ended by user") w) as [w'|e w'|] eqn:Ee;
      cbn [snd]; try exact H.
    + destruct (analyzeProductivityPatterns run _) as [a h] eqn:Ea.
      unfold analyzeProductivityPatterns in Ea.
      destruct (Nat.ltb _ 3); injection Ea as <- <-; exact H.
    + destruct (analyzeProductivityPatterns run _) as [a h] eqn:Ea.
      unfold analyzeProductivityPatterns in Ea.
      destruct (Nat.ltb _ 3); injection Ea as <- <-; exact H.
  - destruct (analyzeProductivityPatterns run _) as [a h] eqn:Ea.
    unfold analyzeProductivityPatterns in Ea. cbn [snd].
    destruct (Nat.ltb _ 3); injection Ea as <- <-; exact H.
Qed.

(** X27. The detector records every session as a productive one: [stop]
    ends the session with [wasProductive] true whatever happened in it.
    So no handler of the detector ever changes [unproductiveHoursMap],
    and the number of sessions counted as unproductive,
    [totalSessions - productiveSessions], stays what it was when the
    memory was loaded. *)
Theorem detector_sessions_are_productive getHours ops s :
  unproductive_part (detector_ops getHours ops s) = unproductive_part s /\
  (forall endNow updNow write_ok run w cur,
     AgentBasedDetector.memorySystem s = Some w ->
     currentSession (mem w) = Some cur ->
     exists w',
       AgentBasedDetector.memorySystem
         (AgentBasedDetector.stop getHours endNow updNow write_ok run s).2
       = Some w' /\
       last (sessions (mem w'))
       = Some (mkSession (startTime cur) (Some endNow) true
                         (interventionsCount cur) (js "Session ended by user")) /\
       productiveSessions (userProfile (mem w'))
       = productiveSessions (userProfile (mem w)) + 1).
Proof.
  split.
  - revert s. induction ops as [|o ops IH]; intros s; [reflexivity|].
    change (detector_ops getHours (o :: ops) s)
      with (detector_ops getHours ops (detector_op getHours o s)).
    rewrite IH.
    destruct o; cbn [detector_op];
      auto using unproductive_part_check, unproductive_part_activity,
                 unproductive_part_stop.
  - intros endNow updNow write_ok run w cur Hw Hcur.
    exists (after (endSession getHours endNow updNow write_ok true
                     (js "Session ended by user") w) w).
    split.
    + unfold AgentBasedDetector.stop. rewrite Hw.
      destruct (endSession _ _ _ _ _ _ w) as [w'|e w'|]; cbn [snd];
        try reflexivity;
        destruct (analyzeProductivityPatterns run _); reflexivity.
    + rewrite (mem_endSession_open _ _ _ _ _ _ _ _ Hcur).
      cbn [sessions userProfile]. split.
      * unfold last_n. rewrite drop_app_le by (rewrite length_app; cbn; lia).
        apply last_snoc.
      * unfold updateUserProfile. reflexivity.
Qed.

Lemma detector_sessions_are_productive_witness :
  let s := AgentBasedDetector.mkState [] (Some (fresh_store 1700000000000))
             false 0 in
  exists w',
    AgentBasedDetector.memorySystem
      (AgentBasedDetector.stop utcHours 1700000100000 1700000100001 true
         (Failed [] IOError) s).2 = Some w' /\
    last (sessions (mem w'))
    = Some (mkSession 1700000000000 (Some 1700000100000) true 0
                      (js "Session ended by user")) /\
    productiveSessions (userProfile (mem w')) = 0 + 1.
Proof.
  intros s.
  destruct (detector_sessions_are_productive utcHours [] s) as [_ H].
  apply (H 1700000100000 1700000100001 true (Failed [] IOError)
           (fresh_store 1700000000000) (mkSession 1700000000000 None true 0 []));
    vm_compute; reflexivity.
Defined.

(** ** Setting up the detector *)

(** X28. [initialize] throws when the API key is not set or empty, and
    then creates no memory.  With memory enabled it loads the file and
    opens a session, which saves at once.  So a file that is missing or
    does not parse is replaced by the document of a new store, its
    content lost; and a file that holds the document of a state is read
    into that state and written back with the same content.  When the
    write fails, [initialize] throws with the memory system set. *)
Theorem initialize_starts_session key enableMemory constructNow startNow file write_ok :
  (key = None \/ key = Some [] ->
     AgentBasedDetector.initialize key (Ok tt) enableMemory constructNow
       startNow file write_ok
     = AgentBasedDetector.Fails
         (Error "Environment variable ANTHROPIC_API_KEY is not set") None) /\
  (forall c k, key = Some (c :: k) -> unreadable file ->
     let session := mkSession startNow None true 0 [] in
     let m := mkMemory [] (Some session) (neutralProfile constructNow) in
     AgentBasedDetector.initialize key (Ok tt) true constructNow startNow
       file write_ok
     = if write_ok
       then AgentBasedDetector.Ready
              (Some (mkWorld m (JSON_stringify (document m))))
       else AgentBasedDetector.Fails IOError (Some (mkWorld m file))) /\
  (forall c k m text, key = Some (c :: k) ->
     safe_integers m = true -> survives_text (rate m) ->
     JSON_stringify (document m) = Some text -> file = Some text ->
     AgentBasedDetector.initialize key (Ok tt) true constructNow startNow
       file true
     = AgentBasedDetector.Ready
         (Some (mkWorld (mkMemory (sessions m)
                                  (Some (mkSession startNow None true 0 []))
                                  (userProfile m))
                        (Some text)))).
Proof.
  split; [|split].
  - intros [-> | ->]; reflexivity.
  - intros c k -> Hfile session m.
    unfold AgentBasedDetector.initialize, AgentBasedDetector.getRequiredEnv.
    unfold_monad.
    destruct (load_try_unreadable (constructor constructNow) file Hfile) as [e E].
    unfold load. rewrite E. unfold startSession. subst m session.
    unfold constructor. cbn [mem sessions userProfile disk].
    match goal with |- context [save write_ok ?w] =>
      destruct (save_outcome write_ok w) as (text & Et & ->) end.
    cbn [mem] in Et. rewrite Et. destruct write_ok; reflexivity.
  - intros c k m text -> Hsafe Hrate Ht ->.
    unfold AgentBasedDetector.initialize, AgentBasedDetector.getRequiredEnv.
    unfold_monad.
    rewrite (load_of_document m (constructor constructNow) text Hsafe Hrate Ht).
    unfold startSession. cbn [mem sessions userProfile disk currentSession].
    match goal with |- context [save true ?w] =>
      destruct (save_outcome true w) as (text' & Et & ->) end.
    cbn [mem] in Et.
    assert (Ed : forall cur, document (mkMemory (sessions m) cur (userProfile m))
                             = document m) by reflexivity.
    rewrite Ed in Et. rewrite Ht in Et. injection Et as <-. reflexivity.
Qed.

Lemma initialize_starts_session_witness :
  AgentBasedDetector.initialize None (Ok tt) true 1 2 None true
  = AgentBasedDetector.Fails
      (Error "Environment variable ANTHROPIC_API_KEY is not set") None /\
  AgentBasedDetector.initialize (Some (js "sk-key")) (Ok tt) true 1 2
    (Some (jsq "{'sessions': [")) true
  = AgentBasedDetector.Ready
      (Some (mkWorld (mkMemory [] (Some (mkSession 2 None true 0 []))
                               (neutralProfile 1))
                     (JSON_stringify
                        (document (mkMemory [] (Some (mkSession 2 None true 0 []))
                                            (neutralProfile 1)))))).
Proof.
  split.
  - apply (initialize_starts_session None true 1 2 None true). left. reflexivity.
  - destruct (initialize_starts_session (Some (js "sk-key")) true 1 2
                (Some (jsq "{'sessions': [")) true) as (_ & H & _).
    apply (H 115 (js "k-key") eq_refl). vm_compute. reflexivity.
Defined.
(* ===================================================================== *)
(** * Text after the payload *)
(* ===================================================================== *)

Lemma skip_ws_blank_app rest t : skip_ws rest = [] -> skip_ws (rest ++ t) = skip_ws t.
Proof.
  induction rest as [|c rest IH]; cbn [skip_ws app]; [reflexivity|].
  destruct (is_ws c); [exact IH|discriminate].
Qed.

Lemma skip_ws_keeps c t : is_ws c = false -> c ∈ t -> skip_ws t <> [].
Proof.
  intros Hc. induction t as [|d t IH]; intros Hin; [inversion Hin|].
  cbn [skip_ws]. destruct (is_ws d) eqn:Ed; [|discriminate].
  apply IH. apply elem_of_cons in Hin as [->|Hin]; [congruence|exact Hin].
Qed.

Lemma JSON_parse_object_head p v :
  JSON_parse (123 :: p) = Some v -> not_a_number v.
Proof.
  unfold JSON_parse.
  replace (2 * length (123%N :: p) + 2)%nat
    with (S (2 * length (123%N :: p) + 1)) by lia.
  rewrite parse_value_object.
  destruct (skip_ws p) as [|d s2]; [discriminate|].
  destruct (d =? 125).
  - destruct (skip_ws s2); [|discriminate]. intros [= <-]. exact I.
  - destruct (parse_members _ p []) as [[ps r]|]; [|discriminate].
    destruct (skip_ws r); [|discriminate]. intros [= <-]. exact I.
Qed.

(** A text that parses, followed by text that is not blank, does not
    parse, unless the value is a number. *)
Lemma JSON_parse_trailing text v c t :
  JSON_parse text = Some v -> not_a_number v ->
  is_ws c = false -> c ∈ t ->
  JSON_parse (text ++ t) = None.
Proof.
  unfold JSON_parse. intros Hp Hv Hc Hin.
  destruct (parse_value (2 * length text + 2) text) as [[v' rest]|] eqn:E;
    [|discriminate].
  destruct (skip_ws rest) eqn:Er; [|discriminate]. injection Hp as ->.
  assert (E' : parse_value (2 * length (text ++ t) + 2) text = Some (v, rest)).
  { rewrite JSON_parse_fuel by (rewrite length_app; lia). exact E. }
  destruct (parse_ext (2 * length (text ++ t) + 2) t) as [Hext _].
  rewrite (Hext _ _ _ E' (or_intror Hv)).
  rewrite (skip_ws_blank_app _ _ Er).
  destruct (skip_ws t) eqn:Et; [|reflexivity].
  exfalso. exact (skip_ws_keeps c t Hc Hin Et).
Qed.

(** X29. A closing brace after the payload defeats the extraction: when
    the response holds a JSON object and, anywhere after it, another
    closing brace (a second object, or a brace in the prose), the regular
    expression matches through that last brace, the match is not JSON,
    and [parseAgentDecision] returns the default decision, however well
    formed the first object is. *)
Theorem closing_brace_after_payload_defeats_extraction now pre p suf v :
  123 ∉ pre ->
  JSON_parse (123 :: p) = Some v ->
  125 ∈ suf ->
  parseAgentDecision now (pre ++ (123 :: p) ++ suf) = Ok (getDefaultDecision now).
Proof.
  intros Hpre Hp Hsuf.
  destruct (through_last 125 suf) as [u|] eqn:Eu;
    [|apply through_last_None in Eu; contradiction].
  apply through_last_inv in Eu as (s1 & s2 & -> & Hs2 & ->).
  assert (Hm : match_braces (pre ++ (123 :: p) ++ s1 ++ 125 :: s2)
               = Some ((123 :: p) ++ s1 ++ [125])).
  { apply match_braces_of_span. exists pre, (p ++ s1), s2.
    split; [|split; [|split; assumption]].
    - cbn [app]. rewrite <- !app_assoc. reflexivity.
    - cbn [app]. rewrite <- app_assoc. reflexivity. }
  unfold parseAgentDecision, parseAgentDecision_try. rewrite Hm. unfold_monad.
  rewrite (JSON_parse_trailing (123 :: p) v 125 (s1 ++ [125]) Hp
             (JSON_parse_object_head p v Hp) eq_refl).
  - reflexivity.
  - apply elem_of_app. right. left.
Qed.

Lemma closing_brace_after_payload_defeats_extraction_witness :
  parseAgentDecision 5
    (js "First: " ++
     (123 :: jsq "'shouldIntervene': true, 'intervention': {'type': 'alarm'}, 'reasoning': 'idle'}")
     ++ js " (format: {...})")
  = Ok (getDefaultDecision 5).
Proof.
  apply (closing_brace_after_payload_defeats_extraction 5 (js "First: ")
           (jsq "'shouldIntervene': true, 'intervention': {'type': 'alarm'}, 'reasoning': 'idle'}")
           (js " (format: {...})")
           (JSObject [ (k_shouldIntervene, JSBool true);
                       (k_intervention, JSObject [(k_type, JSString t_alarm)]);
                       (k_reasoning, JSString (js "idle")) ])).
  - vm_compute. intros H.
    repeat (apply elem_of_cons in H as [H|H]; [discriminate H|]). inversion H.
  - vm_compute. reflexivity.
  - vm_compute. repeat constructor.
Defined.

Lemma JSON_parse_head_rejects c s : starts_no_value c -> JSON_parse (c :: s) = None.
Proof.
  intros (Hws & Hd & Hc). unfold JSON_parse.
  replace (2 * length (c :: s) + 2)%nat with (S (2 * length (c :: s) + 1)) by lia.
  cbn [parse_value]. rewrite (skip_ws_head c s Hws).
  rewrite !not_elem_of_cons in Hc.
  destruct Hc as (H1 & H2 & H3 & H4 & H5 & H6 & H7 & _).
  rewrite <- N.eqb_neq in H1, H2, H3, H4, H5, H6, H7.
  rewrite H1, H2, H3, H4, H5, H6.
  unfold parse_number. rewrite H7. cbn [span_digits]. rewrite Hd. reflexivity.
Qed.

(** X30. The screen analyzer understands a reply only when it is bare
    JSON: [parseResponse] parses the whole text and extracts nothing.  A
    reply that starts with anything but a JSON value (prose, a Markdown
    code fence), or that holds a JSON object followed by anything but
    white space, gives the fallback analysis "Failed to parse AI
    response", which reports no procrastination. *)
Theorem parseResponse_needs_bare_json rest :
  (forall c s, starts_no_value c ->
     ScreenAnalyzer.analyzeCurrentActivity
       (ScreenAnalyzer.Replied (ScreenAnalyzer.TextBlock (c :: s) :: rest))
     = Ok ScreenAnalyzer.parseFailed) /\
  (forall p v c t, JSON_parse (123 :: p) = Some v -> is_ws c = false -> c ∈ t ->
     ScreenAnalyzer.analyzeCurrentActivity
       (ScreenAnalyzer.Replied (ScreenAnalyzer.TextBlock ((123 :: p) ++ t) :: rest))
     = Ok ScreenAnalyzer.parseFailed).
Proof.
  split.
  - intros c s Hc. rewrite analyzeCurrentActivity_outcome. unfold analysis_after.
    rewrite (JSON_parse_head_rejects c s Hc). reflexivity.
  - intros p v c t Hp Hc Hin. rewrite analyzeCurrentActivity_outcome.
    unfold analysis_after.
    rewrite (JSON_parse_trailing (123 :: p) v c t Hp
               (JSON_parse_object_head p v Hp) Hc Hin).
    reflexivity.
Qed.

Lemma parseResponse_needs_bare_json_witness :
  ScreenAnalyzer.analyzeCurrentActivity
    (ScreenAnalyzer.Replied [ScreenAnalyzer.TextBlock fenced_reply])
  = Ok ScreenAnalyzer.parseFailed /\
  ScreenAnalyzer.analyzeCurrentActivity
    (ScreenAnalyzer.Replied
       [ScreenAnalyzer.TextBlock
          ((123 :: jsq "'isProcrastinating': true, 'confidence': 90}") ++ js " Done.")])
  = Ok ScreenAnalyzer.parseFailed.
Proof.
  split.
  - destruct (parseResponse_needs_bare_json []) as [H _].
    apply (H 96 (tail fenced_reply)).
    split; [reflexivity|]. split; [reflexivity|].
    intros Hin.
    repeat (apply elem_of_cons in Hin as [Hin|Hin]; [discriminate Hin|]).
    inversion Hin.
  - destruct (parseResponse_needs_bare_json []) as [_ H].
    apply (H (jsq "'isProcrastinating': true, 'confidence': 90}")
             (JSObject [ (ScreenAnalyzer.k_isProcrastinating, JSBool true);
                         (ScreenAnalyzer.k_confidence, JSNumber (num_of_N 90)) ])
             68 (js " Done.")).
    + vm_compute. reflexivity.
    + reflexivity.
    + vm_compute. repeat constructor.
Defined.
